(** * EOHFPGA dashboard: the data layer of [js/dashboard/data.js]

    A shallow embedding of the client-side statistics engine
    ([computeStatsFromPaths]), the synthetic path generator ([gaussRandom],
    [generatePath], [generateMockData]), the two live normalisers
    ([fetchFull], [fetchRawPaths]) and the waterfall acquisition strategy
    ([fetchSimulationResults]), followed by the properties the specification
    states about them.  The code around the data layer is embedded
    next to it: [clamp] and [animateValue] of [utils.js], the state machine
    of [app.js], and what the drawdown and histogram charts compute for
    their tooltip and start-price marker; further properties of all of it
    follow the claims.

    Numbers.  A JavaScript Number is an IEEE-754 binary64 value, which is
    exactly Rocq's primitive [float]: [+ - * /], [sqrt] and the comparisons are
    the kernel's, so a concrete scenario evaluates to the very double the
    browser computes (NaN and the infinities included).  Quantities that the
    program only ever holds as small integers (array lengths, loop counters,
    bin counts, drawdown run lengths, rounded millisecond timings) are kept
    in [nat] or [Z]: integers of magnitude below 2^53 are exact doubles, and
    array lengths are below 2^32. *)

From Stdlib Require Import String Ascii DecimalString.
From Stdlib Require Import ZArith List Bool Lia Arith PeanoNat.
From Stdlib Require Import Floats.
From Stdlib Require Import Sorted Permutation.
Import ListNotations.

Set Warnings "-inexact-float".

(* ================================================================== *)
(** * JavaScript numbers *)
(* ================================================================== *)

Module JS.

Open Scope float_scope.

(** The double nearest to an integer (exact below 2^53). *)
Definition of_Z (z : Z) : float :=
  SF2Prim (binary_normalize prec emax z 0 false).

Definition of_nat (n : nat) : float := of_Z (Z.of_nat n).

(** The integer [floor x] of a finite double; [None] for NaN and the
    infinities. *)
Definition floorZ (x : float) : option Z :=
  match Prim2SF x with
  | S754_zero _ => Some 0%Z
  | S754_finite s m e =>
      let v := if s then Z.neg m else Z.pos m in
      Some (if (0 <=? e)%Z then (v * 2 ^ e)%Z else (v / 2 ^ (- e))%Z)
  | _ => None
  end.

(** The same floor, on a decoded double. *)
Definition sf_floor (x : spec_float) : option Z :=
  match x with
  | S754_zero _ => Some 0%Z
  | S754_finite s m e =>
      let v := if s then Z.neg m else Z.pos m in
      Some (if (0 <=? e)%Z then (v * 2 ^ e)%Z else (v / 2 ^ (- e))%Z)
  | _ => None
  end.

(** JavaScript arrays hold fewer than 2^32 elements. *)
Definition max_length : Z := (2 ^ 32)%Z.

(** [Math.floor]: NaN, the infinities and both zeros are returned as they
    are; a positive fraction gives [+0]. *)
Definition Math_floor (x : float) : float :=
  match floorZ x with
  | Some z => if (z =? 0)%Z then (if x =? 0 then x else 0) else of_Z z
  | None => x
  end.

(** The integer [Math.round] picks for a finite double: the nearest one,
    a tie going towards +infinity, that is [floor (x + 1/2)] computed without
    rounding. *)
Definition roundZ (x : float) : option Z :=
  match Prim2SF x with
  | S754_zero _ => Some 0%Z
  | S754_finite s m e =>
      let v := if s then Z.neg m else Z.pos m in
      Some (if (0 <=? e)%Z then (v * 2 ^ e)%Z
            else ((2 * v + 2 ^ (- e)) / (2 * 2 ^ (- e)))%Z)
  | _ => None
  end.

(** [Math.round]: a value in [-0.5, -0] rounds to [-0]. *)
Definition Math_round (x : float) : float :=
  match roundZ x with
  | Some z => if (z =? 0)%Z
              then (if (x <? 0) || (get_sign x) then (-0) else 0)
              else of_Z z
  | None => x
  end.

(** [Math.round] of a clock difference, as the integer it is.  The clock
    ([performance.now]) yields finite doubles only; the default is never
    taken on them. *)
Definition Math_round_Z (x : float) : Z :=
  match roundZ x with Some z => z | None => 0%Z end.

(** [Math.max] and [Math.min] of two arguments: NaN if either is NaN, and
    [-0] below [+0]. *)
Definition Math_max (a b : float) : float :=
  if is_nan a || is_nan b then nan
  else if a <? b then b
  else if b <? a then a
  else if get_sign a then b else a.

Definition Math_min (a b : float) : float :=
  if is_nan a || is_nan b then nan
  else if a <? b then a
  else if b <? a then b
  else if get_sign a then a else b.

(** [parseFloat(x.toFixed(d))].  [toFixed] takes the integer [n] with
    [n / 10^d] nearest to the exact value of [|x|] (the larger on a tie) and
    prints it with [d] decimals; [parseFloat] reads the decimal back as the
    nearest double, here the correctly rounded quotient [n / 10^d].  At or
    above 1e21 [toFixed] prints like [String(x)], which [parseFloat] reads
    back as [x]; NaN and the infinities print and parse as themselves; [-0]
    prints as ["0.00"]. *)
Definition toFixed_digits (d : nat) (m : positive) (e : Z) : Z :=
  let scale := (10 ^ Z.of_nat d)%Z in
  if (0 <=? e)%Z then (Z.pos m * 2 ^ e * scale)%Z
  else ((2 * (Z.pos m * scale) + 2 ^ (- e)) / (2 * 2 ^ (- e)))%Z.

Definition parseFloat_toFixed (d : nat) (x : float) : float :=
  match Prim2SF x with
  | S754_finite s m e =>
      if 1e21 <=? abs x then x
      else
        match toFixed_digits d m e with
        | Zpos n =>
            SF2Prim (SFdiv prec emax (S754_finite s n 0)
                       (S754_finite false (Z.to_pos (10 ^ Z.of_nat d)) 0))
        | _ => if s then (-0) else 0
        end
  | S754_zero _ => 0
  | _ => x
  end.

(** The array index a Number denotes when used as a property key: the
    canonical numeric strings of the integers [0, 1, 2, ...]; [-0] prints as
    ["0"].  Any other key (NaN, a fraction, a negative number) names an
    ordinary property and touches no element. *)
Definition array_index (x : float) : option nat :=
  match Prim2SF x with
  | S754_zero _ => Some 0%nat
  | S754_finite false m e =>
      if (0 <=? e)%Z then Some (Z.to_nat (Z.pos m * 2 ^ e))
      else if (Z.pos m mod 2 ^ (- e) =? 0)%Z
           then Some (Z.to_nat (Z.pos m / 2 ^ (- e)))
           else None
  | _ => None
  end.

(** A JavaScript value that is a Number or [undefined] (what reading past
    the end of an array, or a missing property, yields). *)
Inductive value : Type :=
  | Num (x : float)
  | Undefined.

(** [ToNumber]: [undefined] converts to NaN in arithmetic and in the
    relational operators. *)
Definition toNumber (v : value) : float :=
  match v with Num x => x | Undefined => nan end.

Definition lt (a b : value) : bool := toNumber a <? toNumber b.
Definition le (a b : value) : bool := toNumber a <=? toNumber b.
Definition gt (a b : value) : bool := toNumber b <? toNumber a.
Definition ge (a b : value) : bool := toNumber b <=? toNumber a.

(** [a[i]] on an array of numbers. *)
Definition get (a : list float) (i : nat) : value :=
  match nth_error a i with Some x => Num x | None => Undefined end.

Definition get_value (a : list value) (i : nat) : value :=
  nth i a Undefined.

End JS.

(* ================================================================== *)
(** * Outcomes of fallible code *)
(* ================================================================== *)

(** What a [throw] (or a rejected promise) carries. *)
Inductive error : Type :=
  | TypeError                (* property access on undefined / null *)
  | SyntaxError              (* [res.json()] on a body that is not JSON *)
  | FetchFailed              (* [fetch] rejected: transport failure *)
  | HttpStatus (status : nat) (* [throw new Error(`${res.status}`)] *)
  | EmptyPaths.              (* [throw new Error('Empty paths')] *)

Inductive outcome (A : Type) : Type :=
  | Ok (a : A)
  | Throw (e : error).

Arguments Ok {A} a.
Arguments Throw {A} e.

Definition bind {A B : Type} (m : outcome A) (k : A -> outcome B) : outcome B :=
  match m with
  | Ok a => k a
  | Throw e => Throw e
  end.

Notation "'do' x <- m ; k" := (bind m (fun x => k))
  (at level 10, x name, m at level 100, k at level 200).

(** [Math.random]: the sequence of doubles in [[0, 1)] it returns, read
    through a cursor that every call advances by one. *)
Definition random_source : Type := nat -> float.

(* ================================================================== *)
(** * The statistics engine: [computeStatsFromPaths] *)
(* ================================================================== *)

Module Stats.

Import JS.
Open Scope float_scope.

Record RiskStatistics : Type := {
  value_at_risk_95 : float;
  conditional_value_at_risk_95 : float;
  probability_of_profit : float;
  average_drawdown_days : float
}.

Record HistogramData : Type := {
  bin_edges : list float;
  fpga_counts : list nat;
  cpu_counts : list float
}.

Record DrawdownDistribution : Type := {
  dd_bin_edges : list string;
  dd_counts : list nat
}.

Record StatsResult : Type := {
  risk_statistics : RiskStatistics;
  histogram_data : HistogramData;
  drawdown_distribution : DrawdownDistribution
}.

(** ** Drawdown runs (source lines 26-38) *)

(** One turn of the inner loop at step [d]: the pair is [(maxDD, currentDD)]. *)
Definition drawdown_step (p : list float) (startPrice : value)
    (st : nat * nat) (d : nat) : nat * nat :=
  let '(maxDD, currentDD) := st in
  if lt (get p d) startPrice
  then let currentDD := S currentDD in
       (if (maxDD <? currentDD)%nat then currentDD else maxDD, currentDD)
  else (maxDD, 0%nat).

(** [for (let d = 1; d < days; d++)] from [maxDD = 0, currentDD = 0]. *)
Definition maxDrawdown (days : nat) (startPrice : value) (p : list float) : nat :=
  fst (fold_left (drawdown_step p startPrice) (seq 1 (days - 1)) (0%nat, 0%nat)).

(** ** Sorting (source line 41) *)

(** [(a, b) => a - b] *)
Definition compareFn (a b : float) : float := a - b.

(** [Array.prototype.sort] is stable and orders [a] after [b] exactly when
    the comparator is positive on [(a, b)]; a NaN result counts as [+0]. *)
Fixpoint insert (x : float) (l : list float) : list float :=
  match l with
  | [] => [x]
  | y :: t => if 0 <? compareFn x y then y :: insert x t else x :: y :: t
  end.

Definition sort_numbers (l : list float) : list float :=
  fold_right insert [] l.

Definition numbers (l : list value) : list float :=
  flat_map (fun v => match v with Num x => [x] | Undefined => [] end) l.

Definition undefineds (l : list value) : list value :=
  filter (fun v => match v with Num _ => false | Undefined => true end) l.

(** [undefined] entries are never handed to the comparator: they go to the
    end of the sorted array. *)
Definition sort (l : list value) : list value :=
  map Num (sort_numbers (numbers l)) ++ undefineds l.

(** ** Histogram (source lines 41-60) *)

Definition binCount : nat := 24.

(** [Math.floor(0.02 * n)], [Math.floor(0.98 * n)] and [Math.floor(0.05 * n)]
    for an array length [n], as the integer quotients they are.  The
    doubles 0.02 and 0.05 lie just above 1/50 and 1/20, the double 0.98 just
    below 49/50 by less than a fifth of an ulp, and the product is rounded
    once, so the floor is the quotient: [IndexFacts.percentile_index_agrees]
    proves that the double computation [floor_times] gives these quotients
    for every array length (below 2^32). *)
Definition index_002 (n : nat) : nat := n / 50.
Definition index_098 (n : nat) : nat := 49 * n / 50.
Definition index_005 (n : nat) : nat := n / 20.

(** The same three indices, computed in doubles as the source writes them. *)
Definition floor_times (c : float) (n : nat) : option Z :=
  floorZ (c * of_nat n).

(** [fpgaCounts[idx]++]: an index below the length increments that element;
    a key that is no array index (NaN) sets an ordinary property and leaves
    every element alone.  [idx] is at most [binCount - 1] by [Math.min], so
    an array index is never past the end
    ([JSFacts.array_index_Math_min]). *)
Fixpoint increment (counts : list nat) (i : nat) : list nat :=
  match counts, i with
  | [], _ => []
  | c :: t, O => S c :: t
  | c :: t, S j => c :: increment t j
  end.

Definition bump (counts : list nat) (idx : float) : list nat :=
  match array_index idx with
  | Some i => increment counts i
  | None => counts
  end.

(** The body of [for (const p of finalPrices)]. *)
Definition histogram_step (trimLow trimHigh : value) (binWidth : float)
    (counts : list nat) (p : value) : list nat :=
  if lt p trimLow || gt p trimHigh then counts
  else
    let idx := Math_min
                 (Math_floor ((toNumber p - toNumber trimLow) / binWidth))
                 (of_nat (binCount - 1)) in
    bump counts idx.

(** [fpgaCounts.map(c => Math.max(0, c + Math.round((Math.random() - 0.5) * c * 0.04)))],
    one draw per bin, in order. *)
Definition jitter (r : float) (c : nat) : float :=
  Math_max 0 (of_nat c + Math_round ((r - 0.5) * of_nat c * 0.04)).

Fixpoint cpuCounts (random : random_source) (k : nat) (counts : list nat)
    : list float * nat :=
  match counts with
  | [] => ([], k)
  | c :: t =>
      let v := jitter (random k) c in
      let '(vs, k') := cpuCounts random (S k) t in
      (v :: vs, k')
  end.

(** ** Drawdown buckets (source lines 71-84) *)

Definition ddStep (days : nat) : nat := Nat.max 1 ((days - 1) / 5).

(** [[lo, hi]] with [None] for [Infinity]. *)
Definition ddBinEdges (days : nat) : list (nat * option nat) :=
  map (fun i => (i * ddStep days,
                 if (i =? 4)%nat then None else Some ((i + 1) * ddStep days)))%nat
      (seq 0 5).

Definition in_bucket (b : nat * option nat) (dd : nat) : bool :=
  let '(lo, hi) := b in
  (lo <=? dd)%nat && match hi with Some h => (dd <? h)%nat | None => true end.

Definition ddCounts (days : nat) (maxDrawdowns : list nat) : list nat :=
  map (fun b => length (filter (in_bucket b) maxDrawdowns)) (ddBinEdges days).

Definition decimal (n : nat) : string :=
  NilZero.string_of_uint (Nat.to_uint n).

Definition ddLabels (days : nat) : list string :=
  map (fun i =>
         let lo := (i * ddStep days)%nat in
         if (i =? 4)%nat then (decimal lo ++ "d+")%string
         else (decimal lo ++ "-" ++ decimal ((i + 1) * ddStep days) ++ "d")%string)
      (seq 0 5).

(** ** The intermediate values of one call *)

Definition finalPrices (paths : list (list float)) : list value :=
  map (fun p => get p (length p - 1)) paths.

Definition maxDrawdowns (paths : list (list float)) (startPrice : value)
    : list nat :=
  map (maxDrawdown (length (hd [] paths)) startPrice) paths.

Definition sorted (paths : list (list float)) : list value :=
  sort (finalPrices paths).

Definition trimLow (paths : list (list float)) : value :=
  get_value (sorted paths) (index_002 (length (sorted paths))).

Definition trimHigh (paths : list (list float)) : value :=
  get_value (sorted paths) (index_098 (length (sorted paths))).

Definition binWidth (paths : list (list float)) : float :=
  (toNumber (trimHigh paths) - toNumber (trimLow paths)) / of_nat binCount.

Definition binEdges (paths : list (list float)) : list float :=
  map (fun i => parseFloat_toFixed 2
                  (toNumber (trimLow paths) + of_nat i * binWidth paths))
      (seq 0 (binCount + 1)).

Definition fpgaCounts (paths : list (list float)) : list nat :=
  fold_left (histogram_step (trimLow paths) (trimHigh paths) (binWidth paths))
            (finalPrices paths) (repeat 0%nat binCount).

Definition var95 (paths : list (list float)) : value :=
  get_value (sorted paths) (index_005 (length (sorted paths))).

Definition cvarValues (paths : list (list float)) : list value :=
  filter (fun p => le p (var95 paths)) (sorted paths).

(** [cvarValues.reduce((s, v) => s + v, 0)] *)
Definition sum_values (l : list value) : float :=
  fold_left (fun s v => s + toNumber v) l 0.

Definition cvar95 (paths : list (list float)) : value :=
  if (0 <? length (cvarValues paths))%nat
  then Num (sum_values (cvarValues paths) / of_nat (length (cvarValues paths)))
  else var95 paths.

Definition probProfit (paths : list (list float)) (startPrice : value) : float :=
  of_nat (length (filter (fun p => gt p startPrice) (finalPrices paths)))
    / of_nat (length paths) * 100.

Definition avgDrawdown (paths : list (list float)) (startPrice : value) : float :=
  of_nat (list_sum (maxDrawdowns paths startPrice)) / of_nat (length paths).

(** [x.toFixed(2)] throws a TypeError on [undefined]. *)
Definition toFixed_value (d : nat) (v : value) : outcome float :=
  match v with
  | Num x => Ok (parseFloat_toFixed d x)
  | Undefined => Throw TypeError
  end.

(** ** [computeStatsFromPaths(paths, startPrice)]

    The call reads [Math.random] once per histogram bin, so it takes the
    cursor of the random source and returns the advanced one, also when it
    throws.  It throws when [paths] is empty ([paths[0].length] on
    [undefined], before any draw) and when [var95] is [undefined]
    ([var95.toFixed], after the draws). *)
Definition computeStatsFromPaths (random : random_source) (k : nat)
    (paths : list (list float)) (startPrice : value)
    : outcome StatsResult * nat :=
  match paths with
  | [] => (Throw TypeError, k)
  | _ :: _ =>
      let days := length (hd [] paths) in
      let '(cpu, k') := cpuCounts random k (fpgaCounts paths) in
      (do v <- toFixed_value 2 (var95 paths);
       do cv <- toFixed_value 2 (cvar95 paths);
       Ok {| risk_statistics :=
               {| value_at_risk_95 := v;
                  conditional_value_at_risk_95 := cv;
                  probability_of_profit :=
                    parseFloat_toFixed 1 (probProfit paths startPrice);
                  average_drawdown_days :=
                    Math_round (avgDrawdown paths startPrice) |};
             histogram_data :=
               {| bin_edges := binEdges paths;
                  fpga_counts := fpgaCounts paths;
                  cpu_counts := cpu |};
             drawdown_distribution :=
               {| dd_bin_edges := ddLabels days;
                  dd_counts := ddCounts days (maxDrawdowns paths startPrice) |} |},
       k')
  end.

End Stats.

(* ================================================================== *)
(** * The path generator: [gaussRandom], [generatePath] *)
(* ================================================================== *)

(** The generator is arithmetic only.  It is written over the operations
    it uses and read at the doubles the browser computes with ([Float64]),
    where [Math.exp], [Math.log] and [Math.cos] are the engine's own
    approximations and stay parameters. *)
Module Generator.

Record arithmetic : Type := {
  num : Type;
  add : num -> num -> num;
  sub : num -> num -> num;
  mul : num -> num -> num;
  div : num -> num -> num;
  Math_sqrt : num -> num;
  Math_exp : num -> num;
  Math_log : num -> num;
  Math_cos : num -> num;
  Math_PI : num;
  of_int : Z -> num;          (* an integer literal *)
  half : num;                 (* the literal 0.5 *)
  is_zero : num -> bool;      (* [x === 0] *)
  positive : num -> Prop      (* [0 < x] *)
}.

Section Generate.

Variable A : arithmetic.

Notation "x + y" := (add A x y).
Notation "x - y" := (sub A x y).
Notation "x * y" := (mul A x y).
Notation "x / y" := (div A x y).

(** [Math.random] at this arithmetic. *)
Variable random : nat -> num A.

(** [while (u === 0) u = Math.random();] entered with [u = 0]: draw until
    the value is not zero.  [fuel] bounds the number of draws. *)
Fixpoint draw_nonzero (fuel : nat) (k : nat) : option (num A * nat) :=
  match fuel with
  | O => None
  | S fuel' =>
      let u := random k in
      if is_zero A u then draw_nonzero fuel' (S k) else Some (u, S k)
  end.

(** [Math.sqrt(-2.0 * Math.log(u)) * Math.cos(2.0 * Math.PI * v)] *)
Definition box_muller (u v : num A) : num A :=
  Math_sqrt A (of_int A (-2) * Math_log A u)
  * Math_cos A (of_int A 2 * Math_PI A * v).

Definition gaussRandom (fuel : nat) (k : nat) : option (num A * nat) :=
  match draw_nonzero fuel k with
  | None => None
  | Some (u, k1) =>
      match draw_nonzero fuel k1 with
      | None => None
      | Some (v, k2) => Some (box_muller u v, k2)
      end
  end.

Section Path.

Variables (mu sigma : num A).

Definition dt : num A := of_int A 1 / of_int A 252.
Definition drift : num A := (mu - half A * sigma * sigma) * dt.
Definition vol : num A := sigma * Math_sqrt A dt.

(** [path[i] = path[i - 1] * Math.exp(drift + vol * gaussRandom())] *)
Definition next_price (prev z : num A) : num A :=
  prev * Math_exp A (drift + vol * z).

(** The loop [for (let i = 1; i < days; i++)], with [n] turns left and
    [prev = path[i - 1]]: the prices it writes, in order. *)
Fixpoint walk (fuel : nat) (n : nat) (prev : num A) (k : nat)
    : option (list (num A) * nat) :=
  match n with
  | O => Some ([], k)
  | S n' =>
      match gaussRandom fuel k with
      | None => None
      | Some (z, k1) =>
          let x := next_price prev z in
          match walk fuel n' x k1 with
          | None => None
          | Some (rest, k2) => Some (x :: rest, k2)
          end
      end
  end.

(** [generatePath(S0, days, mu, sigma)].  A [Float64Array] of length 0 has
    no element 0: the store [path[0] = S0] is then dropped. *)
Definition generatePath (fuel : nat) (S0 : num A) (days : nat) (k : nat)
    : option (list (num A) * nat) :=
  match days with
  | O => Some ([], k)
  | S n =>
      match walk fuel n S0 k with
      | None => None
      | Some (rest, k') => Some (S0 :: rest, k')
      end
  end.

(** [numPaths] calls of [generatePath], collected in order. *)
Fixpoint generatePaths (fuel : nat) (numPaths : nat) (S0 : num A) (days : nat)
    (k : nat) : option (list (list (num A)) * nat) :=
  match numPaths with
  | O => Some ([], k)
  | S n =>
      match generatePath fuel S0 days k with
      | None => None
      | Some (p, k1) =>
          match generatePaths fuel n S0 days k1 with
          | None => None
          | Some (ps, k2) => Some (p :: ps, k2)
          end
      end
  end.

End Path.

(** A random source on which every rejection loop ends: from any cursor, a
    draw that is not zero comes up. *)
Definition fair : Prop :=
  forall k, exists j, is_zero A (random (k + j)) = false.

End Generate.

(** ** The arithmetic of the browser: IEEE-754 doubles *)

Definition Float64 (exp log cos : float -> float) : arithmetic :=
  {| num := float;
     add := PrimFloat.add;
     sub := PrimFloat.sub;
     mul := PrimFloat.mul;
     div := PrimFloat.div;
     Math_sqrt := PrimFloat.sqrt;
     Math_exp := exp;
     Math_log := log;
     Math_cos := cos;
     Math_PI := 0x1.921fb54442d18p+1%float;
     of_int := JS.of_Z;
     half := 0.5%float;
     is_zero := fun x => PrimFloat.eqb x 0%float;
     positive := fun x => PrimFloat.ltb 0%float x = true |}.

(** What ECMAScript fixes about [Math.exp] whatever the approximation:
    NaN gives NaN and minus infinity gives [+0]. *)
Definition ecma_exp (exp : float -> float) : Prop :=
  exp nan = nan /\ exp neg_infinity = 0%float.

End Generator.

(* ================================================================== *)
(** * Normalisers and the acquisition strategy *)
(* ================================================================== *)

Module Acquire.

Import JS.
Open Scope string_scope.

Definition LIVE_SAMPLE_SIZE : nat := 500.
Definition VIZ_SAMPLE_COUNT : nat := 35.

Record PerformanceMetrics : Type := {
  fpga_time_ms : float;
  cpu_time_ms : float;
  speed_improvement_x : float
}.

(** The object under [simulation_results].  [stats] holds the three fields
    the source spreads in with [...stats]. *)
Record CanonicalResult : Type := {
  ticker : string;
  name : option string;
  start_price : value;
  n_steps : nat;
  performance : PerformanceMetrics;
  stats : Stats.StatsResult;
  price_paths : list (list float)
}.

(** ** What the network answers *)

(** The body of a response as [res.json()] sees it. *)
Inductive body (A : Type) : Type :=
  | NotJson             (* [res.json()] rejects *)
  | Null                (* the JSON text [null] *)
  | Json (a : A).

Arguments NotJson {A}.
Arguments Null {A}.
Arguments Json {A} a.

Inductive response (A : Type) : Type :=
  | Rejected                              (* [fetch] rejects *)
  | Response (status : nat) (b : body A).

Arguments Rejected {A}.
Arguments Response {A} status b.

(** [res.ok] *)
Definition ok (status : nat) : bool :=
  (200 <=? status)%nat && (status <=? 299)%nat.

(** The object [d] of the rich endpoint. *)
Record RichPayload : Type := {
  d_ticker : string;
  d_start_price : value;
  d_n_steps : nat;
  d_fpga_time_ms : float;
  d_cpu_time_ms : float;
  d_speed_improvement_x : float;
  d_value_at_risk_95 : float;
  d_conditional_value_at_risk_95 : float;
  d_probability_of_profit : float;
  d_average_drawdown_days : float;
  d_histogram_bin_edges : list float;
  d_histogram_fpga_counts : list nat;
  d_histogram_cpu_counts : list float;
  d_drawdown_bin_edges : list string;
  d_drawdown_counts : list nat;
  d_sample_paths : list (list float)
}.

(** The object of the raw-paths endpoint: [json.paths], [None] when the
    property is missing or [null]. *)
Record RawPayload : Type := {
  paths : option (list (list float))
}.

(** Everything outside the program that one acquisition reads. *)
Record world : Type := {
  rich : response RichPayload;       (* GET /simulation-results *)
  raw : response RawPayload;         (* GET /montecarlo-sample *)
  apiTime : float;                   (* [performance.now() - t0] *)
  random : random_source             (* [Math.random] *)
}.

(** ** [fetchFull] *)

Definition fetchFull (w : world) (tk : string) : outcome CanonicalResult :=
  match rich w with
  | Rejected => Throw FetchFailed
  | Response status b =>
      if negb (ok status) then Throw (HttpStatus status)
      else match b with
           | NotJson => Throw SyntaxError
           | Null => Throw TypeError
           | Json d =>
               Ok {| ticker := d_ticker d;
                     name := Some (d_ticker d);
                     start_price := d_start_price d;
                     n_steps := d_n_steps d;
                     performance :=
                       {| fpga_time_ms := d_fpga_time_ms d;
                          cpu_time_ms := d_cpu_time_ms d;
                          speed_improvement_x := d_speed_improvement_x d |};
                     stats :=
                       {| Stats.risk_statistics :=
                            {| Stats.value_at_risk_95 := d_value_at_risk_95 d;
                               Stats.conditional_value_at_risk_95 :=
                                 d_conditional_value_at_risk_95 d;
                               Stats.probability_of_profit :=
                                 d_probability_of_profit d;
                               Stats.average_drawdown_days :=
                                 d_average_drawdown_days d |};
                          Stats.histogram_data :=
                            {| Stats.bin_edges := d_histogram_bin_edges d;
                               Stats.fpga_counts := d_histogram_fpga_counts d;
                               Stats.cpu_counts := d_histogram_cpu_counts d |};
                          Stats.drawdown_distribution :=
                            {| Stats.dd_bin_edges := d_drawdown_bin_edges d;
                               Stats.dd_counts := d_drawdown_counts d |} |};
                     price_paths := d_sample_paths d |}
           end
  end.

(** ** [fetchRawPaths] *)

(** [fpgaTime = Math.max(1, Math.round(apiTime))] and
    [cpuTime = Math.round(fpgaTime * 15)], as the integers they are. *)
Definition fpgaTime (w : world) : Z := Z.max 1 (Math_round_Z (apiTime w)).
Definition cpuTime (w : world) : Z := fpgaTime w * 15.

Definition raw_performance (w : world) : PerformanceMetrics :=
  {| fpga_time_ms := of_Z (fpgaTime w);
     cpu_time_ms := of_Z (cpuTime w);
     speed_improvement_x :=
       parseFloat_toFixed 1 (of_Z (cpuTime w) / of_Z (fpgaTime w))%float |}.

(** The result with the cursor of the random source after the call (the
    statistics engine draws from it). *)
Definition fetchRawPaths (w : world) (k : nat) (tk : string)
    : outcome CanonicalResult * nat :=
  match raw w with
  | Rejected => (Throw FetchFailed, k)
  | Response status b =>
      if negb (ok status) then (Throw (HttpStatus status), k)
      else match b with
           | NotJson => (Throw SyntaxError, k)
           | Null => (Throw TypeError, k)
           | Json json =>
               match paths json with
               | None => (Throw EmptyPaths, k)             (* [!allPaths] *)
               | Some [] => (Throw EmptyPaths, k)          (* [!allPaths.length] *)
               | Some ([] :: _) => (Throw EmptyPaths, k)   (* [!allPaths[0].length] *)
               | Some (((s0 :: _) :: _) as allPaths) =>
                   let startPrice := Num s0 in
                   let vizPaths := firstn VIZ_SAMPLE_COUNT allPaths in
                   match Stats.computeStatsFromPaths (random w) k allPaths startPrice with
                   | (Throw e, k') => (Throw e, k')
                   | (Ok st, k') =>
                       (Ok {| ticker := tk;
                              name := Some tk;
                              start_price := startPrice;
                              n_steps := length (hd [] allPaths);
                              performance := raw_performance w;
                              stats := st;
                              price_paths := vizPaths |}, k')
                   end
               end
           end
  end.

(** ** [CONFIGS] and [generateMockData] *)

Record Config : Type := {
  price : float;
  mu : float;
  sigma : float;
  config_name : string
}.

Definition SPY : Config :=
  {| price := 190.17; mu := 0.082; sigma := 0.176; config_name := "S&P 500 ETF" |}.
Definition AAPL : Config :=
  {| price := 178.50; mu := 0.105; sigma := 0.248; config_name := "Apple Inc." |}.
Definition TSLA : Config :=
  {| price := 245.30; mu := 0.125; sigma := 0.552; config_name := "Tesla Inc." |}.
Definition NVDA : Config :=
  {| price := 875.40; mu := 0.148; sigma := 0.395; config_name := "NVIDIA Corp." |}.

(** The own properties of the object literal [CONFIGS]. *)
Definition CONFIGS : list (string * Config) :=
  [ ("SPY", SPY); ("AAPL", AAPL); ("TSLA", TSLA); ("NVDA", NVDA) ].

(** [CONFIGS] is an object literal, so its prototype is [Object.prototype]
    and a property read that finds no own property goes on there.  These are
    the names [Object.prototype] defines, each with the [name] of the function
    found ([__proto__] yields the prototype object, which has no [name]). *)
Definition Object_prototype : list (string * option string) :=
  [ ("constructor", Some "Object");
    ("hasOwnProperty", Some "hasOwnProperty");
    ("isPrototypeOf", Some "isPrototypeOf");
    ("propertyIsEnumerable", Some "propertyIsEnumerable");
    ("toLocaleString", Some "toLocaleString");
    ("toString", Some "toString");
    ("valueOf", Some "valueOf");
    ("__defineGetter__", Some "__defineGetter__");
    ("__defineSetter__", Some "__defineSetter__");
    ("__lookupGetter__", Some "__lookupGetter__");
    ("__lookupSetter__", Some "__lookupSetter__");
    ("__proto__", None) ].

Fixpoint assoc {A : Type} (l : list (string * A)) (key : string) : option A :=
  match l with
  | [] => None
  | (k, a) :: t => if String.eqb k key then Some a else assoc t key
  end.

(** What [CONFIGS[ticker]] evaluates to. *)
Inductive property : Type :=
  | OwnConfig (c : Config)
  | Inherited (fname : option string)
  | NoProperty.                           (* [undefined] *)

Definition lookup (tk : string) : property :=
  match assoc CONFIGS tk with
  | Some c => OwnConfig c
  | None =>
      match assoc Object_prototype tk with
      | Some f => Inherited f
      | None => NoProperty
      end
  end.

(** [CONFIGS[ticker] || CONFIGS.SPY]: every object is truthy, [undefined]
    is not. *)
Definition resolve (tk : string) : property :=
  match lookup tk with
  | NoProperty => OwnConfig SPY
  | found => found
  end.

(** [config.price], [config.mu], [config.sigma], [config.name] *)
Definition get_price (c : property) : value :=
  match c with OwnConfig c => Num (price c) | _ => Undefined end.
Definition get_mu (c : property) : value :=
  match c with OwnConfig c => Num (mu c) | _ => Undefined end.
Definition get_sigma (c : property) : value :=
  match c with OwnConfig c => Num (sigma c) | _ => Undefined end.
Definition get_name (c : property) : option string :=
  match c with
  | OwnConfig c => Some (config_name c)
  | Inherited f => f
  | NoProperty => None
  end.

Section Mock.

(** [Math.exp], [Math.log], [Math.cos] of the engine. *)
Variables (exp log cos : float -> float).

Definition mock_days : nat := 252.
Definition mock_numPaths : nat := 10000.

(** [140 + Math.round(Math.random() * 25)], [2150 + Math.round(Math.random() * 250)] *)
Definition mock_performance (r1 r2 : float) : PerformanceMetrics :=
  let fpgaTime := (140 + Math_round (r1 * 25))%float in
  let cpuTime := (2150 + Math_round (r2 * 250))%float in
  {| fpga_time_ms := fpgaTime;
     cpu_time_ms := cpuTime;
     speed_improvement_x := parseFloat_toFixed 1 (cpuTime / fpgaTime)%float |}.

(** [None] when [fuel] draws did not end a rejection loop of [gaussRandom]. *)
Definition generateMockData (w : world) (fuel : nat) (k : nat) (tk : string)
    : option (outcome CanonicalResult * nat) :=
  let config := resolve tk in
  let S0 := get_price config in
  match Generator.generatePaths (Generator.Float64 exp log cos) (random w)
          (toNumber (get_mu config)) (toNumber (get_sigma config))
          fuel mock_numPaths (toNumber S0) mock_days k with
  | None => None
  | Some (allPaths, k1) =>
      let vizPaths := firstn VIZ_SAMPLE_COUNT allPaths in
      match Stats.computeStatsFromPaths (random w) k1 allPaths S0 with
      | (Throw e, k2) => Some (Throw e, k2)
      | (Ok st, k2) =>
          Some (Ok {| ticker := tk;
                      name := get_name config;
                      start_price := S0;
                      n_steps := mock_days;
                      performance :=
                        mock_performance (random w k2) (random w (S k2));
                      stats := st;
                      price_paths := vizPaths |}, S (S k2))
      end
  end.

(** ** [fetchSimulationResults]

    [Some (Ok r, _)]: the promise resolves with [r]; [Some (Throw e, _)]: it
    rejects; [None]: [fuel] was too small.  Each [catch] only logs
    [e.message].  Before the mock data, [setTimeout] is armed with
    [600 + Math.random() * 400], one more draw. *)
Definition fetchSimulationResults (w : world) (fuel : nat) (k : nat)
    (tk : string) : option (outcome CanonicalResult * nat) :=
  match fetchFull w tk with
  | Ok result => Some (Ok result, k)
  | Throw e1 =>
      match fetchRawPaths w k tk with
      | (Ok result, k1) => Some (Ok result, k1)
      | (Throw e2, k1) => generateMockData w fuel (S k1) tk
      end
  end.

End Mock.

(** [getTickerConfig] *)
Definition getTickerConfig (tk : string) : property := resolve tk.

End Acquire.

(* ================================================================== *)
(** * Shared utilities: [utils.js] *)
(* ================================================================== *)

Module Utils.

Import JS.
Open Scope float_scope.

(** [clamp(min, val, max)]: [Math.min(max, Math.max(min, val))] *)
Definition clamp (min val max : float) : float :=
  Math_min max (Math_max min val).

(** [dur(ms)], with the constant [prefersReducedMotion] as an argument. *)
Definition dur (prefersReducedMotion : bool) (ms : float) : float :=
  if prefersReducedMotion then 0 else ms.

(** ** [animateValue]

    The counter as the list of the numbers it hands to [formatter], one per
    animation frame.  [startTime] is [performance.now()] at the call and
    [nows] are the time stamps the browser passes to [step], frame after
    frame; [pow] is [Math.pow]. *)
Section Animate.

Variable pow : float -> float -> float.

(** One call of [step(now)]: the number shown and whether [step] asks for
    another frame. *)
Definition step (startTime from to duration now : float) : float * bool :=
  let elapsed := now - startTime in
  let progress := clamp 0 (elapsed / duration) 1 in
  let eased := if progress =? 1 then 1 else 1 - pow 2 (-10 * progress) in
  let current := from + (to - from) * eased in
  (current, progress <? 1).

Fixpoint frames (startTime from to duration : float) (nows : list float)
    : list float :=
  match nows with
  | [] => []
  | now :: rest =>
      let (current, again) := step startTime from to duration now in
      current :: (if again then frames startTime from to duration rest else [])
  end.

Definition animateValue (prefersReducedMotion : bool)
    (startTime from to duration : float) (nows : list float) : list float :=
  if prefersReducedMotion then [to]
  else frames startTime from to duration nows.

End Animate.

End Utils.

(* ================================================================== *)
(** * The charts: what they compute from the data *)
(* ================================================================== *)

Module Charts.

Import JS.
Open Scope float_scope.

(** ** The drawdown chart, [createDrawdownChart] *)

(** [counts.indexOf(d)]: the first index that holds [d]; [None] for -1. *)
Fixpoint indexOf (counts : list nat) (d : nat) : option nat :=
  match counts with
  | [] => None
  | c :: t => if (c =? d)%nat then Some 0%nat else option_map S (indexOf t d)
  end.

(** The label in the tooltip of a bar, [bin_edges[counts.indexOf(d)]] for
    the datum [d] of the bar; [None] for [undefined]. *)
Definition tooltip_label (bin_edges : list string) (counts : list nat) (d : nat)
    : option string :=
  match indexOf counts d with
  | Some i => nth_error bin_edges i
  | None => None
  end.

(** ** The histogram chart, [createHistogramChart] *)

(** The test of [findIndex] at bin [i]:
    [bin_edges[i] <= startPrice && startPrice < bin_edges[i + 1]]. *)
Definition holds_start (bin_edges : list float) (startPrice : value) (i : nat)
    : bool :=
  le (get bin_edges i) startPrice && lt startPrice (get bin_edges (i + 1)).

(** [binMids.findIndex(...)], one turn per bin; [None] for -1. *)
Definition startBinIdx (bin_edges : list float) (fpga_counts : list nat)
    (startPrice : value) : option nat :=
  find (holds_start bin_edges startPrice) (seq 0 (length fpga_counts)).

End Charts.

(* ================================================================== *)
(** * The dashboard: state machine of [app.js] *)
(* ================================================================== *)

Module App.

Import JS Acquire.
Open Scope string_scope.

(** [State] *)
Inductive State : Type := IDLE | PROCESSING | RESULTS.

Definition same (a b : State) : bool :=
  match a, b with
  | IDLE, IDLE | PROCESSING, PROCESSING | RESULTS, RESULTS => true
  | _, _ => false
  end.

(** What the state machine reads and writes: the module variables
    [currentState], [currentData] and [warpRunning], the [hidden] flag of
    the three panels, the text of [#result-ticker], the two numbers in the
    text of the subtitle, and the message of the toast last shown.
    [warpCanvas] and [pathsSubtitle] tell whether the page has the canvas of
    the warp animation and the subtitle, the two elements the code tests
    for; the other elements of [els] are there.  The charts, which
    [destroyAllCharts] removes and [renderDashboard] draws in a later
    animation frame, are not part of the page. *)
Record page : Type := {
  currentState : State;
  currentData : option CanonicalResult;
  idle_hidden : bool;
  processing_hidden : bool;
  results_hidden : bool;
  warpCanvas : bool;
  warpRunning : bool;
  resultTicker : string;
  pathsSubtitle : bool;
  subtitleText : option (nat * nat);
  toast : option string
}.

Definition set_state (p : page) (s : State) : page :=
  {| currentState := s; currentData := currentData p;
     idle_hidden := idle_hidden p; processing_hidden := processing_hidden p;
     results_hidden := results_hidden p; warpCanvas := warpCanvas p;
     warpRunning := warpRunning p; resultTicker := resultTicker p;
     pathsSubtitle := pathsSubtitle p; subtitleText := subtitleText p;
     toast := toast p |}.

Definition set_data (p : page) (d : option CanonicalResult) : page :=
  {| currentState := currentState p; currentData := d;
     idle_hidden := idle_hidden p; processing_hidden := processing_hidden p;
     results_hidden := results_hidden p; warpCanvas := warpCanvas p;
     warpRunning := warpRunning p; resultTicker := resultTicker p;
     pathsSubtitle := pathsSubtitle p; subtitleText := subtitleText p;
     toast := toast p |}.

Definition set_idle_hidden (p : page) (b : bool) : page :=
  {| currentState := currentState p; currentData := currentData p;
     idle_hidden := b; processing_hidden := processing_hidden p;
     results_hidden := results_hidden p; warpCanvas := warpCanvas p;
     warpRunning := warpRunning p; resultTicker := resultTicker p;
     pathsSubtitle := pathsSubtitle p; subtitleText := subtitleText p;
     toast := toast p |}.

Definition set_processing_hidden (p : page) (b : bool) : page :=
  {| currentState := currentState p; currentData := currentData p;
     idle_hidden := idle_hidden p; processing_hidden := b;
     results_hidden := results_hidden p; warpCanvas := warpCanvas p;
     warpRunning := warpRunning p; resultTicker := resultTicker p;
     pathsSubtitle := pathsSubtitle p; subtitleText := subtitleText p;
     toast := toast p |}.

Definition set_results_hidden (p : page) (b : bool) : page :=
  {| currentState := currentState p; currentData := currentData p;
     idle_hidden := idle_hidden p; processing_hidden := processing_hidden p;
     results_hidden := b; warpCanvas := warpCanvas p;
     warpRunning := warpRunning p; resultTicker := resultTicker p;
     pathsSubtitle := pathsSubtitle p; subtitleText := subtitleText p;
     toast := toast p |}.

Definition set_warpRunning (p : page) (b : bool) : page :=
  {| currentState := currentState p; currentData := currentData p;
     idle_hidden := idle_hidden p; processing_hidden := processing_hidden p;
     results_hidden := results_hidden p; warpCanvas := warpCanvas p;
     warpRunning := b; resultTicker := resultTicker p;
     pathsSubtitle := pathsSubtitle p; subtitleText := subtitleText p;
     toast := toast p |}.

Definition set_resultTicker (p : page) (t : string) : page :=
  {| currentState := currentState p; currentData := currentData p;
     idle_hidden := idle_hidden p; processing_hidden := processing_hidden p;
     results_hidden := results_hidden p; warpCanvas := warpCanvas p;
     warpRunning := warpRunning p; resultTicker := t;
     pathsSubtitle := pathsSubtitle p; subtitleText := subtitleText p;
     toast := toast p |}.

Definition set_subtitleText (p : page) (t : option (nat * nat)) : page :=
  {| currentState := currentState p; currentData := currentData p;
     idle_hidden := idle_hidden p; processing_hidden := processing_hidden p;
     results_hidden := results_hidden p; warpCanvas := warpCanvas p;
     warpRunning := warpRunning p; resultTicker := resultTicker p;
     pathsSubtitle := pathsSubtitle p; subtitleText := t; toast := toast p |}.

(** [showToast(message)] *)
Definition showToast (p : page) (message : string) : page :=
  {| currentState := currentState p; currentData := currentData p;
     idle_hidden := idle_hidden p; processing_hidden := processing_hidden p;
     results_hidden := results_hidden p; warpCanvas := warpCanvas p;
     warpRunning := warpRunning p; resultTicker := resultTicker p;
     pathsSubtitle := pathsSubtitle p; subtitleText := subtitleText p;
     toast := Some message |}.

(** [startWarp()] returns at once on a page without the canvas; [stopWarp()]. *)
Definition startWarp (p : page) : page :=
  if warpCanvas p then set_warpRunning p true else p.

Definition stopWarp (p : page) : page := set_warpRunning p false.

(** The two numbers of the subtitle: [data.price_paths.length] and
    [data.price_paths[0] ? data.price_paths[0].length : 0]. *)
Definition subtitle (data : CanonicalResult) : nat * nat :=
  (length (price_paths data),
   match price_paths data with
   | p :: _ => length p
   | [] => 0%nat
   end).

(** [renderDashboard(data)], as far as it can throw: the ticker is written
    first; [fmtCurrency(data.start_price)] then calls [toFixed] on the start
    price, a TypeError when it is [undefined] (and reading [data.ticker] of
    [null] is one too); [fmtMs], which throws on no number, and the
    subtitle follow.  The formatted texts themselves and the metrics are
    not modelled. *)
Definition renderDashboard (p : page) (data : option CanonicalResult)
    : page * outcome unit :=
  match data with
  | None => (p, Throw TypeError)
  | Some d =>
      let p := set_resultTicker p (ticker d) in
      match start_price d with
      | Undefined => (p, Throw TypeError)
      | Num _ =>
          (if pathsSubtitle p then set_subtitleText p (Some (subtitle d)) else p,
           Ok tt)
      end
  end.

(** [transitionTo(newState)]: leave the current state, switch, enter the
    new one.  Only entering RESULTS can throw. *)
Definition transitionTo (p : page) (newState : State) : page * outcome unit :=
  let p := if same (currentState p) IDLE then set_idle_hidden p true else p in
  let p := if same (currentState p) PROCESSING
           then stopWarp (set_processing_hidden p true) else p in
  let p := if same (currentState p) RESULTS then set_results_hidden p true else p in
  let p := set_state p newState in
  let p := if same newState IDLE then set_idle_hidden p false else p in
  let p := if same newState PROCESSING
           then startWarp (set_processing_hidden p false) else p in
  if same newState RESULTS
  then renderDashboard (set_results_hidden p false) (currentData p)
  else (p, Ok tt).

(** [runSimulation()] up to its [await]: the page shows the processing
    panel while the request is under way. *)
Definition submit (p : page) : page := fst (transitionTo p PROCESSING).

(** The message of the toast. *)
Definition failure : string := "Simulation failed. Check console for details.".

(** [runSimulation()] from its [await] on, with the outcome of
    [fetchSimulationResults]: the data is stored and the results are shown;
    anything thrown, by the request or by the rendering, is caught, the page
    goes back to IDLE and a toast is shown. *)
Definition settle (p : page) (result : outcome CanonicalResult) : page :=
  match result with
  | Ok r =>
      match transitionTo (set_data p (Some r)) RESULTS with
      | (p', Ok _) => p'
      | (p', Throw _) => showToast (fst (transitionTo p' IDLE)) failure
      end
  | Throw _ => showToast (fst (transitionTo p IDLE)) failure
  end.

(** [runSimulation()] when nothing else happens on the page before the
    request settles; [tk] is the value of the ticker field.  [None] when
    [fuel] was too small for the request.  The warp animation calls
    [Math.random] as well while the request is under way: [random w] is the
    sequence of the numbers the request gets. *)
Definition runSimulation (exp log cos : float -> float) (w : world)
    (fuel k : nat) (tk : string) (p : page) : option page :=
  match fetchSimulationResults exp log cos w fuel k tk with
  | Some (result, _) => Some (settle (submit p) result)
  | None => None
  end.

(** What happens on the page: the form is submitted, a request settles,
    the re-run button is clicked. *)
Inductive event : Type :=
  | Submit
  | Settle (result : outcome CanonicalResult)
  | Rerun.

Definition handle (p : page) (ev : event) : page :=
  match ev with
  | Submit => submit p
  | Settle result => settle p result
  | Rerun => fst (transitionTo p IDLE)
  end.

(** The last statement of the module: [transitionTo(State.IDLE)]. *)
Definition boot (p : page) : page := fst (transitionTo p IDLE).

End App.

(* ================================================================== *)
(** * Concrete ensembles *)
(* ================================================================== *)

Module Scenario.

Import JS Stats Acquire.
Open Scope float_scope.

(** The three paths of length 5 of the specification's scenario. *)
Definition three_paths : list (list float) :=
  [ [100; 90; 90; 90; 95]; [100; 105; 110; 108; 112]; [100; 99; 100; 100; 101] ].

(** One path: what the raw-paths endpoint returns "with one valid path". *)
Definition single_path : list (list float) := [ [100; 100] ].

(** [n] paths that all end where they start. *)
Definition flat_paths (n : nat) : list (list float) := repeat [100; 100] n.

(** Twenty paths from 1: one ends at 1, nineteen end at 2. *)
Definition tied_paths : list (list float) := [1; 1] :: repeat [1; 2] 19.

(** Fifty paths from 100: forty-nine end at 100, one at 124. *)
Definition fifty_paths : list (list float) :=
  repeat [100; 100] 49 ++ [ [100; 124] ].

(** A random source that returns 0 for the first 24 draws and 0.9 after. *)
Definition two_phase : random_source :=
  fun n => if (n <? 24)%nat then 0 else 0.9.

(** The statistics of a call that returned. *)
Definition returned (r : outcome StatsResult * nat) : option StatsResult :=
  match fst r with Ok st => Some st | Throw _ => None end.

(** CVaR95 as the specification words it: the mean of the sorted final
    prices at indices [0 .. floor(0.05 * N)]. *)
Definition cvar95_by_index (paths : list (list float)) : float :=
  let tail := firstn (S (index_005 (length (sorted paths)))) (sorted paths) in
  sum_values tail / of_nat (length tail).

(** A backend that is down: both requests are rejected. *)
Definition unreachable : world :=
  {| rich := Rejected; raw := Rejected; apiTime := 0%float;
     random := fun _ => 0.5%float |}.

(** The rich endpoint answers 404 and the raw-paths endpoint one valid
    path, 12.4 ms after the request. *)
Definition rich_404_raw_200 : world :=
  {| rich := Response 404 Null;
     raw := Response 200 (Json {| paths := Some single_path |});
     apiTime := 12.4%float;
     random := fun _ => 0.5%float |}.

(** A function that is [Math.exp] where the scenario below evaluates it, at
    NaN and at minus infinity. *)
Definition exp_at_limits (x : float) : float :=
  if is_nan x then nan
  else if PrimFloat.eqb x neg_infinity then 0%float
  else 1%float.

End Scenario.

(* ================================================================== *)
(** * Facts about doubles *)
(* ================================================================== *)

Module JSFacts.

Import JS Stats.
Open Scope float_scope.

(** A double that compares equal to itself is below-or-equal to itself. *)
Lemma SFleb_refl_of_eqb (s : spec_float) :
  SFeqb s s = true -> SFleb s s = true.
Proof.
  unfold SFeqb, SFleb. destruct (SFcompare s s) as [[ | | ]|]; congruence.
Qed.

Lemma leb_refl (x : float) : is_nan x = false -> (x <=? x) = true.
Proof.
  unfold is_nan. intros H. apply negb_false_iff in H.
  rewrite leb_spec. rewrite eqb_spec in H. now apply SFleb_refl_of_eqb.
Qed.

(** A double above zero is not NaN. *)
Lemma positive_not_nan (x : float) : (0 <? x) = true -> is_nan x = false.
Proof.
  unfold is_nan. rewrite ltb_spec, eqb_spec. intros H.
  apply negb_false_iff.
  change (Prim2SF 0) with (S754_zero false) in H.
  destruct (Prim2SF x) as [s| s| |s m e]; cbn in *; try discriminate.
  - destruct s; reflexivity.
  - unfold SFeqb. cbn.
    destruct s; [discriminate|].
    rewrite Z.compare_refl, Pos.compare_cont_refl. reflexivity.
Qed.

Lemma le_refl_positive (x : float) : (0 <? x) = true -> le (Num x) (Num x) = true.
Proof. intros H. apply leb_refl, positive_not_nan, H. Qed.

(** ** The bin index is an index

    [Math.min(Math.floor(q), binCount - 1)] names an element of the 24 bins
    whenever it is an array index at all, so [fpgaCounts[idx]++] never
    writes past the end. *)

Lemma digits2_pos_bound (m : positive) : (Z.pos m < 2 ^ Z.pos (digits2_pos m))%Z.
Proof.
  induction m as [m IH|m IH|]; cbn [digits2_pos].
  - rewrite Pos2Z.inj_succ, Z.pow_succ_r by lia. lia.
  - rewrite Pos2Z.inj_succ, Z.pow_succ_r by lia. lia.
  - reflexivity.
Qed.

Lemma mantissa_bound (x : float) (s : bool) (m : positive) (e : Z) :
  Prim2SF x = S754_finite s m e -> (Z.pos m < 2 ^ 53)%Z.
Proof.
  intros H. pose proof (Prim2SF_valid x) as V. rewrite H in V.
  cbn in V. apply andb_true_iff in V. destruct V as [V _].
  unfold canonical_mantissa, fexp in V. apply Z.eqb_eq in V.
  pose proof (digits2_pos_bound m) as B.
  assert (Hd : (Z.pos (digits2_pos m) <= 53)%Z) by (unfold prec in V; lia).
  eapply Z.lt_le_trans; [exact B|]. apply Z.pow_le_mono_r; lia.
Qed.

(** A positive double below 23, as mantissa and exponent. *)
Lemma finite_below_23 (m : positive) (e : Z) :
  SFltb (S754_finite false m e) (S754_finite false 6473924464345088 (-48)) = true ->
  (e < -48)%Z \/ ((e = -48)%Z /\ (Z.pos m < 6473924464345088)%Z).
Proof.
  unfold SFltb, SFcompare.
  destruct (Z.compare_spec e (-48)) as [->|Hlt|Hgt]; try discriminate; [|now left].
  rewrite Pos.compare_cont_spec. cbn [Pos.switch_Eq].
  destruct (Pos.compare_spec m 6473924464345088) as [?|C|?]; try discriminate.
  right. split; [reflexivity|]. now apply Pos2Z.pos_lt_pos.
Qed.

Lemma quotient_below_23 (m : positive) (e : Z) :
  (Z.pos m < 2 ^ 53)%Z ->
  (e < -48)%Z \/ ((e = -48)%Z /\ (Z.pos m < 6473924464345088)%Z) ->
  (Z.pos m / 2 ^ (- e) <= 23)%Z.
Proof.
  intros B [He|[-> Hm]]; apply Z.lt_succ_r; apply Z.div_lt_upper_bound.
  - apply Z.pow_pos_nonneg; lia.
  - assert (Hp : (2 ^ 49 <= 2 ^ (- e))%Z) by (apply Z.pow_le_mono_r; lia).
    change (2 ^ 53)%Z with 9007199254740992%Z in B.
    change (2 ^ 49)%Z with 562949953421312%Z in Hp.
    generalize dependent (2 ^ (- e))%Z. intros p Hp. lia.
  - reflexivity.
  - change (2 ^ - -48 * Z.succ 23)%Z with (Z.pos 6755399441055744).
    eapply Z.lt_trans; [exact Hm|reflexivity].
Qed.

Lemma ltb_23_l (y : float) :
  (y <? 23) = SFltb (Prim2SF y) (S754_finite false 6473924464345088 (-48)).
Proof. rewrite ltb_spec. f_equal. Qed.

Lemma ltb_23_r (y : float) :
  (23 <? y) = SFltb (S754_finite false 6473924464345088 (-48)) (Prim2SF y).
Proof. rewrite ltb_spec. f_equal. Qed.

Lemma array_index_below_23 (y : float) (i : nat) :
  (y <? 23) = true -> array_index y = Some i -> (i <= 23)%nat.
Proof.
  rewrite ltb_23_l. unfold array_index.
  destruct (Prim2SF y) as [s|s| |s m e] eqn:E; try discriminate.
  - intros _ H. injection H as <-. lia.
  - destruct s; [discriminate|]. intros Hlt.
    pose proof (finite_below_23 m e Hlt) as Hme.
    assert (He : (0 <=? e)%Z = false)
      by (apply Z.leb_gt; clear - Hme; destruct Hme as [H|[H _]]; lia).
    rewrite He.
    destruct (_ =? 0)%Z; [|discriminate]. intros H. injection H as <-.
    pose proof (quotient_below_23 m e (mantissa_bound y _ _ _ E) Hme) as Hq.
    clear - Hq. generalize dependent (Z.pos m / 2 ^ (- e))%Z. intros q Hq. lia.
Qed.

Lemma array_index_Math_min (y : float) (i : nat) :
  array_index (Math_min y (of_nat (binCount - 1))) = Some i -> (i < binCount)%nat.
Proof.
  replace (of_nat (binCount - 1)) with 23 by (vm_compute; reflexivity).
  unfold Math_min, binCount.
  destruct (is_nan y || is_nan 23); [discriminate|].
  destruct (y <? 23) eqn:Hlt.
  - intros H. pose proof (array_index_below_23 y i Hlt H). lia.
  - destruct (23 <? y) eqn:Hgt.
    + intros H. vm_compute in H. injection H as <-. lia.
    + destruct (get_sign y); [|intros H; vm_compute in H; injection H as <-; lia].
      rewrite ltb_23_l in Hlt. rewrite ltb_23_r in Hgt. unfold array_index.
      destruct (Prim2SF y) as [s|s| |s m e] eqn:E; try discriminate.
      destruct s; [discriminate|].
      unfold SFltb, SFcompare in Hlt, Hgt.
      rewrite (Z.compare_antisym e (-48)) in Hgt.
      destruct (Z.compare_spec e (-48)) as [->|He|He]; try discriminate.
      rewrite !Pos.compare_cont_spec in *. cbn [Pos.switch_Eq CompOpp] in *.
      rewrite (Pos.compare_antisym m) in Hgt.
      destruct (Pos.compare_spec m 6473924464345088) as [->|C|C]; try discriminate.
      intros H. vm_compute in H. injection H as <-. lia.
Qed.

(** ** A trimmed range of zero width

    When the two ends of the trimmed range are the same double, the bin
    width is [+0] or NaN and the bin index of every price the loop keeps is
    a quotient by it: a NaN. *)

Lemma is_nan_of_spec (r : float) : Prim2SF r = S754_nan -> r = nan.
Proof. intros H. apply Prim2SF_inj. rewrite H. reflexivity. Qed.

Lemma SFcompare_Eq_finite (s1 s2 : bool) (m1 m2 : positive) (e1 e2 : Z) :
  SFcompare (S754_finite s1 m1 e1) (S754_finite s2 m2 e2) = Some Eq ->
  s1 = s2 /\ m1 = m2 /\ e1 = e2.
Proof.
  unfold SFcompare. destruct s1, s2; try discriminate;
    destruct (Z.compare_spec e1 e2) as [->|?|?]; try discriminate;
    rewrite Pos.compare_cont_spec; cbn [Pos.switch_Eq];
    destruct (Pos.compare_spec m1 m2) as [->|?|?]; try discriminate; auto.
Qed.

Lemma SFsub_diag_finite (s : bool) (m : positive) (e : Z) :
  SFsub prec emax (S754_finite s m e) (S754_finite s m e) = S754_zero false.
Proof. unfold SFsub. now rewrite Z.sub_diag. Qed.

(** Neither below nor above: the two compare equal or do not compare. *)
Lemma SFltb_neither (a b : spec_float) :
  SFltb a b = false -> SFltb b a = false ->
  SFcompare a b = Some Eq \/ SFcompare a b = None.
Proof.
  unfold SFltb.
  destruct a as [sa|sa| |sa ma ea], b as [sb|sb| |sb mb eb]; cbn;
    try (destruct sa); try (destruct sb); cbn; auto; try discriminate.
  all: destruct (Z.compare_spec ea eb) as [->|?|?];
    rewrite ?Z.compare_refl; try discriminate; auto.
  all: try (rewrite (proj2 (Z.compare_gt_iff _ _)) by assumption; discriminate).
  all: try (rewrite (proj2 (Z.compare_lt_iff _ _)) by assumption; discriminate).
  all: rewrite !Pos.compare_cont_spec; cbn [Pos.switch_Eq];
    rewrite (Pos.compare_antisym ma mb);
    destruct (Pos.compare_spec ma mb); cbn; auto; discriminate.
Qed.

Lemma SFsub_self (x : spec_float) :
  SFsub prec emax x x = S754_zero false \/ SFsub prec emax x x = S754_nan.
Proof.
  destruct x as [s|s| |s m e].
  - destruct s; auto.
  - destruct s; auto.
  - auto.
  - left. apply SFsub_diag_finite.
Qed.

Lemma SFsub_of_equal (a b : spec_float) :
  SFcompare a b = Some Eq \/ SFcompare a b = None ->
  (exists s, SFsub prec emax a b = S754_zero s) \/ SFsub prec emax a b = S754_nan.
Proof.
  intros [H|H].
  - destruct a as [sa|sa| |sa ma ea], b as [sb|sb| |sb mb eb];
      try discriminate; try (destruct sa, sb; discriminate).
    + left. destruct sa, sb; cbn; eauto.
    + right. destruct sa, sb; try discriminate; reflexivity.
    + apply SFcompare_Eq_finite in H. destruct H as (-> & -> & ->).
      left. exists false. apply SFsub_diag_finite.
  - right. destruct a as [sa|sa| |sa ma ea], b as [sb|sb| |sb mb eb];
      try reflexivity; try discriminate; destruct sa, sb; discriminate.
Qed.

Lemma SFdiv_nan_r (a : spec_float) : SFdiv prec emax a S754_nan = S754_nan.
Proof. destruct a; reflexivity. Qed.

Lemma Prim2SF_24 : Prim2SF 24 = S754_finite false 6755399441055744 (-48).
Proof. vm_compute. reflexivity. Qed.

(** With the lower and upper end of the trimmed range at the same double
    [x], the quotient [(p - x) / ((x - x) / 24)] of a price that the loop
    does not skip is a NaN. *)
Lemma zero_width_quotient (p x : float) :
  (p <? x) = false -> (x <? p) = false ->
  (p - x) / ((x - x) / 24) = nan.
Proof.
  rewrite !ltb_spec. intros Hlt Hgt. apply is_nan_of_spec.
  rewrite div_spec, sub_spec, div_spec, sub_spec, Prim2SF_24.
  unfold SF64div, SF64sub.
  destruct (SFsub_self (Prim2SF x)) as [-> | ->].
  - change (SFdiv prec emax (S754_zero false) (S754_finite false 6755399441055744 (-48)))
      with (S754_zero false).
    destruct (SFsub_of_equal _ _ (SFltb_neither _ _ Hlt Hgt)) as [[s ->]| ->].
    + destruct s; reflexivity.
    + reflexivity.
  - change (SFdiv prec emax S754_nan (S754_finite false 6755399441055744 (-48)))
      with S754_nan.
    apply SFdiv_nan_r.
Qed.

(** No double is below itself. *)
Lemma ltb_irrefl (x : float) : (x <? x) = false.
Proof.
  rewrite ltb_spec. unfold SFltb, SFcompare.
  destruct (Prim2SF x) as [s|s| |s m e]; try reflexivity.
  - destruct s; reflexivity.
  - rewrite Z.compare_refl, Pos.compare_cont_refl. destruct s; reflexivity.
Qed.

End JSFacts.

(* ================================================================== *)
(** * Facts about the statistics engine *)
(* ================================================================== *)

Module StatsFacts.

Import JS Stats.

(** ** Sorting keeps the elements *)

Lemma insert_length (x : float) (l : list float) :
  length (insert x l) = S (length l).
Proof.
  induction l as [|y t IH]; [reflexivity|].
  cbn [insert]. destruct (PrimFloat.ltb 0 (compareFn x y)); cbn [length];
    [rewrite IH|]; reflexivity.
Qed.

Lemma insert_In (x y : float) (l : list float) :
  In y (insert x l) <-> y = x \/ In y l.
Proof.
  induction l as [|z t IH]; cbn [insert].
  - cbn. intuition auto.
  - destruct (PrimFloat.ltb 0 (compareFn x z)); cbn [In]; rewrite ?IH;
      intuition auto.
Qed.

Lemma sort_numbers_length (l : list float) :
  length (sort_numbers l) = length l.
Proof.
  induction l as [|x t IH]; [reflexivity|].
  change (sort_numbers (x :: t)) with (insert x (sort_numbers t)).
  now rewrite insert_length, IH.
Qed.

Lemma sort_numbers_In (y : float) (l : list float) :
  In y (sort_numbers l) <-> In y l.
Proof.
  induction l as [|x t IH]; [cbn; tauto|].
  change (sort_numbers (x :: t)) with (insert x (sort_numbers t)).
  rewrite insert_In, IH. cbn. intuition auto.
Qed.

Lemma numbers_undefineds_length (l : list value) :
  (length (numbers l) + length (undefineds l) = length l)%nat.
Proof.
  induction l as [|[x|] t IH]; [reflexivity| |].
  - change (numbers (Num x :: t)) with (x :: numbers t).
    change (undefineds (Num x :: t)) with (undefineds t).
    cbn [length]. lia.
  - change (numbers (Undefined :: t)) with (numbers t).
    change (undefineds (Undefined :: t)) with (Undefined :: undefineds t).
    cbn [length]. lia.
Qed.

Lemma sort_length (l : list value) : length (sort l) = length l.
Proof.
  unfold sort.
  rewrite length_app, length_map, sort_numbers_length.
  apply numbers_undefineds_length.
Qed.

Lemma numbers_In (x : float) (l : list value) :
  In x (numbers l) <-> In (Num x) l.
Proof.
  induction l as [|[y|] t IH]; [cbn; tauto| |].
  - change (numbers (Num y :: t)) with (y :: numbers t). cbn [In].
    rewrite IH. split; intros [H|H]; auto; left; congruence.
  - change (numbers (Undefined :: t)) with (numbers t). cbn [In].
    rewrite IH. split; [auto|]. intros [H|H]; [discriminate|auto].
Qed.

Lemma sort_In (v : value) (l : list value) : In v (sort l) <-> In v l.
Proof.
  unfold sort, undefineds. rewrite in_app_iff, in_map_iff, filter_In.
  split.
  - intros [[x [<- H]]|[H _]]; [|exact H].
    now apply numbers_In, sort_numbers_In.
  - intros H. destruct v as [x|].
    + left. exists x. split; [reflexivity|].
      now apply sort_numbers_In, numbers_In.
    + right. split; [exact H|reflexivity].
Qed.

Lemma finalPrices_length (paths : list (list float)) :
  length (finalPrices paths) = length paths.
Proof. unfold finalPrices. apply length_map. Qed.

Lemma sorted_length (paths : list (list float)) :
  length (sorted paths) = length paths.
Proof. unfold sorted. now rewrite sort_length, finalPrices_length. Qed.

(** The three percentile indices select an element of a non-empty array. *)
Lemma index_002_lt (n : nat) : (0 < n -> index_002 n < n)%nat.
Proof. intros H. unfold index_002. apply Nat.Div0.div_lt_upper_bound. lia. Qed.

Lemma index_098_lt (n : nat) : (0 < n -> index_098 n < n)%nat.
Proof. intros H. unfold index_098. apply Nat.Div0.div_lt_upper_bound. lia. Qed.

Lemma index_005_lt (n : nat) : (0 < n -> index_005 n < n)%nat.
Proof. intros H. unfold index_005. apply Nat.Div0.div_lt_upper_bound. lia. Qed.

(** The final price of a non-empty path is its last element. *)
Lemma get_last (p : list float) :
  p <> [] -> exists x, get p (length p - 1) = Num x /\ In x p.
Proof.
  intros Hp. unfold get.
  destruct (nth_error p (length p - 1)) as [x|] eqn:E.
  - exists x. split; [reflexivity|]. eapply nth_error_In, E.
  - apply nth_error_None in E. destruct p; [congruence|cbn in E; lia].
Qed.

Lemma finalPrices_defined (paths : list (list float)) (v : value) :
  Forall (fun p => p <> []) paths ->
  In v (finalPrices paths) ->
  exists p x, In p paths /\ In x p /\ v = Num x.
Proof.
  unfold finalPrices. intros Hne Hin.
  apply in_map_iff in Hin. destruct Hin as [p [Hv Hp]].
  rewrite Forall_forall in Hne.
  destruct (get_last p (Hne p Hp)) as [x [Hx Hxin]].
  exists p, x. repeat split; auto. congruence.
Qed.

(** [var95] is one of the final prices. *)
Lemma var95_In (paths : list (list float)) :
  paths <> [] -> In (var95 paths) (finalPrices paths).
Proof.
  intros Hne. unfold var95, get_value.
  apply (sort_In _ (finalPrices paths)). fold (sorted paths).
  apply nth_In. apply index_005_lt.
  rewrite sorted_length. destruct paths; [congruence|cbn; lia].
Qed.

Lemma var95_defined (paths : list (list float)) :
  paths <> [] -> Forall (fun p => p <> []) paths ->
  exists p x, In p paths /\ In x p /\ var95 paths = Num x.
Proof.
  intros Hne Hall. apply finalPrices_defined; [exact Hall|].
  now apply var95_In.
Qed.

End StatsFacts.

(** ** The histogram loop *)

Module HistogramFacts.

Import JS Stats.

Lemma increment_length (counts : list nat) (i : nat) :
  length (increment counts i) = length counts.
Proof.
  revert i. induction counts as [|c t IH]; intros [|j]; cbn; auto.
Qed.

Lemma list_sum_cons (x : nat) (l : list nat) :
  list_sum (x :: l) = (x + list_sum l)%nat.
Proof. reflexivity. Qed.

Lemma increment_sum (counts : list nat) (i : nat) :
  list_sum (increment counts i)
  = (list_sum counts + if (i <? length counts)%nat then 1 else 0)%nat.
Proof.
  revert i. induction counts as [|c t IH]; intros [|j]; cbn [increment length].
  - reflexivity.
  - reflexivity.
  - rewrite !list_sum_cons. cbn. lia.
  - rewrite !list_sum_cons, IH.
    change (S j <? S (length t))%nat with (j <? length t)%nat. lia.
Qed.

Lemma bump_length (counts : list nat) (idx : float) :
  length (bump counts idx) = length counts.
Proof.
  unfold bump. destruct (array_index idx); auto using increment_length.
Qed.

Lemma bump_sum_le (counts : list nat) (idx : float) :
  (list_sum counts <= list_sum (bump counts idx) <= S (list_sum counts))%nat.
Proof.
  unfold bump. destruct (array_index idx) as [i|]; [|lia].
  rewrite increment_sum. destruct (i <? length counts)%nat; lia.
Qed.

(** In the loop, a bin index that is an array index increments its bin. *)
Lemma bump_in_range (counts : list nat) (y : float) (i : nat) :
  length counts = binCount ->
  array_index (Math_min y (of_nat (binCount - 1))) = Some i ->
  list_sum (bump counts (Math_min y (of_nat (binCount - 1))))
  = S (list_sum counts).
Proof.
  intros Hlen Hi. unfold bump. rewrite Hi, increment_sum.
  pose proof (JSFacts.array_index_Math_min y i Hi) as Hlt.
  rewrite <- Hlen in Hlt. apply Nat.ltb_lt in Hlt. rewrite Hlt. lia.
Qed.

Section Loop.

Variables (lo hi : value) (w : float).

(** The test that makes the loop [continue]. *)
Definition outside (p : value) : bool := lt p lo || gt p hi.

Lemma histogram_step_length (counts : list nat) (p : value) :
  length (histogram_step lo hi w counts p) = length counts.
Proof.
  unfold histogram_step. destruct (lt p lo || gt p hi); auto using bump_length.
Qed.

Lemma histogram_step_outside (counts : list nat) (p : value) :
  outside p = true -> histogram_step lo hi w counts p = counts.
Proof. unfold outside, histogram_step. now intros ->. Qed.

Lemma histogram_step_sum (counts : list nat) (p : value) :
  (list_sum counts <= list_sum (histogram_step lo hi w counts p)
   <= S (list_sum counts))%nat.
Proof.
  unfold histogram_step. destruct (lt p lo || gt p hi); [lia|].
  apply bump_sum_le.
Qed.

Lemma histogram_loop_length (ps : list value) (counts : list nat) :
  length (fold_left (histogram_step lo hi w) ps counts) = length counts.
Proof.
  revert counts. induction ps as [|p t IH]; intros counts; cbn; [reflexivity|].
  now rewrite IH, histogram_step_length.
Qed.

Lemma histogram_loop_sum_le (ps : list value) (counts : list nat) :
  (list_sum (fold_left (histogram_step lo hi w) ps counts)
   <= list_sum counts + length ps)%nat.
Proof.
  revert counts. induction ps as [|p t IH]; intros counts; cbn [fold_left length].
  - lia.
  - specialize (IH (histogram_step lo hi w counts p)).
    pose proof (histogram_step_sum counts p). lia.
Qed.

(** Every price counted: none was skipped. *)
Lemma histogram_loop_sum_eq (ps : list value) (counts : list nat) :
  list_sum (fold_left (histogram_step lo hi w) ps counts)
  = (list_sum counts + length ps)%nat ->
  Forall (fun p => outside p = false) ps.
Proof.
  revert counts. induction ps as [|p t IH]; intros counts; cbn [fold_left length];
    intros E; constructor.
  - destruct (outside p) eqn:Ho; [|reflexivity]. exfalso.
    rewrite (histogram_step_outside counts p Ho) in E.
    pose proof (histogram_loop_sum_le t counts). lia.
  - apply (IH (histogram_step lo hi w counts p)).
    pose proof (histogram_loop_sum_le t (histogram_step lo hi w counts p)).
    pose proof (histogram_step_sum counts p). lia.
Qed.

(** A price outside the trimmed range changes no bin, wherever it stands
    in the array. *)
Lemma histogram_loop_skips (ps qs : list value) (p : value) (counts : list nat) :
  outside p = true ->
  fold_left (histogram_step lo hi w) (ps ++ p :: qs) counts
  = fold_left (histogram_step lo hi w) (ps ++ qs) counts.
Proof.
  intros Ho. rewrite !fold_left_app. cbn [fold_left].
  now rewrite histogram_step_outside.
Qed.

End Loop.

Lemma list_sum_repeat_0 (n : nat) : list_sum (repeat 0%nat n) = 0%nat.
Proof. induction n; cbn; auto. Qed.

Lemma fpgaCounts_length (paths : list (list float)) :
  length (fpgaCounts paths) = binCount.
Proof.
  unfold fpgaCounts. now rewrite histogram_loop_length, repeat_length.
Qed.

Lemma fpgaCounts_sum_le (paths : list (list float)) :
  (list_sum (fpgaCounts paths) <= length paths)%nat.
Proof.
  unfold fpgaCounts.
  etransitivity; [apply histogram_loop_sum_le|].
  rewrite list_sum_repeat_0, StatsFacts.finalPrices_length. lia.
Qed.

Lemma fpgaCounts_sum_eq (paths : list (list float)) :
  list_sum (fpgaCounts paths) = length paths ->
  Forall (fun p => outside (trimLow paths) (trimHigh paths) p = false)
         (finalPrices paths).
Proof.
  unfold fpgaCounts. intros E.
  eapply histogram_loop_sum_eq.
  rewrite E, list_sum_repeat_0, StatsFacts.finalPrices_length. reflexivity.
Qed.

Lemma bump_nan (counts : list nat) :
  bump counts (Math_min (Math_floor nan) (of_nat (binCount - 1))) = counts.
Proof. reflexivity. Qed.

(** So when [trimLow] and [trimHigh] are the same value, no price is
    counted. *)
Lemma histogram_step_zero_width (v p : value) (counts : list nat) :
  histogram_step v v ((toNumber v - toNumber v) / of_nat binCount) counts p
  = counts.
Proof.
  unfold histogram_step, lt, gt.
  destruct (toNumber p <? toNumber v) eqn:Hlt; [reflexivity|].
  destruct (toNumber v <? toNumber p) eqn:Hgt; [reflexivity|].
  cbn [orb].
  replace (of_nat binCount) with 24 by (vm_compute; reflexivity).
  rewrite (JSFacts.zero_width_quotient _ _ Hlt Hgt). apply bump_nan.
Qed.

(** A single path is its own 2nd and 98th percentile. *)
Lemma single_path_trim (p : list float) : trimLow [p] = trimHigh [p].
Proof.
  unfold trimLow, trimHigh. rewrite StatsFacts.sorted_length. reflexivity.
Qed.

Lemma fpgaCounts_zero_width (paths : list (list float)) :
  trimLow paths = trimHigh paths ->
  fpgaCounts paths = repeat 0%nat binCount.
Proof.
  intros H. unfold fpgaCounts, binWidth. rewrite <- H.
  generalize (repeat 0%nat binCount) as counts.
  induction (finalPrices paths) as [|p ps IH]; intros counts; [reflexivity|].
  cbn [fold_left]. now rewrite histogram_step_zero_width.
Qed.

Lemma cpuCounts_cursor (random : random_source) (k : nat) (counts : list nat) :
  snd (cpuCounts random k counts) = (k + length counts)%nat.
Proof.
  revert k. induction counts as [|c t IH]; intros k; cbn [cpuCounts length].
  - cbn. lia.
  - specialize (IH (S k)). destruct (cpuCounts random (S k) t) as [vs k'].
    cbn in *. lia.
Qed.

(** The comparison series reads the random source at the cursor and the
    [length counts - 1] positions after it, and nowhere else. *)
Lemma cpuCounts_ext (r1 r2 : random_source) (k1 k2 : nat) (counts : list nat) :
  (forall i, (i < length counts)%nat -> r1 (k1 + i)%nat = r2 (k2 + i)%nat) ->
  fst (cpuCounts r1 k1 counts) = fst (cpuCounts r2 k2 counts).
Proof.
  revert k1 k2. induction counts as [|c t IH]; intros k1 k2 H;
    cbn [cpuCounts length] in *.
  - reflexivity.
  - specialize (IH (S k1) (S k2)).
    destruct (cpuCounts r1 (S k1) t) as [vs1 k1'].
    destruct (cpuCounts r2 (S k2) t) as [vs2 k2'].
    cbn [fst] in *. f_equal.
    + generalize (H 0%nat). rewrite !Nat.add_0_r. intros ->; [reflexivity|lia].
    + apply IH. intros i Hi. generalize (H (S i)).
      rewrite !Nat.add_succ_r. cbn. intros ->; [reflexivity|lia].
Qed.

End HistogramFacts.

(** ** Drawdown runs and drawdown buckets *)

Module DrawdownFacts.

Import JS Stats.

Section Run.

Variables (p : list float) (startPrice : value).

(** Step [d] of the path is below the start price. *)
Definition below (d : nat) : bool := lt (get p d) startPrice.

(** Steps [a, a + n) are all below the start price. *)
Definition run (a n : nat) : Prop :=
  forall d, (a <= d < a + n)%nat -> below d = true.

(** What the loop has established after steps [1 .. n]: [c] is the length
    of the run that ends at step [n], and [m] the longest run so far. *)
Definition loop_invariant (n : nat) (st : nat * nat) : Prop :=
  let '(m, c) := st in
  (c <= m)%nat /\ (c <= n)%nat /\ run (S n - c) c /\
  ((c < n)%nat -> below (n - c) = false) /\
  (forall a len, (1 <= a)%nat -> (a + len <= S n)%nat -> run a len -> (len <= m)%nat) /\
  (exists a, (1 <= a)%nat /\ (a + m <= S n)%nat /\ run a m).

Lemma loop_invariant_init : loop_invariant 0 (0, 0)%nat.
Proof.
  unfold loop_invariant.
  split; [lia|]. split; [lia|]. split; [intros d Hd; lia|].
  split; [intros H; lia|]. split.
  - intros a len Ha Hlen _. lia.
  - exists 1%nat. split; [lia|]. split; [lia|]. intros d Hd. lia.
Qed.

Lemma loop_invariant_step (n : nat) (st : nat * nat) :
  loop_invariant n st ->
  loop_invariant (S n) (drawdown_step p startPrice st (S n)).
Proof.
  destruct st as [m c]. unfold loop_invariant, drawdown_step.
  intros (Hcm & Hcn & Hrun & Hmax & Hall & a0 & Ha0 & Hlen0 & Hrun0).
  fold (below (S n)). destruct (below (S n)) eqn:Hb.
  - (* the run grows *)
    assert (Hrun' : run (S (S n) - S c) (S c)).
    { intros d Hd. destruct (Nat.eq_dec d (S n)) as [->|Hne]; [exact Hb|].
      apply Hrun. lia. }
    assert (Hwin : forall a len, (1 <= a)%nat -> (a + len <= S (S n))%nat ->
                                 run a len -> (len <= Nat.max m (S c))%nat).
    { intros a len Ha Hlen Hr.
      destruct (Nat.le_gt_cases (a + len) (S n)) as [Hin|Hout].
      - specialize (Hall a len Ha Hin Hr). lia.
      - destruct (Nat.le_gt_cases len (S c)) as [|Hlong]; [lia|].
        exfalso. assert (Hc : (c < n)%nat) by lia.
        specialize (Hmax Hc). rewrite (Hr (n - c)%nat) in Hmax; [discriminate|lia]. }
    assert (Hbrk : (S c < S n)%nat -> below (S n - S c) = false).
    { intros Hc. replace (S n - S c)%nat with (n - c)%nat by lia.
      apply Hmax. lia. }
    destruct (Nat.ltb_spec m (S c)) as [Hlt|Hge].
    + split; [lia|]. split; [lia|]. split; [exact Hrun'|].
      split; [exact Hbrk|]. split.
      * intros a len Ha Hlen Hr. specialize (Hwin a len Ha Hlen Hr). lia.
      * exists (S (S n) - S c)%nat. split; [lia|]. split; [lia|]. exact Hrun'.
    + split; [lia|]. split; [lia|]. split; [exact Hrun'|].
      split; [exact Hbrk|]. split.
      * intros a len Ha Hlen Hr. specialize (Hwin a len Ha Hlen Hr). lia.
      * exists a0. split; [lia|]. split; [lia|]. exact Hrun0.
  - (* the run is broken *)
    split; [lia|]. split; [lia|]. split; [intros d Hd; lia|].
    split; [intros _; rewrite Nat.sub_0_r; exact Hb|]. split.
    + intros a len Ha Hlen Hr.
      destruct (Nat.le_gt_cases (a + len) (S n)) as [Hin|Hout].
      * apply (Hall a len Ha Hin Hr).
      * destruct len as [|len']; [lia|].
        exfalso. rewrite (Hr (S n)) in Hb; [discriminate|lia].
    + exists a0. split; [lia|]. split; [lia|]. exact Hrun0.
Qed.

Lemma loop_invariant_fold (n : nat) :
  loop_invariant n
    (fold_left (drawdown_step p startPrice) (seq 1 n) (0, 0)%nat).
Proof.
  induction n as [|n IH].
  - apply loop_invariant_init.
  - rewrite seq_S, fold_left_app. cbn [fold_left].
    replace (1 + n)%nat with (S n) by lia.
    now apply loop_invariant_step.
Qed.

(** [maxDrawdown] is the length of the longest unbroken run of steps in
    [1 .. days - 1] that lie below the start price: no run is longer, and a
    run of that length exists. *)
Lemma maxDrawdown_longest_run (days : nat) :
  (forall a len, (1 <= a)%nat -> (a + len <= S (days - 1))%nat -> run a len ->
                 (len <= maxDrawdown days startPrice p)%nat) /\
  (exists a, (1 <= a)%nat /\
             (a + maxDrawdown days startPrice p <= S (days - 1))%nat /\
             run a (maxDrawdown days startPrice p)).
Proof.
  unfold maxDrawdown.
  pose proof (loop_invariant_fold (days - 1)) as H.
  destruct (fold_left _ _ _) as [m c]. cbn [fst].
  destruct H as (_ & _ & _ & _ & Hall & Hex). split; assumption.
Qed.

Lemma maxDrawdown_bound (days : nat) :
  (maxDrawdown days startPrice p <= days - 1)%nat.
Proof.
  destruct (maxDrawdown_longest_run days) as [_ (a & Ha & Hlen & _)]. lia.
Qed.

End Run.

(** ** Buckets *)

Lemma ddStep_pos (days : nat) : (1 <= ddStep days)%nat.
Proof. unfold ddStep. lia. Qed.

Lemma ddBinEdges_eq (days : nat) :
  ddBinEdges days
  = let s := ddStep days in
    [ (0, Some s); (s, Some (2 * s)); (2 * s, Some (3 * s));
      (3 * s, Some (4 * s)); (4 * s, None) ]%nat.
Proof.
  unfold ddBinEdges. cbn [seq map Nat.eqb Nat.add].
  cbv zeta. repeat f_equal; lia.
Qed.

Lemma ddCounts_length (days : nat) (dds : list nat) :
  length (ddCounts days dds) = 5%nat.
Proof. unfold ddCounts. now rewrite length_map, ddBinEdges_eq. Qed.

(** Every value lands in exactly one of the five buckets. *)
Lemma bucket_partition (s dd : nat) :
  (1 <= s)%nat ->
  (  Nat.b2n (in_bucket (0, Some s) dd)
   + Nat.b2n (in_bucket (s, Some (2 * s)) dd)
   + Nat.b2n (in_bucket (2 * s, Some (3 * s)) dd)
   + Nat.b2n (in_bucket (3 * s, Some (4 * s)) dd)
   + Nat.b2n (in_bucket (4 * s, None) dd) = 1)%nat.
Proof.
  intros Hs. unfold in_bucket.
  destruct (Nat.leb_spec 0 dd), (Nat.ltb_spec dd s),
           (Nat.leb_spec s dd), (Nat.ltb_spec dd (2 * s)),
           (Nat.leb_spec (2 * s) dd), (Nat.ltb_spec dd (3 * s)),
           (Nat.leb_spec (3 * s) dd), (Nat.ltb_spec dd (4 * s)),
           (Nat.leb_spec (4 * s) dd); cbn; lia.
Qed.

Lemma filter_length_cons {A : Type} (f : A -> bool) (x : A) (l : list A) :
  length (filter f (x :: l)) = (Nat.b2n (f x) + length (filter f l))%nat.
Proof. cbn. destruct (f x); reflexivity. Qed.

Lemma ddCounts_sum (days : nat) (dds : list nat) :
  list_sum (ddCounts days dds) = length dds.
Proof.
  unfold ddCounts. rewrite ddBinEdges_eq. cbv zeta.
  pose proof (ddStep_pos days) as Hs. generalize dependent (ddStep days).
  intros s Hs. cbn [map list_sum fold_right].
  induction dds as [|dd t IH]; [reflexivity|].
  rewrite !filter_length_cons. cbn [length].
  pose proof (bucket_partition s dd Hs). lia.
Qed.

End DrawdownFacts.

(* ================================================================== *)
(** * Rounding of a product of doubles *)
(* ================================================================== *)

Module RoundingFacts.

Import JS Stats.
Local Open Scope Z_scope.

(** [shr_1] halves: the quotient, the bit shifted out, and whether any
    earlier bit was set. *)
Lemma shr_1_spec (m : Z) (r s : bool) :
  0 <= m ->
  shr_1 {| shr_m := m; shr_r := r; shr_s := s |}
  = {| shr_m := m / 2; shr_r := Z.odd m; shr_s := r || s |}.
Proof.
  intros Hm. destruct m as [|p|p]; [reflexivity| |lia].
  destruct p as [p|p|]; cbn [shr_1 Z.odd]; f_equal.
  - rewrite Pos2Z.inj_xI. apply Z.div_unique with (r := 1); lia.
  - rewrite Pos2Z.inj_xO. apply Z.div_unique with (r := 0); lia.
Qed.

Lemma iter_pos_nat {A : Type} (f : A -> A) (p : positive) (x : A) :
  SpecFloat.iter_pos f p x = Nat.iter (Pos.to_nat p) f x.
Proof.
  revert x. induction p as [p IH|p IH|]; intros x; cbn [SpecFloat.iter_pos].
  - rewrite !IH, Pos2Nat.inj_xI.
    replace (S (2 * Pos.to_nat p))%nat
      with (Pos.to_nat p + (Pos.to_nat p + 1))%nat by lia.
    now rewrite !Nat.iter_add.
  - rewrite !IH, Pos2Nat.inj_xO.
    replace (2 * Pos.to_nat p)%nat with (Pos.to_nat p + Pos.to_nat p)%nat by lia.
    now rewrite Nat.iter_add.
  - reflexivity.
Qed.

(** After [j] halvings of [m]: the quotient by [2^j]; the round bit tells
    whether the part shifted out reaches one half, and the sticky bit whether
    anything is left beside it. *)
Lemma shr_iter (m : Z) (j : nat) :
  0 <= m ->
  let r := Nat.iter j shr_1 {| shr_m := m; shr_r := false; shr_s := false |} in
  shr_m r = m / 2 ^ Z.of_nat j /\
  exists c,
    2 * (m mod 2 ^ Z.of_nat j) = (if shr_r r then 2 ^ Z.of_nat j else 0) + c /\
    0 <= c < 2 ^ Z.of_nat j /\
    (shr_s r = true <-> 0 < c).
Proof.
  intros Hm. induction j as [|j IH]; cbv zeta.
  - cbn [Nat.iter shr_m shr_r shr_s]. change (2 ^ Z.of_nat 0) with 1.
    rewrite Z.div_1_r, Z.mod_1_r. split; [reflexivity|]. exists 0.
    repeat split; try lia; discriminate.
  - cbv zeta in IH. rewrite Nat.iter_succ.
    destruct (Nat.iter j shr_1 _) as [mj rj sj]. cbn [shr_m shr_r shr_s] in IH.
    destruct IH as (Hq & c & Hc & Hcb & Hs).
    assert (Hmj : 0 <= mj) by (subst mj; apply Z.div_pos; [lia|apply Z.pow_pos_nonneg; lia]).
    rewrite shr_1_spec by exact Hmj. cbn [shr_m shr_r shr_s].
    rewrite Nat2Z.inj_succ, Z.pow_succ_r by lia.
    set (t := 2 ^ Z.of_nat j) in *.
    assert (Ht : 0 < t) by (apply Z.pow_pos_nonneg; lia).
    assert (Hdm : m = t * mj + m mod t) by (subst mj; apply Z.div_mod; lia).
    assert (Hb : 0 <= m mod t < t) by (apply Z.mod_pos_bound; lia).
    assert (Hb2 : 0 <= mj mod 2 < 2) by (apply Z.mod_pos_bound; lia).
    assert (Hd2 : mj = 2 * (mj / 2) + mj mod 2) by (apply Z.div_mod; lia).
    assert (Hm2 : m mod (2 * t) = t * (mj mod 2) + m mod t).
    { symmetry. apply Z.mod_unique with (q := mj / 2); [left; nia|nia]. }
    assert (Hodd : mj mod 2 = if Z.odd mj then 1 else 0) by apply Zmod_odd.
    split.
    + subst mj. rewrite Z.div_div by lia. f_equal. lia.
    + exists (2 * (m mod t)). rewrite Hm2, Hodd.
      split; [destruct (Z.odd mj); lia|]. split; [lia|].
      rewrite orb_true_iff, Hs. destruct rj; split; intros H; try lia; auto.
Qed.

(** ** Canonical mantissas *)

Lemma digits2_pos_upper (m : positive) : Z.pos m < 2 ^ Z.pos (digits2_pos m).
Proof.
  induction m as [m IH|m IH|]; cbn [digits2_pos].
  - rewrite Pos2Z.inj_succ, Z.pow_succ_r by lia. lia.
  - rewrite Pos2Z.inj_succ, Z.pow_succ_r by lia. lia.
  - reflexivity.
Qed.

Lemma digits2_pos_lower (m : positive) : 2 ^ (Z.pos (digits2_pos m) - 1) <= Z.pos m.
Proof.
  induction m as [m IH|m IH|]; cbn [digits2_pos].
  - rewrite Pos2Z.inj_succ. replace (Z.succ (Z.pos (digits2_pos m)) - 1)
      with (Z.succ (Z.pos (digits2_pos m) - 1)) by lia.
    rewrite Z.pow_succ_r by lia. lia.
  - rewrite Pos2Z.inj_succ. replace (Z.succ (Z.pos (digits2_pos m)) - 1)
      with (Z.succ (Z.pos (digits2_pos m) - 1)) by lia.
    rewrite Z.pow_succ_r by lia. lia.
  - cbn. lia.
Qed.

(** The number of binary digits, from the two powers of two around it. *)
Lemma digits2_pos_eq (m : positive) (d : Z) :
  2 ^ (d - 1) <= Z.pos m < 2 ^ d -> Z.pos (digits2_pos m) = d.
Proof.
  intros [Hlo Hhi]. pose proof (digits2_pos_upper m) as U.
  pose proof (digits2_pos_lower m) as L.
  assert (Hd : 0 < d).
  { destruct (Z_lt_le_dec 0 d) as [?|Hd]; [assumption|].
    assert (2 ^ d <= 1)
      by (destruct (Z.eq_dec d 0) as [->|]; [cbn; lia|rewrite Z.pow_neg_r; lia]).
    lia. }
  destruct (Z.lt_trichotomy (Z.pos (digits2_pos m)) d) as [Hlt|[Heq|Hgt]]; [|exact Heq|].
  - assert (2 ^ Z.pos (digits2_pos m) <= 2 ^ (d - 1)) by (apply Z.pow_le_mono_r; lia). lia.
  - assert (2 ^ d <= 2 ^ (Z.pos (digits2_pos m) - 1)) by (apply Z.pow_le_mono_r; lia). lia.
Qed.

(** ** Rounding a product *)

Lemma floorZ_sf_floor (x : float) : floorZ x = sf_floor (Prim2SF x).
Proof. reflexivity. Qed.

Lemma pos_iter_xO (p d : positive) :
  Z.pos (Pos.iter xO p d) = Z.pos p * 2 ^ Z.pos d.
Proof.
  induction d as [|d IH] using Pos.peano_ind.
  - cbn. lia.
  - rewrite Pos.iter_succ, Pos2Z.inj_xO, IH, Pos2Z.inj_succ, Z.pow_succ_r by lia. lia.
Qed.

(** A mantissa of 53 digits at an exponent in range is left as it is. *)
Lemma binary_round_aux_canonical (s : bool) (m : positive) (e : Z) :
  Z.pos (digits2_pos m) = 53 -> -1074 <= e <= 971 ->
  binary_round_aux prec emax s (Z.pos m) e loc_Exact = S754_finite s m e.
Proof.
  intros Hd He. unfold binary_round_aux, shr_fexp. cbn [Zdigits2].
  rewrite Hd. unfold fexp, emin, prec, emax.
  replace (Z.max (53 + e - 53) (3 - 1024 - 53) - e) with 0 by lia.
  cbn [shr shr_record_of_loc loc_of_shr_record round_nearest_even shr_m Zdigits2].
  rewrite Hd.
  replace (Z.max (53 + e - 53) (3 - 1024 - 53) - e) with 0 by lia.
  cbn [shr shr_m].
  destruct (Z.leb_spec e (1024 - 53)); [reflexivity|lia].
Qed.

(** The double of a positive integer below [2^53]: its digits moved up to
    53 places. *)
Lemma Prim2SF_of_Z (p : positive) (L : Z) :
  Z.pos (digits2_pos p) = L -> 1 <= L <= 52 ->
  exists mx, Z.pos mx = Z.pos p * 2 ^ (53 - L) /\
             Prim2SF (of_Z (Z.pos p)) = S754_finite false mx (L - 53).
Proof.
  intros HL Hr. unfold of_Z, binary_normalize, binary_round, shl_align.
  cbn [Zdigits2]. rewrite HL. unfold fexp, emin, prec, emax.
  replace (Z.max (L + 0 - 53) (3 - 1024 - 53) - 0) with (L - 53) by lia.
  replace (Z.max (L + 0 - 53) (3 - 1024 - 53)) with (L - 53) by lia.
  destruct (L - 53) as [|d|d] eqn:Ed; try lia.
  pose proof (pos_iter_xO p d) as Hmx.
  assert (Hd53 : Z.pos d = 53 - L) by lia.
  assert (Hdig : Z.pos (digits2_pos (Pos.iter xO p d)) = 53).
  { apply digits2_pos_eq. rewrite Hmx, Hd53.
    pose proof (digits2_pos_upper p) as U. pose proof (digits2_pos_lower p) as Lo.
    rewrite HL in U, Lo.
    replace (2 ^ (53 - 1)) with (2 ^ (L - 1) * 2 ^ (53 - L))
      by (rewrite <- Z.pow_add_r by lia; f_equal; lia).
    replace (2 ^ 53) with (2 ^ L * 2 ^ (53 - L))
      by (rewrite <- Z.pow_add_r by lia; f_equal; lia).
    assert (0 < 2 ^ (53 - L)) by (apply Z.pow_pos_nonneg; lia). nia. }
  rewrite binary_round_aux_canonical by (try exact Hdig; lia).
  exists (Pos.iter xO p d). split; [rewrite Hmx, Hd53; reflexivity|].
  apply Prim2SF_SF2Prim. cbn [valid_binary]. unfold SpecFloat.bounded, canonical_mantissa.
  rewrite Hdig. unfold fexp, emin, prec, emax.
  apply andb_true_iff. split; [apply Z.eqb_eq|apply Z.leb_le]; lia.
Qed.

(** A mantissa of more than 53 digits is rounded to nearest: the quotient
    by [2^k] or its successor, according to where the remainder lies. *)
Lemma binary_round_aux_shift (P : positive) (E0 D : Z) :
  Z.pos (digits2_pos P) = D -> 53 < D ->
  -1074 <= E0 + (D - 53) -> E0 + (D - 53) + 1 < 0 ->
  exists M1,
    ((M1 = Z.pos P / 2 ^ (D - 53) /\ 2 * (Z.pos P mod 2 ^ (D - 53)) <= 2 ^ (D - 53)) \/
     (M1 = Z.pos P / 2 ^ (D - 53) + 1 /\ 2 ^ (D - 53) <= 2 * (Z.pos P mod 2 ^ (D - 53)))) /\
    sf_floor (binary_round_aux prec emax false (Z.pos P) E0 loc_Exact)
    = Some (M1 / 2 ^ (- (E0 + (D - 53)))).
Proof.
  intros HD Hbig Hlo Hhi.
  set (k := D - 53) in *. set (E1 := E0 + k) in *.
  assert (Hk : 0 < k) by (unfold k; lia).
  pose proof (digits2_pos_upper P) as U. pose proof (digits2_pos_lower P) as Lo.
  rewrite HD in U, Lo.
  assert (Hpk : 0 < 2 ^ k) by (apply Z.pow_pos_nonneg; lia).
  assert (HD1 : 2 ^ (D - 1) = 2 ^ k * 2 ^ 52)
    by (rewrite <- Z.pow_add_r by lia; f_equal; unfold k; lia).
  assert (HD2 : 2 ^ D = 2 ^ k * 2 ^ 53)
    by (rewrite <- Z.pow_add_r by lia; f_equal; unfold k; lia).
  set (q := Z.pos P / 2 ^ k). set (rem := Z.pos P mod 2 ^ k).
  assert (Hdm : Z.pos P = 2 ^ k * q + rem) by (apply Z.div_mod; lia).
  assert (Hrem : 0 <= rem < 2 ^ k) by (apply Z.mod_pos_bound; lia).
  assert (Hq : 2 ^ 52 <= q < 2 ^ 53) by (split; nia).
  unfold binary_round_aux, shr_fexp. cbn [Zdigits2]. rewrite HD.
  unfold fexp, emin, prec, emax.
  replace (Z.max (D + E0 - 53) (3 - 1024 - 53) - E0) with k by (unfold E1, k in *; lia).
  destruct k as [|kp|kp] eqn:Ek; try lia.
  cbn [shr shr_record_of_loc]. rewrite iter_pos_nat.
  destruct (shr_iter (Z.pos P) (Pos.to_nat kp) ltac:(lia)) as (Hm & c & Hc & Hcb & Hs).
  rewrite positive_nat_Z in Hm, Hc, Hcb.
  fold q in Hm. fold rem in Hc.
  destruct (Nat.iter (Pos.to_nat kp) shr_1 _) as [m1 r1 s1].
  cbn [shr_m shr_r shr_s] in *. subst m1.
  set (M1 := round_nearest_even q (loc_of_shr_record {| shr_m := q; shr_r := r1; shr_s := s1 |})).
  assert (HM1 : (M1 = q /\ 2 * rem <= 2 ^ Z.pos kp) \/
                (M1 = q + 1 /\ 2 ^ Z.pos kp <= 2 * rem)).
  { unfold M1. destruct r1, s1; cbn [loc_of_shr_record round_nearest_even].
    - right. split; [reflexivity|lia].
    - destruct (Z.even q); [left|right]; split; try reflexivity; lia.
    - left. split; [reflexivity|lia].
    - left. split; [reflexivity|lia]. }
  exists M1. split; [exact HM1|].
  assert (HMb : 2 ^ 52 <= M1 <= 2 ^ 53) by (destruct HM1 as [[-> _]|[-> _]]; lia).
  destruct M1 as [|m1|m1] eqn:EM; try lia.
  destruct (Z_lt_le_dec (Z.pos m1) (2 ^ 53)) as [Hnorm|Hover].
  - assert (Hd1 : Z.pos (digits2_pos m1) = 53) by (apply digits2_pos_eq; lia).
    cbn [Zdigits2]. rewrite Hd1.
    replace (Z.max (53 + (E0 + Z.pos kp) - 53) (3 - 1024 - 53) - (E0 + Z.pos kp))
      with 0 by (unfold E1 in *; lia).
    cbn [shr shr_m].
    destruct (Z.leb_spec (E0 + Z.pos kp) (1024 - 53)); [|unfold E1 in *; lia].
    cbn [sf_floor].
    destruct (Z.leb_spec 0 (E0 + Z.pos kp)); [unfold E1 in *; lia|reflexivity].
  - assert (Hm1 : Z.pos m1 = 2 ^ 53) by lia.
    assert (Hd1 : Z.pos (digits2_pos m1) = 54) by (apply digits2_pos_eq; rewrite Hm1; lia).
    cbn [Zdigits2]. rewrite Hd1.
    replace (Z.max (54 + (E0 + Z.pos kp) - 53) (3 - 1024 - 53) - (E0 + Z.pos kp))
      with 1 by (unfold E1 in *; lia).
    cbn [shr shr_record_of_loc SpecFloat.iter_pos].
    rewrite shr_1_spec by lia. cbn [shr_m]. rewrite Hm1.
    change (2 ^ 53 / 2) with (Z.pos 4503599627370496).
    destruct (Z.leb_spec (E0 + Z.pos kp + 1) (1024 - 53)); [|unfold E1 in *; lia].
    cbn [sf_floor].
    destruct (Z.leb_spec 0 (E0 + Z.pos kp + 1)); [unfold E1 in *; lia|].
    f_equal.
    assert (Hp : 2 ^ (- (E0 + Z.pos kp)) = 2 * 2 ^ (- (E0 + Z.pos kp + 1))).
    { rewrite <- Z.pow_succ_r by (unfold E1 in *; lia). f_equal. lia. }
    unfold E1. rewrite Hp.
    change (2 ^ 53) with (2 * 4503599627370496).
    rewrite Z.div_mul_cancel_l; [reflexivity| |lia].
    apply Z.pow_nonzero; unfold E1 in *; lia.
Qed.

(** The product of a positive double constant and an integer of [L] bits,
    floored. *)
Lemma mul_floor (c : float) (mc : positive) (ec n L D : Z) :
  Prim2SF c = S754_finite false mc ec ->
  2 ^ (L - 1) <= n < 2 ^ L -> 1 <= L <= 52 ->
  2 ^ (D - 1) <= Z.pos mc * (n * 2 ^ (53 - L)) < 2 ^ D -> 53 < D ->
  -1074 <= ec + (L - 53) + (D - 53) -> ec + (L - 53) + (D - 53) + 1 < 0 ->
  exists M1,
    ((M1 = Z.pos mc * (n * 2 ^ (53 - L)) / 2 ^ (D - 53) /\
      2 * ((Z.pos mc * (n * 2 ^ (53 - L))) mod 2 ^ (D - 53)) <= 2 ^ (D - 53)) \/
     (M1 = Z.pos mc * (n * 2 ^ (53 - L)) / 2 ^ (D - 53) + 1 /\
      2 ^ (D - 53) <= 2 * ((Z.pos mc * (n * 2 ^ (53 - L))) mod 2 ^ (D - 53)))) /\
    floorZ (c * of_Z n) = Some (M1 / 2 ^ (- (ec + (L - 53) + (D - 53)))).
Proof.
  intros Hc Hn HL HP HD Hlo Hhi.
  assert (0 < 2 ^ (L - 1)) by (apply Z.pow_pos_nonneg; lia).
  destruct n as [|p|p]; try lia.
  assert (Hdp : Z.pos (digits2_pos p) = L) by (apply digits2_pos_eq; exact Hn).
  destruct (Prim2SF_of_Z p L Hdp HL) as (mx & Hmx & Hx).
  rewrite <- Hmx in *. rewrite <- Pos2Z.inj_mul in *.
  assert (HdP : Z.pos (digits2_pos (mc * mx)) = D) by (apply digits2_pos_eq; exact HP).
  destruct (binary_round_aux_shift (mc * mx) (ec + (L - 53)) D HdP HD Hlo Hhi)
    as (M1 & HM1 & Hfl).
  exists M1. split; [exact HM1|].
  rewrite floorZ_sf_floor, mul_spec, Hc, Hx. exact Hfl.
Qed.

Lemma Prim2SF_002 : Prim2SF 0.02 = S754_finite false 5764607523034235 (-58).
Proof. vm_compute. reflexivity. Qed.

Lemma Prim2SF_098 : Prim2SF 0.98 = S754_finite false 8827055269646172 (-53).
Proof. vm_compute. reflexivity. Qed.

Lemma Prim2SF_005 : Prim2SF 0.05 = S754_finite false 7205759403792794 (-57).
Proof. vm_compute. reflexivity. Qed.

Lemma bits (n : Z) :
  1 <= n < 2 ^ 32 -> exists L, 1 <= L <= 32 /\ 2 ^ (L - 1) <= n < 2 ^ L.
Proof.
  intros Hn. exists (Z.log2 n + 1).
  pose proof (Z.log2_spec n ltac:(lia)) as Hs.
  pose proof (Z.log2_nonneg n).
  assert (Z.log2 n < 32) by (apply Z.log2_lt_pow2; lia).
  replace (Z.log2 n + 1 - 1) with (Z.log2 n) by lia.
  rewrite <- Z.add_1_r in Hs. split; [lia|exact Hs].
Qed.

Ltac eval_pow :=
  repeat match goal with
  | |- context [2 ^ ?e] =>
      let v := eval vm_compute in (2 ^ e) in progress change (2 ^ e) with v
  | H : context [2 ^ ?e] |- _ =>
      let v := eval vm_compute in (2 ^ e) in progress change (2 ^ e) with v in H
  end.

Ltac floor_case Hc D :=
  lazymatch goal with
  | Hn : 2 ^ (?L - 1) <= ?n < 2 ^ ?L |- _ =>
      let X := fresh "X" in
      pose proof (mul_floor _ _ _ n L D Hc Hn) as X;
      eval_pow;
      destruct X as (M & HM & Hf); try lia;
      rewrite Hf; f_equal; clear Hf; Z.div_mod_to_equations; lia
  end.

Lemma floor_002_bits (n L : Z) :
  (L = 1 \/ L = 2 \/ L = 3 \/ L = 4 \/ L = 5 \/ L = 6 \/ L = 7 \/ L = 8 \/ L = 9 \/ L = 10 \/ L = 11 \/ L = 12 \/ L = 13 \/ L = 14 \/ L = 15 \/ L = 16 \/ L = 17 \/ L = 18 \/ L = 19 \/ L = 20 \/ L = 21 \/ L = 22 \/ L = 23 \/ L = 24 \/ L = 25 \/ L = 26 \/ L = 27 \/ L = 28 \/ L = 29 \/ L = 30 \/ L = 31 \/ L = 32) ->
  2 ^ (L - 1) <= n < 2 ^ L ->
  floorZ (0.02 * of_Z n) = Some (n / 50).
Proof.
  intros HL Hn.
  assert (HD : Z.pos 5764607523034235 * (n * 2 ^ (53 - L)) < 2 ^ 105 \/
               2 ^ 105 <= Z.pos 5764607523034235 * (n * 2 ^ (53 - L))) by lia.
  repeat (destruct HL as [->|HL]);
    try subst L;
    (destruct HD as [HD|HD]; [floor_case Prim2SF_002 105|floor_case Prim2SF_002 106]).
Qed.

Lemma floor_098_bits (n L : Z) :
  (L = 1 \/ L = 2 \/ L = 3 \/ L = 4 \/ L = 5 \/ L = 6 \/ L = 7 \/ L = 8 \/ L = 9 \/ L = 10 \/ L = 11 \/ L = 12 \/ L = 13 \/ L = 14 \/ L = 15 \/ L = 16 \/ L = 17 \/ L = 18 \/ L = 19 \/ L = 20 \/ L = 21 \/ L = 22 \/ L = 23 \/ L = 24 \/ L = 25 \/ L = 26 \/ L = 27 \/ L = 28 \/ L = 29 \/ L = 30 \/ L = 31 \/ L = 32) ->
  2 ^ (L - 1) <= n < 2 ^ L ->
  floorZ (0.98 * of_Z n) = Some (49 * n / 50).
Proof.
  intros HL Hn.
  assert (HD : Z.pos 8827055269646172 * (n * 2 ^ (53 - L)) < 2 ^ 105 \/
               2 ^ 105 <= Z.pos 8827055269646172 * (n * 2 ^ (53 - L))) by lia.
  repeat (destruct HL as [->|HL]);
    try subst L;
    (destruct HD as [HD|HD]; [floor_case Prim2SF_098 105|floor_case Prim2SF_098 106]).
Qed.

Lemma floor_005_bits (n L : Z) :
  (L = 1 \/ L = 2 \/ L = 3 \/ L = 4 \/ L = 5 \/ L = 6 \/ L = 7 \/ L = 8 \/ L = 9 \/ L = 10 \/ L = 11 \/ L = 12 \/ L = 13 \/ L = 14 \/ L = 15 \/ L = 16 \/ L = 17 \/ L = 18 \/ L = 19 \/ L = 20 \/ L = 21 \/ L = 22 \/ L = 23 \/ L = 24 \/ L = 25 \/ L = 26 \/ L = 27 \/ L = 28 \/ L = 29 \/ L = 30 \/ L = 31 \/ L = 32) ->
  2 ^ (L - 1) <= n < 2 ^ L ->
  floorZ (0.05 * of_Z n) = Some (n / 20).
Proof.
  intros HL Hn.
  assert (HD : Z.pos 7205759403792794 * (n * 2 ^ (53 - L)) < 2 ^ 105 \/
               2 ^ 105 <= Z.pos 7205759403792794 * (n * 2 ^ (53 - L))) by lia.
  repeat (destruct HL as [->|HL]);
    try subst L;
    (destruct HD as [HD|HD]; [floor_case Prim2SF_005 105|floor_case Prim2SF_005 106]).
Qed.

End RoundingFacts.

(* ================================================================== *)
(** * The percentile indices, computed in doubles *)
(* ================================================================== *)

Module IndexFacts.

Import JS Stats RoundingFacts.
Local Open Scope Z_scope.

(** For every array length, the three indices computed in doubles,
    [Math.floor(0.02 * n)], [Math.floor(0.98 * n)] and
    [Math.floor(0.05 * n)], are the integer quotients the engine is modelled
    with. *)
Lemma percentile_index_agrees (n : nat) :
  Z.of_nat n < max_length ->
  floor_times 0.02 n = Some (Z.of_nat (index_002 n)) /\
  floor_times 0.98 n = Some (Z.of_nat (index_098 n)) /\
  floor_times 0.05 n = Some (Z.of_nat (index_005 n)).
Proof.
  intros Hn. unfold floor_times, index_002, index_098, index_005, of_nat.
  rewrite !Nat2Z.inj_div, Nat2Z.inj_mul. change (Z.of_nat 50) with 50.
  change (Z.of_nat 49) with 49. change (Z.of_nat 20) with 20.
  destruct (Z.eq_dec (Z.of_nat n) 0) as [->|Hz].
  - repeat split; vm_compute; reflexivity.
  - destruct (bits (Z.of_nat n)) as (L & HL & Hb); [unfold max_length in Hn; lia|].
    assert (HL' : L = 1 \/ L = 2 \/ L = 3 \/ L = 4 \/ L = 5 \/ L = 6 \/ L = 7 \/ L = 8 \/ L = 9 \/ L = 10 \/ L = 11 \/ L = 12 \/ L = 13 \/ L = 14 \/ L = 15 \/ L = 16 \/ L = 17 \/ L = 18 \/ L = 19 \/ L = 20 \/ L = 21 \/ L = 22 \/ L = 23 \/ L = 24 \/ L = 25 \/ L = 26 \/ L = 27 \/ L = 28 \/ L = 29 \/ L = 30 \/ L = 31 \/ L = 32) by lia.
    repeat split;
      [ apply (floor_002_bits _ L HL' Hb)
      | apply (floor_098_bits _ L HL' Hb)
      | apply (floor_005_bits _ L HL' Hb) ].
Qed.

End IndexFacts.

(* ================================================================== *)
(** * The result of [computeStatsFromPaths] *)
(* ================================================================== *)

Module EngineFacts.

Import JS Stats.

(** The record a call returns when [var95] and [cvar95] are numbers. *)
Definition result_of (paths : list (list float)) (startPrice : value)
    (v cv : float) (cpu : list float) : StatsResult :=
  {| risk_statistics :=
       {| value_at_risk_95 := parseFloat_toFixed 2 v;
          conditional_value_at_risk_95 := parseFloat_toFixed 2 cv;
          probability_of_profit :=
            parseFloat_toFixed 1 (probProfit paths startPrice);
          average_drawdown_days := Math_round (avgDrawdown paths startPrice) |};
     histogram_data :=
       {| bin_edges := binEdges paths;
          fpga_counts := fpgaCounts paths;
          cpu_counts := cpu |};
     drawdown_distribution :=
       {| dd_bin_edges := ddLabels (length (hd [] paths));
          dd_counts :=
            ddCounts (length (hd [] paths)) (maxDrawdowns paths startPrice) |} |}.

(** The call unfolded: it throws on no path and on an undefined [var95],
    and otherwise returns [result_of]. *)
Lemma computeStats_unfold (random : random_source) (k : nat)
    (paths : list (list float)) (startPrice : value) :
  computeStatsFromPaths random k paths startPrice
  = match paths with
    | [] => (Throw TypeError, k)
    | _ :: _ =>
        match var95 paths, cvar95 paths with
        | Num v, Num cv =>
            (Ok (result_of paths startPrice v cv
                   (fst (cpuCounts random k (fpgaCounts paths)))),
             (k + binCount)%nat)
        | _, _ => (Throw TypeError, (k + binCount)%nat)
        end
    end.
Proof.
  unfold computeStatsFromPaths. destruct paths as [|p ps]; [reflexivity|].
  pose proof (HistogramFacts.cpuCounts_cursor random k (fpgaCounts (p :: ps))) as Hk.
  rewrite HistogramFacts.fpgaCounts_length in Hk.
  destruct (cpuCounts random k (fpgaCounts (p :: ps))) as [cpu k'].
  cbn [fst snd] in *. subst k'.
  destruct (var95 (p :: ps)) as [v|]; [|reflexivity].
  destruct (cvar95 (p :: ps)) as [cv|]; reflexivity.
Qed.

(** [cvar95] is a number as soon as [var95] is. *)
Lemma cvar95_defined (paths : list (list float)) (v : float) :
  var95 paths = Num v -> exists cv, cvar95 paths = Num cv.
Proof.
  intros Hv. unfold cvar95.
  destruct (0 <? length (cvarValues paths))%nat; eauto.
Qed.

(** On a non-empty array of non-empty paths the call returns. *)
Lemma computeStats_returns (random : random_source) (k : nat)
    (paths : list (list float)) (startPrice : value) :
  paths <> [] -> Forall (fun p => p <> []) paths ->
  exists v cv,
    var95 paths = Num v /\ cvar95 paths = Num cv /\
    computeStatsFromPaths random k paths startPrice
    = (Ok (result_of paths startPrice v cv
             (fst (cpuCounts random k (fpgaCounts paths)))),
       (k + binCount)%nat).
Proof.
  intros Hne Hall.
  destruct (StatsFacts.var95_defined paths Hne Hall) as (p & v & _ & _ & Hv).
  destruct (cvar95_defined paths v Hv) as [cv Hcv].
  exists v, cv. repeat split; auto.
  rewrite computeStats_unfold, Hv, Hcv. destruct paths; [congruence|reflexivity].
Qed.

(** An ensemble as the data model has it: at least one path, all of one
    length [days >= 1], every price a positive double. *)
Definition ensemble (days : nat) (paths : list (list float)) : Prop :=
  paths <> [] /\ (1 <= days)%nat /\
  Forall (fun p => length p = days) paths /\
  Forall (Forall (fun x => PrimFloat.ltb 0 x = true)) paths.

Lemma ensemble_nonempty (days : nat) (paths : list (list float)) :
  ensemble days paths -> Forall (fun p => p <> []) paths.
Proof.
  intros (_ & Hd & Hlen & _). eapply Forall_impl; [|exact Hlen].
  intros p Hp ->. cbn in Hp. lia.
Qed.

Lemma ensemble_days (days : nat) (paths : list (list float)) :
  ensemble days paths -> length (hd [] paths) = days.
Proof.
  intros (Hne & _ & Hlen & _). destruct paths as [|p ps]; [congruence|].
  now inversion Hlen.
Qed.

(** In an ensemble [var95] is a positive price, and so compares below or
    equal to itself. *)
Lemma ensemble_var95 (days : nat) (paths : list (list float)) :
  ensemble days paths ->
  exists v, var95 paths = Num v /\ PrimFloat.ltb 0 v = true.
Proof.
  intros E. pose proof (ensemble_nonempty _ _ E) as Hall.
  destruct E as (Hne & _ & _ & Hpos).
  destruct (StatsFacts.var95_defined paths Hne Hall) as (p & v & Hp & Hv & Heq).
  exists v. split; [exact Heq|].
  rewrite Forall_forall in Hpos. specialize (Hpos p Hp).
  rewrite Forall_forall in Hpos. now apply Hpos.
Qed.

(** [sorted[floor(0.05 * N)]] passes the filter [p <= var95] itself. *)
Lemma var95_in_cvarValues (days : nat) (paths : list (list float)) :
  ensemble days paths -> In (var95 paths) (cvarValues paths).
Proof.
  intros E. destruct (ensemble_var95 _ _ E) as (v & Hv & Hpos).
  unfold cvarValues. apply filter_In. split.
  - unfold var95, get_value. apply nth_In, StatsFacts.index_005_lt.
    rewrite StatsFacts.sorted_length. destruct E as (Hne & _).
    destruct paths; [congruence|cbn; lia].
  - rewrite Hv. now apply JSFacts.le_refl_positive.
Qed.

(** So the filter keeps at least one price and [cvar95] is the mean. *)
Lemma cvar95_is_mean (days : nat) (paths : list (list float)) :
  ensemble days paths ->
  cvarValues paths <> [] /\
  (0 < length (cvarValues paths))%nat /\
  cvar95 paths
  = Num (PrimFloat.div (sum_values (cvarValues paths))
           (of_nat (length (cvarValues paths)))).
Proof.
  intros E. pose proof (var95_in_cvarValues _ _ E) as Hin.
  assert (Hlen : (0 < length (cvarValues paths))%nat).
  { destruct (cvarValues paths); [destruct Hin|cbn; lia]. }
  repeat split; auto.
  - intros Hnil. rewrite Hnil in Hlen. cbn in Hlen. lia.
  - unfold cvar95. apply Nat.ltb_lt in Hlen. now rewrite Hlen.
Qed.

End EngineFacts.

(* ================================================================== *)
(** * Facts about the path generator *)
(* ================================================================== *)

Module GeneratorFacts.

Import Generator.

Section Generic.

Variable A : arithmetic.
Variable random : nat -> num A.

(** ** What a successful run returns *)

(** [u] was accepted by the rejection loop started at cursor [k]: it is the
    first draw at or after [k] that is not zero, and the cursor moved past it. *)
Definition accepted (k : nat) (u : num A) (k' : nat) : Prop :=
  (k < k')%nat /\ u = random (k' - 1) /\ is_zero A u = false /\
  forall j, (k <= j < k' - 1)%nat -> is_zero A (random j) = true.

Lemma draw_nonzero_accepted (fuel k : nat) (u : num A) (k' : nat) :
  draw_nonzero A random fuel k = Some (u, k') -> accepted k u k'.
Proof.
  revert k. induction fuel as [|fuel IH]; intros k; cbn [draw_nonzero];
    [discriminate|].
  destruct (is_zero A (random k)) eqn:Hz.
  - intros H. destruct (IH _ H) as (Hlt & Hu & Hnz & Hrej).
    repeat split; auto; try lia.
    intros j Hj. destruct (Nat.eq_dec j k) as [->|Hne]; [exact Hz|].
    apply Hrej. lia.
  - intros H. injection H as <- <-. unfold accepted.
    replace (S k - 1)%nat with k by lia. repeat split; auto. intros j Hj. lia.
Qed.

(** A standard-normal sample as [gaussRandom] forms it: the Box-Muller
    transform of two accepted draws, [u] before [v]. *)
Definition sample (k : nat) (z : num A) (k' : nat) : Prop :=
  exists u v k1, accepted k u k1 /\ accepted k1 v k' /\ z = box_muller A u v.

Lemma gaussRandom_sample (fuel k : nat) (z : num A) (k' : nat) :
  gaussRandom A random fuel k = Some (z, k') -> sample k z k'.
Proof.
  unfold gaussRandom.
  destruct (draw_nonzero A random fuel k) as [[u k1]|] eqn:Hu; [|discriminate].
  destruct (draw_nonzero A random fuel k1) as [[v k2]|] eqn:Hv; [|discriminate].
  intros H. injection H as <- <-. exists u, v, k1.
  eauto using draw_nonzero_accepted.
Qed.

Section Path.

Variables (mu sigma : num A).

(** The prices after [prev]: each is the one before it times
    [exp (drift + vol * z)] for a fresh sample [z]. *)
Inductive chain : nat -> num A -> list (num A) -> nat -> Prop :=
  | chain_end (k : nat) (prev : num A) : chain k prev [] k
  | chain_step (k k1 k2 : nat) (prev z : num A) (rest : list (num A)) :
      sample k z k1 ->
      chain k1 (next_price A mu sigma prev z) rest k2 ->
      chain k prev (next_price A mu sigma prev z :: rest) k2.

Lemma walk_chain (fuel n : nat) (prev : num A) (k : nat)
    (rest : list (num A)) (k' : nat) :
  walk A random mu sigma fuel n prev k = Some (rest, k') ->
  length rest = n /\ chain k prev rest k'.
Proof.
  revert prev k rest k'. induction n as [|n IH]; intros prev k rest k';
    cbn [walk].
  - intros H. injection H as <- <-. split; [reflexivity|constructor].
  - destruct (gaussRandom A random fuel k) as [[z k1]|] eqn:Hz; [|discriminate].
    destruct (walk A random mu sigma fuel n _ k1) as [[r k2]|] eqn:Hw;
      [|discriminate].
    intros H. injection H as <- <-.
    destruct (IH _ _ _ _ Hw) as [Hlen Hch]. split; [cbn; lia|].
    econstructor; eauto using gaussRandom_sample.
Qed.

Lemma generatePath_chain (fuel : nat) (S0 : num A) (days k : nat)
    (path : list (num A)) (k' : nat) :
  generatePath A random mu sigma fuel S0 days k = Some (path, k') ->
  length path = days /\
  ((1 <= days)%nat -> exists rest, path = S0 :: rest /\ chain k S0 rest k').
Proof.
  unfold generatePath. destruct days as [|n].
  - intros H. injection H as <- <-. split; [reflexivity|lia].
  - destruct (walk A random mu sigma fuel n S0 k) as [[rest k1]|] eqn:Hw;
      [|discriminate].
    intros H. injection H as <- <-.
    destruct (walk_chain _ _ _ _ _ _ Hw) as [Hlen Hch].
    split; [cbn; lia|]. intros _. eauto.
Qed.

End Path.

(** ** A source that never leaves zero

    The rejection loop has no other exit: on a source that returns zero at
    every draw from the cursor on, no amount of fuel makes it return. *)

Lemma draw_nonzero_stuck (fuel k : nat) :
  (forall j, (k <= j)%nat -> is_zero A (random j) = true) ->
  draw_nonzero A random fuel k = None.
Proof.
  revert k. induction fuel as [|fuel IH]; intros k Hz; cbn [draw_nonzero];
    [reflexivity|].
  rewrite (Hz k) by lia. apply IH. intros j Hj. apply Hz. lia.
Qed.

Lemma generatePath_stuck (mu sigma S0 : num A) (fuel days k : nat) :
  (forall j, (k <= j)%nat -> is_zero A (random j) = true) ->
  (2 <= days)%nat ->
  generatePath A random mu sigma fuel S0 days k = None.
Proof.
  intros Hz Hdays. destruct days as [|[|n]]; try lia.
  unfold generatePath. cbn [walk]. unfold gaussRandom.
  now rewrite (draw_nonzero_stuck fuel k Hz).
Qed.

(** ** Enough fuel exists on a fair source *)

Lemma draw_nonzero_mono (fuel fuel' k : nat) (r : num A * nat) :
  draw_nonzero A random fuel k = Some r -> (fuel <= fuel')%nat ->
  draw_nonzero A random fuel' k = Some r.
Proof.
  revert fuel' k. induction fuel as [|fuel IH]; intros fuel' k; cbn [draw_nonzero];
    [discriminate|].
  intros H Hle. destruct fuel' as [|fuel']; [lia|]. cbn [draw_nonzero].
  destruct (is_zero A (random k)); [|exact H].
  apply IH; [exact H|lia].
Qed.

Lemma draw_nonzero_within (j k : nat) :
  is_zero A (random (k + j)) = false ->
  exists r, draw_nonzero A random (S j) k = Some r.
Proof.
  revert k. induction j as [|j IH]; intros k Hj.
  - rewrite Nat.add_0_r in Hj. cbn [draw_nonzero]. rewrite Hj. eauto.
  - cbn [draw_nonzero]. destruct (is_zero A (random k)); [|eauto].
    apply (IH (S k)). now replace (S k + j)%nat with (k + S j)%nat by lia.
Qed.

Hypothesis Hfair : fair A random.

Lemma draw_nonzero_returns (k : nat) :
  exists fuel r, draw_nonzero A random fuel k = Some r.
Proof.
  destruct (Hfair k) as [j Hj]. exists (S j). now apply draw_nonzero_within.
Qed.

Lemma gaussRandom_mono (fuel fuel' k : nat) (r : num A * nat) :
  gaussRandom A random fuel k = Some r -> (fuel <= fuel')%nat ->
  gaussRandom A random fuel' k = Some r.
Proof.
  unfold gaussRandom. intros H Hle.
  destruct (draw_nonzero A random fuel k) as [[u k1]|] eqn:Hu; [|discriminate].
  rewrite (draw_nonzero_mono _ _ _ _ Hu Hle).
  destruct (draw_nonzero A random fuel k1) as [[v k2]|] eqn:Hv; [|discriminate].
  now rewrite (draw_nonzero_mono _ _ _ _ Hv Hle).
Qed.

Lemma gaussRandom_returns (k : nat) :
  exists fuel r, gaussRandom A random fuel k = Some r.
Proof.
  destruct (draw_nonzero_returns k) as (f1 & [u k1] & Hu).
  destruct (draw_nonzero_returns k1) as (f2 & [v k2] & Hv).
  exists (Nat.max f1 f2), (box_muller A u v, k2). unfold gaussRandom.
  rewrite (draw_nonzero_mono _ _ _ _ Hu (Nat.le_max_l f1 f2)).
  now rewrite (draw_nonzero_mono _ _ _ _ Hv (Nat.le_max_r f1 f2)).
Qed.

Section PathFuel.

Variables (mu sigma : num A).

Lemma walk_mono (fuel fuel' n : nat) (prev : num A) (k : nat)
    (r : list (num A) * nat) :
  walk A random mu sigma fuel n prev k = Some r -> (fuel <= fuel')%nat ->
  walk A random mu sigma fuel' n prev k = Some r.
Proof.
  revert prev k r. induction n as [|n IH]; intros prev k r; cbn [walk];
    [auto|].
  intros H Hle.
  destruct (gaussRandom A random fuel k) as [[z k1]|] eqn:Hz; [|discriminate].
  rewrite (gaussRandom_mono _ _ _ _ Hz Hle).
  destruct (walk A random mu sigma fuel n _ k1) as [[rest k2]|] eqn:Hw;
    [|discriminate].
  now rewrite (IH _ _ _ Hw Hle).
Qed.

Lemma walk_returns (n : nat) (prev : num A) (k : nat) :
  exists fuel r, walk A random mu sigma fuel n prev k = Some r.
Proof.
  revert prev k. induction n as [|n IH]; intros prev k.
  - exists 0%nat. cbn. eauto.
  - destruct (gaussRandom_returns k) as (f1 & [z k1] & Hz).
    destruct (IH (next_price A mu sigma prev z) k1) as (f2 & [rest k2] & Hw).
    exists (Nat.max f1 f2). cbn [walk].
    rewrite (gaussRandom_mono _ _ _ _ Hz (Nat.le_max_l f1 f2)).
    rewrite (walk_mono _ _ _ _ _ _ Hw (Nat.le_max_r f1 f2)). eauto.
Qed.

Lemma generatePath_mono (fuel fuel' : nat) (S0 : num A) (days k : nat)
    (r : list (num A) * nat) :
  generatePath A random mu sigma fuel S0 days k = Some r -> (fuel <= fuel')%nat ->
  generatePath A random mu sigma fuel' S0 days k = Some r.
Proof.
  unfold generatePath. destruct days as [|n]; [auto|]. intros H Hle.
  destruct (walk A random mu sigma fuel n S0 k) as [[rest k1]|] eqn:Hw;
    [|discriminate].
  now rewrite (walk_mono _ _ _ _ _ _ Hw Hle).
Qed.

Lemma generatePath_returns (S0 : num A) (days k : nat) :
  exists fuel r, generatePath A random mu sigma fuel S0 days k = Some r.
Proof.
  unfold generatePath. destruct days as [|n].
  - exists 0%nat. eauto.
  - destruct (walk_returns n S0 k) as (fuel & [rest k1] & Hw).
    exists fuel. rewrite Hw. eauto.
Qed.

Lemma generatePaths_returns (numPaths : nat) (S0 : num A) (days k : nat) :
  exists fuel paths k',
    generatePaths A random mu sigma fuel numPaths S0 days k = Some (paths, k') /\
    length paths = numPaths /\ Forall (fun p => length p = days) paths.
Proof.
  revert k. induction numPaths as [|n IH]; intros k.
  - exists 0%nat, [], k. cbn. auto.
  - destruct (generatePath_returns S0 days k) as (f1 & [p k1] & Hp).
    destruct (IH k1) as (f2 & ps & k2 & Hps & Hlen & Hall).
    assert (Hps' : generatePaths A random mu sigma (Nat.max f1 f2) n S0 days k1
                   = Some (ps, k2)).
    { clear - Hps. revert k1 ps k2 Hps.
      induction n as [|n IHn]; intros k1 ps k2; cbn [generatePaths]; [auto|].
      destruct (generatePath A random mu sigma f2 S0 days k1) as [[q j1]|] eqn:Hq;
        [|discriminate].
      rewrite (generatePath_mono _ _ _ _ _ _ Hq (Nat.le_max_r f1 f2)).
      destruct (generatePaths A random mu sigma f2 n S0 days j1) as [[qs j2]|] eqn:Hqs;
        [|discriminate].
      now rewrite (IHn _ _ _ Hqs). }
    exists (Nat.max f1 f2), (p :: ps), k2. cbn [generatePaths].
    rewrite (generatePath_mono _ _ _ _ _ _ Hp (Nat.le_max_l f1 f2)), Hps'.
    repeat split; [cbn; lia|]. constructor; [|exact Hall].
    now destruct (generatePath_chain _ _ _ _ _ _ _ _ Hp).
Qed.

End PathFuel.

End Generic.

End GeneratorFacts.

(* ================================================================== *)
(** * Facts about the acquisition strategy *)
(* ================================================================== *)

Module AcquireFacts.

Import JS Acquire.
Open Scope string_scope.

(** ** [CONFIGS[ticker] || CONFIGS.SPY] *)

Lemma resolve_own (tk : string) (c : Config) :
  assoc CONFIGS tk = Some c -> resolve tk = OwnConfig c.
Proof. unfold resolve, lookup. now intros ->. Qed.

(** A name that neither [CONFIGS] nor [Object.prototype] defines resolves
    to the SPY configuration. *)
Lemma resolve_default (tk : string) :
  assoc CONFIGS tk = None -> assoc Object_prototype tk = None ->
  resolve tk = OwnConfig SPY.
Proof. unfold resolve, lookup. now intros -> ->. Qed.

(** A name of [Object.prototype] resolves to what is inherited, never to
    the default. *)
Lemma resolve_inherited (tk : string) (f : option string) :
  assoc CONFIGS tk = None -> assoc Object_prototype tk = Some f ->
  resolve tk = Inherited f.
Proof. unfold resolve, lookup. now intros -> ->. Qed.

Section Strategy.

Variables (exp log cos : float -> float).

Definition doubles : Generator.arithmetic := Generator.Float64 exp log cos.

(** ** The mock data *)

Lemma generateMockData_returns (w : world) (k : nat) (tk : string) :
  Generator.fair doubles (random w) ->
  exists fuel r k',
    generateMockData exp log cos w fuel k tk = Some (Ok r, k') /\
    ticker r = tk /\
    name r = get_name (resolve tk) /\
    start_price r = get_price (resolve tk) /\
    n_steps r = 252%nat /\
    length (price_paths r) = VIZ_SAMPLE_COUNT.
Proof.
  intros Hfair. unfold generateMockData.
  destruct (GeneratorFacts.generatePaths_returns doubles (random w) Hfair
              (toNumber (get_mu (resolve tk))) (toNumber (get_sigma (resolve tk)))
              mock_numPaths (toNumber (get_price (resolve tk))) mock_days k)
    as (fuel & allPaths & k1 & Hgen & Hcount & Hlen).
  exists fuel. fold doubles. rewrite Hgen.
  assert (Hne : allPaths <> []).
  { intros ->. cbn in Hcount. unfold mock_numPaths in Hcount. discriminate. }
  assert (Hall : Forall (fun p : list float => p <> []) allPaths).
  { eapply Forall_impl; [|exact Hlen]. intros p Hp ->. cbn in Hp.
    unfold mock_days in Hp. discriminate. }
  destruct (EngineFacts.computeStats_returns (random w) k1 allPaths
              (get_price (resolve tk)) Hne Hall) as (v & cv & _ & _ & Hrun).
  rewrite Hrun. eexists. eexists. split; [reflexivity|].
  cbn [ticker name start_price n_steps price_paths]. repeat split.
  rewrite length_firstn, Hcount. reflexivity.
Qed.

(** ** The strategy never rejects *)

Lemma fetchSimulationResults_resolves (w : world) (k : nat) (tk : string) :
  Generator.fair doubles (random w) ->
  exists fuel r k',
    fetchSimulationResults exp log cos w fuel k tk = Some (Ok r, k').
Proof.
  intros Hfair. unfold fetchSimulationResults.
  destruct (fetchFull w tk) as [r|e1]; [exists 0%nat; eauto|].
  destruct (fetchRawPaths w k tk) as [[r|e2] k1]; [exists 0%nat; eauto|].
  destruct (generateMockData_returns w (S k1) tk Hfair) as (fuel & r & k' & H & _).
  eauto.
Qed.

(** The first attempt fails on every response that is not a 2xx status
    with a JSON object, and the second on these and on an empty path list or
    an empty first path. *)
Lemma fetchFull_fails (w : world) (tk : string) :
  (rich w = Rejected \/
   (exists status b, rich w = Response status b /\ ok status = false) \/
   (exists status, rich w = Response status NotJson) \/
   (exists status, rich w = Response status Null)) ->
  exists e, fetchFull w tk = Throw e.
Proof.
  unfold fetchFull.
  intros [->|[(status & b & -> & Hok)|[(status & ->)|(status & ->)]]].
  - eauto.
  - rewrite Hok. cbn. eauto.
  - destruct (ok status); cbn; eauto.
  - destruct (ok status); cbn; eauto.
Qed.

Lemma fetchRawPaths_fails (w : world) (k : nat) (tk : string) :
  (raw w = Rejected \/
   (exists status b, raw w = Response status b /\ ok status = false) \/
   (exists status, raw w = Response status NotJson) \/
   (exists status, raw w = Response status Null) \/
   (exists status, raw w = Response status (Json {| paths := None |})) \/
   (exists status, raw w = Response status (Json {| paths := Some [] |})) \/
   (exists status rest,
       raw w = Response status (Json {| paths := Some ([] :: rest) |}))) ->
  exists e, fetchRawPaths w k tk = (Throw e, k).
Proof.
  unfold fetchRawPaths.
  intros [->|[(status & b & -> & Hok)|[(status & ->)|[(status & ->)|
         [(status & ->)|[(status & ->)|(status & rest & ->)]]]]]].
  - eauto.
  - rewrite Hok. cbn. eauto.
  - destruct (ok status); cbn; eauto.
  - destruct (ok status); cbn; eauto.
  - destruct (ok status); cbn; eauto.
  - destruct (ok status); cbn; eauto.
  - destruct (ok status); cbn; eauto.
Qed.

(** ** The raw-paths attempt on a valid payload *)

Lemma fetchRawPaths_returns (w : world) (k : nat) (tk : string)
    (status : nat) (allPaths : list (list float)) :
  raw w = Response status (Json {| paths := Some allPaths |}) ->
  ok status = true ->
  allPaths <> [] -> Forall (fun p => p <> []) allPaths ->
  exists s0 st,
    hd_error (hd [] allPaths) = Some s0 /\
    Stats.computeStatsFromPaths (random w) k allPaths (Num s0)
    = (Ok st, (k + Stats.binCount)%nat) /\
    fetchRawPaths w k tk
    = (Ok {| ticker := tk;
             name := Some tk;
             start_price := Num s0;
             n_steps := length (hd [] allPaths);
             performance := raw_performance w;
             stats := st;
             price_paths := firstn VIZ_SAMPLE_COUNT allPaths |},
       (k + Stats.binCount)%nat).
Proof.
  intros Hraw Hok Hne Hall. unfold fetchRawPaths. rewrite Hraw, Hok.
  cbn [negb paths].
  destruct allPaths as [|p ps]; [congruence|].
  destruct p as [|s0 p]; [inversion Hall; congruence|].
  destruct (EngineFacts.computeStats_returns (random w) k _ (Num s0) Hne Hall)
    as (v & cv & _ & _ & Hrun).
  exists s0. eexists. split; [reflexivity|]. split; [exact Hrun|].
  cbv zeta. now rewrite Hrun.
Qed.

End Strategy.

End AcquireFacts.

(* ================================================================== *)
(** * The claims about the statistics engine *)
(* ================================================================== *)

Module EngineClaims.

Import JS Stats Scenario EngineFacts.
Open Scope float_scope.

(** Two doubles differ when [==] tells them apart from a number equal to
    the first. *)
Ltac floats_differ c :=
  let H := fresh in
  intros H;
  apply (f_equal (fun o => match o with
                           | Some x => PrimFloat.eqb x c
                           | None => false
                           end)) in H;
  vm_compute in H; discriminate H.

(** ** C2 *)

(** C2, as stated, fails: two calls on the same fifty paths, the second
    from the cursor the first left, return different comparison series
    (the first bin holds 48 after the first call and 50 after the second). *)
Lemma stats_twice_differ :
  option_map (fun st => cpu_counts (histogram_data st))
    (returned (computeStatsFromPaths two_phase 0 fifty_paths (Num 100)))
  <> option_map (fun st => cpu_counts (histogram_data st))
       (returned (computeStatsFromPaths two_phase
                    (snd (computeStatsFromPaths two_phase 0 fifty_paths (Num 100)))
                    fifty_paths (Num 100))).
Proof.
  intros H.
  apply (f_equal (fun o => match o with
                           | Some (x :: _) => PrimFloat.eqb x 48
                           | _ => false
                           end)) in H.
  vm_compute in H. discriminate H.
Qed.

(** C2, amended: two calls on the same ensemble and start price, whatever
    the random source and its cursor at each call, either both throw the
    same error or both return, with the same risk statistics, bin edges,
    primary counts and drawdown distribution; the comparison counts are the
    same as well whenever the 24 draws of the two calls are. *)
Theorem stats_reproducible (r1 r2 : random_source) (k1 k2 : nat)
    (paths : list (list float)) (startPrice : value) :
  match fst (computeStatsFromPaths r1 k1 paths startPrice),
        fst (computeStatsFromPaths r2 k2 paths startPrice) with
  | Ok a, Ok b =>
      risk_statistics a = risk_statistics b /\
      bin_edges (histogram_data a) = bin_edges (histogram_data b) /\
      fpga_counts (histogram_data a) = fpga_counts (histogram_data b) /\
      drawdown_distribution a = drawdown_distribution b /\
      ((forall i, (i < binCount)%nat -> r1 (k1 + i)%nat = r2 (k2 + i)%nat) ->
       a = b)
  | Throw e1, Throw e2 => e1 = e2
  | _, _ => False
  end.
Proof.
  rewrite !computeStats_unfold. destruct paths as [|p ps]; [reflexivity|].
  destruct (var95 (p :: ps)) as [v|]; [|reflexivity].
  destruct (cvar95 (p :: ps)) as [cv|]; [|reflexivity].
  cbn [fst]. repeat split.
  intros Hdraws. unfold result_of. do 2 f_equal.
  apply HistogramFacts.cpuCounts_ext.
  now rewrite HistogramFacts.fpgaCounts_length.
Qed.

(** ** C3 and C9 *)

(** C3, as stated, fails: on twenty paths of which one ends at 1 and
    nineteen at 2, the index is 1 and the mean of the sorted prices at
    indices 0 and 1 is 1.5, while the engine returns 1.95, the mean of all
    twenty (each is at most [var95 = 2]). *)
Lemma cvar_is_not_the_index_mean :
  option_map (fun st => conditional_value_at_risk_95 (risk_statistics st))
    (returned (computeStatsFromPaths two_phase 0 tied_paths (Num 1)))
  <> Some (cvar95_by_index tied_paths).
Proof. floats_differ 1.95. Qed.


Lemma three_paths_ensemble : ensemble 5 three_paths.
Proof.
  unfold ensemble, three_paths. split; [discriminate|]. split; [lia|].
  split; repeat constructor.
Qed.


(** C3, amended: in an ensemble of N paths the call returns;
    [value_at_risk_95] is the element at index [floor(0.05 * N)] of the
    ascending-sorted final prices, rounded to two decimals, and
    [conditional_value_at_risk_95] is the mean, rounded to two decimals, of
    all sorted final prices whose value is at most that element (a filter by
    value, which is never empty). *)
Theorem var_and_cvar (days : nat) (paths : list (list float))
    (startPrice : value) (random : random_source) (k : nat) :
  ensemble days paths ->
  exists v st k',
    get_value (sorted paths) (index_005 (length paths)) = Num v /\
    computeStatsFromPaths random k paths startPrice = (Ok st, k') /\
    value_at_risk_95 (risk_statistics st) = parseFloat_toFixed 2 v /\
    let tail := filter (fun p => le p (Num v)) (sorted paths) in
    tail <> [] /\
    conditional_value_at_risk_95 (risk_statistics st)
    = parseFloat_toFixed 2 (sum_values tail / of_nat (length tail)).
Proof.
  intros E.
  destruct (computeStats_returns random k paths startPrice)
    as (v & cv & Hv & Hcv & Hrun);
    [apply E|eapply ensemble_nonempty, E|].
  destruct (cvar95_is_mean _ _ E) as (Hne & _ & Hmean).
  exists v. eexists. eexists. split; [|split; [exact Hrun|]].
  - unfold var95 in Hv. now rewrite StatsFacts.sorted_length in Hv.
  - cbn [result_of risk_statistics value_at_risk_95 conditional_value_at_risk_95].
    split; [reflexivity|]. unfold cvarValues in Hne, Hmean. rewrite Hv in Hne, Hmean.
    split; [exact Hne|]. rewrite Hcv in Hmean. now injection Hmean as ->.
Qed.

Lemma var_and_cvar_witness :
  ensemble 5 three_paths /\
  exists st k',
    computeStatsFromPaths two_phase 0 three_paths (Num 100) = (Ok st, k').
Proof.
  split; [exact three_paths_ensemble|].
  destruct (var_and_cvar 5 three_paths (Num 100) two_phase 0 three_paths_ensemble)
    as (v & st & k' & _ & Hrun & _).
  exists st, k'. exact Hrun.
Defined.


(** ** C5 *)

(** C5: for an array of N paths of one length [days >= 2] the call
    returns, and its drawdown distribution has five buckets, the four
    half-open ranges [i * ddStep <= dd < (i + 1) * ddStep] for [i = 0 .. 3]
    and the open-ended [4 * ddStep <= dd], with
    [ddStep = max 1 ((days - 1) / 5)], labelled ["lo-hid"] and ["lod+"]; each
    count is the number of paths whose longest drawdown run lies in the
    bucket, and the counts add up to N. *)
Theorem drawdown_buckets (days : nat) (paths : list (list float))
    (startPrice : value) (random : random_source) (k : nat) :
  paths <> [] -> (2 <= days)%nat -> Forall (fun p => length p = days) paths ->
  exists st k',
    computeStatsFromPaths random k paths startPrice = (Ok st, k') /\
    let s := Nat.max 1 ((days - 1) / 5) in
    let dds := map (maxDrawdown days startPrice) paths in
    let count := fun lo hi =>
      length (filter (fun dd => (lo <=? dd)%nat && (dd <? hi)%nat) dds) in
    let label := fun lo hi => (decimal lo ++ "-" ++ decimal hi ++ "d")%string in
    dd_bin_edges (drawdown_distribution st)
    = [ label 0%nat s; label s (2 * s)%nat; label (2 * s)%nat (3 * s)%nat;
        label (3 * s)%nat (4 * s)%nat; (decimal (4 * s) ++ "d+")%string ] /\
    dd_counts (drawdown_distribution st)
    = [ count 0%nat s; count s (2 * s)%nat; count (2 * s)%nat (3 * s)%nat;
        count (3 * s)%nat (4 * s)%nat;
        length (filter (fun dd => (4 * s <=? dd)%nat) dds) ] /\
    list_sum (dd_counts (drawdown_distribution st)) = length paths.
Proof.
  intros Hne Hdays Hlen.
  assert (Hall : Forall (fun p => p <> []) paths).
  { eapply Forall_impl; [|exact Hlen]. intros p Hp ->. cbn in Hp. lia. }
  assert (Hhd : length (hd [] paths) = days).
  { destruct paths as [|p ps]; [congruence|]. now inversion Hlen. }
  destruct (computeStats_returns random k paths startPrice Hne Hall)
    as (v & cv & _ & _ & Hrun).
  eexists. eexists. split; [exact Hrun|]. cbv zeta.
  cbn [result_of drawdown_distribution dd_counts dd_bin_edges]. rewrite Hhd.
  split; [|split].
  - unfold ddLabels, ddStep. cbn [seq map Nat.eqb].
    repeat (f_equal; try lia).
  - unfold ddCounts, maxDrawdowns. rewrite Hhd, DrawdownFacts.ddBinEdges_eq.
    cbv zeta. unfold ddStep. cbn [map].
    do 4 (apply f_equal2; [reflexivity|]). apply f_equal2; [|reflexivity].
    f_equal. apply filter_ext. intros dd. cbn [in_bucket]. apply andb_true_r.
  - rewrite DrawdownFacts.ddCounts_sum. unfold maxDrawdowns. apply length_map.
Qed.

Lemma drawdown_buckets_witness :
  exists st k',
    computeStatsFromPaths two_phase 0 three_paths (Num 100) = (Ok st, k') /\
    list_sum (dd_counts (drawdown_distribution st)) = 3%nat.
Proof.
  destruct (drawdown_buckets 5 three_paths (Num 100) two_phase 0)
    as (st & k' & Hrun & _ & _ & Hsum).
  - discriminate.
  - lia.
  - repeat constructor.
  - exists st, k'. split; [exact Hrun|exact Hsum].
Defined.

(** ** C7 *)

(** C7, as stated, fails: the first path of the scenario stays below 100
    at all four steps 1 .. 4 (90, 90, 90, 95), so its run is 4, not 3. *)
Lemma scenario_runs_are_not_3_0_1 :
  maxDrawdowns three_paths (Num 100) <> [3; 0; 1]%nat.
Proof. vm_compute. discriminate. Qed.

(** C7, amended: for every path the engine's drawdown run is the length of
    the longest unbroken stretch of steps among [1 .. days - 1] at which the
    price is below the start price (no stretch is longer, one of that length
    exists); on the three paths of the scenario with start price 100 the
    runs are [4, 0, 1], and [probability_of_profit] is 66.7. *)
Theorem drawdown_runs :
  (forall (days : nat) (startPrice : value) (p : list float),
      (forall a len, (1 <= a)%nat -> (a + len <= S (days - 1))%nat ->
                     DrawdownFacts.run p startPrice a len ->
                     (len <= maxDrawdown days startPrice p)%nat) /\
      (exists a, (1 <= a)%nat /\
                 (a + maxDrawdown days startPrice p <= S (days - 1))%nat /\
                 DrawdownFacts.run p startPrice a (maxDrawdown days startPrice p))) /\
  maxDrawdowns three_paths (Num 100) = [4; 0; 1]%nat /\
  forall (random : random_source) (k : nat),
    option_map (fun st => probability_of_profit (risk_statistics st))
      (returned (computeStatsFromPaths random k three_paths (Num 100)))
    = Some 66.7.
Proof.
  split; [|split].
  - intros days startPrice p. apply DrawdownFacts.maxDrawdown_longest_run.
  - vm_compute. reflexivity.
  - intros random k. rewrite computeStats_unfold. unfold returned.
    replace (var95 three_paths) with (Num 95) by (vm_compute; reflexivity).
    replace (cvar95 three_paths) with (Num 95) by (vm_compute; reflexivity).
    cbn [fst result_of option_map risk_statistics probability_of_profit].
    f_equal. vm_compute. reflexivity.
Qed.

(** ** C6 and C10 *)

(** Sorting equal prices changes nothing. *)
Lemma sort_numbers_repeat (x : float) (n : nat) :
  PrimFloat.ltb 0 (compareFn x x) = false ->
  sort_numbers (repeat x n) = repeat x n.
Proof.
  intros Hx. induction n as [|n IH]; [reflexivity|].
  change (sort_numbers (repeat x (S n))) with (insert x (sort_numbers (repeat x n))).
  rewrite IH. destruct n as [|n]; [reflexivity|].
  cbn [repeat insert]. now rewrite Hx.
Qed.

Lemma sorted_flat_paths (n : nat) :
  sorted (flat_paths n) = repeat (Num 100) n.
Proof.
  unfold sorted, finalPrices, flat_paths. rewrite map_repeat.
  change (get [100; 100] (length [100; 100] - 1)) with (Num 100).
  unfold sort.
  replace (numbers (repeat (Num 100) n)) with (repeat 100 n)
    by (induction n as [|n IH]; [reflexivity|cbn [repeat]; now rewrite IH]).
  replace (undefineds (repeat (Num 100) n)) with (@nil value)
    by (induction n as [|n IH]; [reflexivity|exact IH]).
  rewrite sort_numbers_repeat by (vm_compute; reflexivity).
  now rewrite map_repeat, app_nil_r.
Qed.

Lemma flat_paths_trim (n : nat) :
  trimLow (flat_paths (S n)) = Num 100 /\ trimHigh (flat_paths (S n)) = Num 100.
Proof.
  unfold trimLow, trimHigh, get_value. rewrite sorted_flat_paths, repeat_length.
  split; apply nth_repeat_lt.
  - apply StatsFacts.index_002_lt. lia.
  - apply StatsFacts.index_098_lt. lia.
Qed.

(** The histogram of [n + 1] paths that all end at 100. *)
Lemma flat_paths_histogram (n : nat) :
  binWidth (flat_paths (S n)) = 0 /\
  Forall (fun p => HistogramFacts.outside (trimLow (flat_paths (S n)))
                     (trimHigh (flat_paths (S n))) p = false /\
                   is_nan ((toNumber p - toNumber (trimLow (flat_paths (S n))))
                           / binWidth (flat_paths (S n))) = true)
         (finalPrices (flat_paths (S n))) /\
  fpgaCounts (flat_paths (S n)) = repeat 0%nat binCount.
Proof.
  destruct (flat_paths_trim n) as [Hlo Hhi].
  assert (Hw : binWidth (flat_paths (S n)) = 0).
  { unfold binWidth. rewrite Hlo, Hhi. vm_compute. reflexivity. }
  split; [exact Hw|]. unfold fpgaCounts. rewrite Hw, Hlo, Hhi.
  assert (Hfin : finalPrices (flat_paths (S n)) = repeat (Num 100) (S n)).
  { unfold finalPrices, flat_paths. now rewrite map_repeat. }
  rewrite Hfin. split.
  - apply Forall_forall. intros p Hp. apply repeat_spec in Hp. subst p.
    split; vm_compute; reflexivity.
  - generalize (S n). intros m. induction m as [|m IH]; [reflexivity|].
    cbn [repeat fold_left].
    replace (histogram_step (Num 100) (Num 100) 0 (repeat 0%nat binCount) (Num 100))
      with (repeat 0%nat binCount) by (vm_compute; reflexivity).
    exact IH.
Qed.

(** C10: whenever the two ends of the trimmed range are the same value,
    the bin index of every final price that the loop keeps is a division by
    the zero (or NaN) bin width, a NaN, and all 24 counts stay 0.  This
    happens on valid ensembles: the [n + 1] paths that all end at 100 form
    one, its trimmed range is the single price 100, its bin width is zero,
    none of its [n + 1] final prices is outside the trimmed range, and
    its counts add up to 0. *)
Theorem zero_width_histogram :
  (forall paths : list (list float),
      trimLow paths = trimHigh paths ->
      fpgaCounts paths = repeat 0%nat binCount /\
      list_sum (fpgaCounts paths) = 0%nat /\
      forall p, HistogramFacts.outside (trimLow paths) (trimHigh paths) p = false ->
                (toNumber p - toNumber (trimLow paths)) / binWidth paths = nan) /\
  (forall n : nat,
      ensemble 2 (flat_paths (S n)) /\
      trimLow (flat_paths (S n)) = trimHigh (flat_paths (S n)) /\
      binWidth (flat_paths (S n)) = 0 /\
      Forall (fun p => HistogramFacts.outside (trimLow (flat_paths (S n)))
                         (trimHigh (flat_paths (S n))) p = false)
             (finalPrices (flat_paths (S n))) /\
      list_sum (fpgaCounts (flat_paths (S n))) = 0%nat /\
      length (flat_paths (S n)) = S n).
Proof.
  split.
  - intros paths H.
    pose proof (HistogramFacts.fpgaCounts_zero_width paths H) as Hc.
    split; [exact Hc|]. split; [rewrite Hc; apply HistogramFacts.list_sum_repeat_0|].
    intros p Hp. unfold binWidth. rewrite <- H.
    unfold HistogramFacts.outside in Hp. rewrite <- H in Hp.
    apply orb_false_iff in Hp. destruct Hp as [Hlt Hgt].
    replace (of_nat binCount) with 24 by (vm_compute; reflexivity).
    now apply JSFacts.zero_width_quotient.
  - intros n. destruct (flat_paths_trim n) as [Hlo Hhi].
    destruct (flat_paths_histogram n) as (Hw & Hin & Hcounts).
    split; [|split; [congruence|split; [exact Hw|split; [|split]]]].
    + unfold ensemble, flat_paths. split; [discriminate|]. split; [lia|].
      split; apply Forall_forall; intros p Hp; apply repeat_spec in Hp; subst p.
      * reflexivity.
      * repeat constructor.
    + eapply Forall_impl; [|exact Hin]. now intros p [Hp _].
    + rewrite Hcounts. apply HistogramFacts.list_sum_repeat_0.
    + apply repeat_length.
Qed.

(** C6 fails on the code at every single path: its final price is the
    whole trimmed range, so it is not outside it, and yet no bin counts it;
    the counts add up to 0 and not to 1. *)
Theorem single_path_is_not_counted (p : list float) (startPrice : value)
    (random : random_source) (k : nat) :
  p <> [] ->
  exists x st k',
    finalPrices [p] = [Num x] /\
    HistogramFacts.outside (trimLow [p]) (trimHigh [p]) (Num x) = false /\
    computeStatsFromPaths random k [p] startPrice = (Ok st, k') /\
    fpga_counts (histogram_data st) = repeat 0%nat 24 /\
    list_sum (fpga_counts (histogram_data st)) = 0%nat /\
    length [p] = 1%nat.
Proof.
  intros Hp.
  destruct (StatsFacts.get_last p Hp) as (x & Hx & _).
  destruct (computeStats_returns random k [p] startPrice) as (v & cv & _ & _ & Hrun);
    [discriminate|repeat constructor; exact Hp|].
  pose proof (HistogramFacts.fpgaCounts_zero_width [p]
                (HistogramFacts.single_path_trim p)) as Hc.
  exists x. eexists. eexists.
  split; [unfold finalPrices; cbn [map]; now rewrite Hx|].
  split; [|split; [exact Hrun|]].
  - assert (Hlo : trimLow [p] = Num x).
    { unfold trimLow, sorted, finalPrices. cbn [map]. rewrite Hx. reflexivity. }
    rewrite <- (HistogramFacts.single_path_trim p), Hlo.
    unfold HistogramFacts.outside, lt, gt. cbn [toNumber].
    now rewrite JSFacts.ltb_irrefl.
  - cbn [result_of histogram_data fpga_counts]. rewrite Hc.
    split; [reflexivity|]. split; [apply HistogramFacts.list_sum_repeat_0|reflexivity].
Qed.

Lemma single_path_is_not_counted_witness :
  exists st k',
    computeStatsFromPaths two_phase 0 single_path (Num 100) = (Ok st, k') /\
    list_sum (fpga_counts (histogram_data st)) = 0%nat.
Proof.
  destruct (single_path_is_not_counted [100; 100] (Num 100) two_phase 0)
    as (x & st & k' & _ & _ & Hrun & _ & Hsum & _).
  - discriminate.
  - exists st, k'. split; [exact Hrun|exact Hsum].
Defined.

(** What does hold of the histogram, on every array of paths: there are 24
    bins and 25 edges; the counts add up to at most N; a price the loop
    skips changes no bin; and when the counts do add up to N, no final
    price is outside the trimmed range. *)
Lemma histogram_counts (paths : list (list float)) :
  length (fpgaCounts paths) = 24%nat /\
  length (binEdges paths) = 25%nat /\
  (list_sum (fpgaCounts paths) <= length paths)%nat /\
  (forall counts p,
      HistogramFacts.outside (trimLow paths) (trimHigh paths) p = true ->
      histogram_step (trimLow paths) (trimHigh paths) (binWidth paths) counts p
      = counts) /\
  (list_sum (fpgaCounts paths) = length paths ->
   Forall (fun p => HistogramFacts.outside (trimLow paths) (trimHigh paths) p = false)
          (finalPrices paths)).
Proof.
  split; [apply HistogramFacts.fpgaCounts_length|].
  split; [unfold binEdges; now rewrite length_map, length_seq|].
  split; [apply HistogramFacts.fpgaCounts_sum_le|].
  split; [intros counts p; apply HistogramFacts.histogram_step_outside|].
  apply HistogramFacts.fpgaCounts_sum_eq.
Qed.

End EngineClaims.

(* ================================================================== *)
(** * The claim about the path generator *)
(* ================================================================== *)

Module GeneratorClaims.

Import Generator GeneratorFacts Scenario.

(** ** In doubles *)

(** Adding anything to minus infinity gives minus infinity or NaN. *)
Lemma neg_infinity_plus (y : float) :
  PrimFloat.add neg_infinity y = neg_infinity \/
  PrimFloat.add neg_infinity y = nan.
Proof.
  assert (H : Prim2SF (PrimFloat.add neg_infinity y) = S754_infinity true \/
              Prim2SF (PrimFloat.add neg_infinity y) = S754_nan).
  { rewrite add_spec. change (Prim2SF neg_infinity) with (S754_infinity true).
    destruct (Prim2SF y) as [s|[|]| |s m e]; cbn; auto. }
  destruct H as [H|H]; [left|right]; apply Prim2SF_inj; rewrite H; reflexivity.
Qed.

(** With [sigma = 1e200] the drift is minus infinity ([sigma * sigma]
    overflows), so whatever the sample the exponent is minus infinity or NaN
    and the first generated price is 0 or NaN. *)
Lemma overflowing_sigma_price (exp log cos : float -> float) (z : float) :
  ecma_exp exp ->
  PrimFloat.ltb 0
    (next_price (Float64 exp log cos) 0%float 1e200%float 100%float z) = false.
Proof.
  intros [Hnan Hinf]. unfold next_price. cbn [mul add Math_exp Float64].
  replace (drift (Float64 exp log cos) 0%float 1e200%float) with neg_infinity
    by (vm_compute; reflexivity).
  destruct (neg_infinity_plus
              (PrimFloat.mul (vol (Float64 exp log cos) 1e200%float) z)) as [->| ->].
  - rewrite Hinf. vm_compute. reflexivity.
  - rewrite Hnan. vm_compute. reflexivity.
Qed.

Lemma overflowing_sigma_path (exp log cos : float -> float)
    (random : nat -> float) (fuel k : nat) (path : list float) (k' : nat) :
  ecma_exp exp ->
  generatePath (Float64 exp log cos) random 0%float 1e200%float fuel 100%float 2 k
  = Some (path, k') ->
  exists x, path = [100%float; x] /\ PrimFloat.ltb 0 x = false.
Proof.
  intros Hexp Hrun.
  destruct (generatePath_chain _ _ _ _ _ _ _ _ _ _ Hrun) as [Hlen Hch].
  destruct Hch as (rest & -> & Hch); [lia|].
  inversion Hch as [|k0 k1 k2 prev z rest' Hs Hch' Ek Eprev Erest Ek']; subst.
  - cbn in Hlen. lia.
  - inversion Hch'; subst; [|cbn in Hlen; lia].
    eexists. split; [reflexivity|]. now apply overflowing_sigma_price.
Qed.

Lemma exp_at_limits_ecma : ecma_exp exp_at_limits.
Proof. split; reflexivity. Qed.

(** On a random source that returns 0 for ever the first rejection loop
    never ends: the call returns for no number of draws. *)
Lemma zero_source_never_returns (exp log cos : float -> float)
    (mu sigma S0 : float) (fuel k : nat) :
  generatePath (Float64 exp log cos) (fun _ => 0%float) mu sigma fuel S0 2 k = None.
Proof. apply generatePath_stuck; [reflexivity|lia]. Qed.

(** C8, as stated, fails in doubles: [generatePath(100, 2, 0, 1e200)]
    returns [[100, x]] with [x] equal to 0 or NaN, not a positive price. *)
Lemma generated_price_not_positive :
  ~ (forall (exp log cos : float -> float) (random : nat -> float)
            (S0 mu sigma : float) (days : nat),
        ecma_exp exp ->
        fair (Float64 exp log cos) random ->
        PrimFloat.ltb 0 S0 = true -> (2 <= days)%nat ->
        PrimFloat.ltb 0 sigma = true ->
        exists fuel path k',
          generatePath (Float64 exp log cos) random mu sigma fuel S0 days 0
          = Some (path, k') /\
          length path = days /\ nth_error path 0 = Some S0 /\
          Forall (positive (Float64 exp log cos)) path).
Proof.
  intros H.
  destruct (H exp_at_limits (fun x => x) (fun x => x) (fun _ => 0.5%float)
              100%float 0%float 1e200%float 2%nat exp_at_limits_ecma)
    as (fuel & path & k' & Hrun & _ & _ & Hpos).
  - intros k. exists 0%nat. reflexivity.
  - reflexivity.
  - lia.
  - reflexivity.
  - destruct (overflowing_sigma_path _ _ _ _ _ _ _ _ exp_at_limits_ecma Hrun)
      as (x & -> & Hx).
    inversion Hpos as [|a l Ha Hl]; subst. inversion Hl as [|b l' Hb Hl']; subst.
    cbn in Hb. congruence.
Qed.

End GeneratorClaims.

(* ================================================================== *)
(** * The claims about the acquisition strategy *)
(* ================================================================== *)

Module AcquireClaims.

Import JS Acquire AcquireFacts Scenario.
Open Scope string_scope.

Lemma half_is_fair (exp log cos : float -> float) :
  Generator.fair (Generator.Float64 exp log cos) (fun _ => 0.5%float).
Proof. intros k. exists 0%nat. reflexivity. Qed.

(** ** C4 *)

(** C4, as stated, fails: the fast timing is not the measured latency
    clamped to at least 1.  With the rich endpoint answering 404 and the
    raw-paths endpoint one valid path 12.4 ms after the request, the
    clamped latency is 12.4 and the fast timing of the result is 12: the
    latency is rounded first. *)
Lemma fast_timing_is_rounded :
  exists r k',
    fetchSimulationResults (fun x => x) (fun x => x) (fun x => x)
      rich_404_raw_200 0 0 "SPY" = Some (Ok r, k') /\
    Math_max 1 (apiTime rich_404_raw_200) = 12.4%float /\
    fpga_time_ms (performance r) = 12%float /\
    fpga_time_ms (performance r) <> Math_max 1 (apiTime rich_404_raw_200).
Proof.
  destruct (fetchRawPaths_returns rich_404_raw_200 0 "SPY" 200 single_path
              eq_refl eq_refl ltac:(discriminate)
              ltac:(repeat constructor; discriminate))
    as (s0 & st & _ & _ & Hrun).
  do 2 eexists. split.
  - unfold fetchSimulationResults.
    change (fetchFull rich_404_raw_200 "SPY") with (@Throw CanonicalResult (HttpStatus 404)).
    rewrite Hrun. reflexivity.
  - cbn [performance raw_performance fpga_time_ms].
    assert (Hclamp : Math_max 1 (apiTime rich_404_raw_200) = 12.4%float)
      by (vm_compute; reflexivity).
    assert (Hfast : of_Z (fpgaTime rich_404_raw_200) = 12%float)
      by (vm_compute; reflexivity).
    rewrite Hclamp, Hfast. split; [reflexivity|]. split; [reflexivity|].
    intros H. apply (f_equal (fun x => PrimFloat.eqb x 12)) in H.
    vm_compute in H. discriminate H.
Qed.

(** C4, amended: when the rich attempt fails and the raw-paths endpoint
    answers a 2xx status with a non-empty array of non-empty paths, the
    strategy resolves with the result of that attempt: the statistics are
    what [computeStatsFromPaths] returns on the whole array with the first
    price of the first path as start price, the sample is the first 35
    paths, the fast timing is the latency rounded to the nearest integer and
    then clamped to at least 1, and the slow timing is 15 times the fast
    one. *)
Theorem raw_paths_fallback (exp log cos : float -> float) (w : world)
    (fuel k : nat) (tk : string) (e : error) (status : nat)
    (allPaths : list (list float)) :
  fetchFull w tk = Throw e ->
  raw w = Response status (Json {| paths := Some allPaths |}) ->
  ok status = true ->
  allPaths <> [] -> Forall (fun p => p <> []) allPaths ->
  exists r s0 st k',
    fetchSimulationResults exp log cos w fuel k tk = Some (Ok r, k') /\
    hd_error (hd [] allPaths) = Some s0 /\
    Stats.computeStatsFromPaths (random w) k allPaths (Num s0) = (Ok st, k') /\
    stats r = st /\
    start_price r = Num s0 /\
    price_paths r = firstn 35 allPaths /\
    let fast := Z.max 1 (Math_round_Z (apiTime w)) in
    fpga_time_ms (performance r) = of_Z fast /\
    cpu_time_ms (performance r) = of_Z (15 * fast).
Proof.
  intros Hfull Hraw Hok Hne Hall.
  destruct (fetchRawPaths_returns w k tk status allPaths Hraw Hok Hne Hall)
    as (s0 & st & Hs0 & Hstats & Hrun).
  unfold fetchSimulationResults. rewrite Hfull, Hrun.
  eexists. exists s0, st. eexists. split; [reflexivity|].
  split; [exact Hs0|]. split; [exact Hstats|].
  cbn [stats start_price price_paths performance raw_performance
       fpga_time_ms cpu_time_ms].
  repeat split. unfold cpuTime, fpgaTime. f_equal. lia.
Qed.

Lemma raw_paths_fallback_witness :
  exists r k',
    fetchSimulationResults (fun x => x) (fun x => x) (fun x => x)
      rich_404_raw_200 0 0 "SPY" = Some (Ok r, k') /\
    fpga_time_ms (performance r) = 12%float /\
    cpu_time_ms (performance r) = 180%float.
Proof.
  destruct (raw_paths_fallback (fun x => x) (fun x => x) (fun x => x)
              rich_404_raw_200 0 0 "SPY" (HttpStatus 404) 200
              single_path)
    as (r & s0 & st & k' & Hrun & _ & _ & _ & _ & _ & Hfast & Hslow).
  - reflexivity.
  - reflexivity.
  - reflexivity.
  - discriminate.
  - repeat constructor. discriminate.
  - exists r, k'. split; [exact Hrun|]. split.
    + rewrite Hfast. vm_compute. reflexivity.
    + rewrite Hslow. vm_compute. reflexivity.
Defined.

(** ** C1 *)

(** What holds of C1: on a random source whose rejection loops end, the
    strategy resolves, whatever the two endpoints answer and whatever the
    ticker; and a ticker that is no property of [CONFIGS], own or inherited,
    gets the SPY configuration. *)
Lemma strategy_resolves (exp log cos : float -> float) (w : world)
    (k : nat) (tk : string) :
  Generator.fair (Generator.Float64 exp log cos) (random w) ->
  (exists fuel r k',
      fetchSimulationResults exp log cos w fuel k tk = Some (Ok r, k')) /\
  (assoc CONFIGS tk = None -> assoc Object_prototype tk = None ->
   getTickerConfig tk = OwnConfig SPY).
Proof.
  intros Hfair. split.
  - now apply fetchSimulationResults_resolves.
  - apply resolve_default.
Qed.

(** C1 fails on the code at the ticker ["constructor"]: it is not a known
    ticker, yet [CONFIGS["constructor"]] is the inherited [Object] function,
    which is truthy, so the default is not taken; with the backend down the
    strategy resolves with a result named ["Object"] whose start price is
    [undefined]. *)
Theorem inherited_ticker_is_not_defaulted (exp log cos : float -> float)
    (w : world) (k : nat) :
  Generator.fair (Generator.Float64 exp log cos) (random w) ->
  rich w = Rejected -> raw w = Rejected ->
  assoc CONFIGS "constructor" = None /\
  getTickerConfig "constructor" <> OwnConfig SPY /\
  exists fuel r k',
    fetchSimulationResults exp log cos w fuel k "constructor" = Some (Ok r, k') /\
    name r = Some "Object" /\
    start_price r = Undefined.
Proof.
  intros Hfair Hrich Hraw. split; [reflexivity|]. split; [discriminate|].
  unfold fetchSimulationResults, fetchFull, fetchRawPaths. rewrite Hrich, Hraw.
  destruct (generateMockData_returns exp log cos w (S k) "constructor" Hfair)
    as (fuel & r & k' & Hrun & _ & Hname & Hprice & _).
  exists fuel, r, k'. split; [exact Hrun|]. split; assumption.
Qed.

Lemma inherited_ticker_is_not_defaulted_witness :
  exists fuel r k',
    fetchSimulationResults (fun x => x) (fun x => x) (fun x => x)
      unreachable fuel 0 "constructor" = Some (Ok r, k') /\
    start_price r = Undefined.
Proof.
  destruct (inherited_ticker_is_not_defaulted (fun x => x) (fun x => x)
              (fun x => x) unreachable 0)
    as (_ & _ & fuel & r & k' & Hrun & _ & Hprice).
  - apply half_is_fair.
  - reflexivity.
  - reflexivity.
  - exists fuel, r, k'. split; [exact Hrun|exact Hprice].
Defined.

End AcquireClaims.

(* ================================================================== *)
(** * Rounding to a double: the shape of the result *)
(* ================================================================== *)

Module RoundFacts.

Import JS Stats RoundingFacts.
Local Open Scope Z_scope.

(** The quotient a run of [shr_1] leaves, whatever the flags it starts
    from. *)
Lemma shr_m_iter (m : Z) (r s : bool) (j : nat) :
  0 <= m ->
  shr_m (Nat.iter j shr_1 {| shr_m := m; shr_r := r; shr_s := s |})
  = m / 2 ^ Z.of_nat j.
Proof.
  intros Hm. induction j as [|j IH].
  - cbn [Nat.iter shr_m]. change (2 ^ Z.of_nat 0) with 1. now rewrite Z.div_1_r.
  - rewrite Nat.iter_succ.
    destruct (Nat.iter j shr_1 _) as [mj rj sj]. cbn [shr_m] in IH.
    assert (Hmj : 0 <= mj)
      by (subst mj; apply Z.div_pos; [lia|apply Z.pow_pos_nonneg; lia]).
    rewrite shr_1_spec by exact Hmj. cbn [shr_m].
    rewrite Nat2Z.inj_succ, Z.pow_succ_r by lia.
    subst mj. rewrite Z.div_div by (try apply Z.pow_pos_nonneg; lia).
    f_equal. lia.
Qed.

Lemma shr_record_of_loc_m (m : Z) (l : location) :
  exists r s, shr_record_of_loc m l = {| shr_m := m; shr_r := r; shr_s := s |}.
Proof. destruct l as [|[]]; cbn; eauto. Qed.

(** [shr] by [n] places: the quotient by [2^(max 0 n)]. *)
Lemma shr_spec (m : Z) (l : location) (e n : Z) :
  0 <= m ->
  shr_m (fst (shr (shr_record_of_loc m l) e n)) = m / 2 ^ Z.max 0 n /\
  snd (shr (shr_record_of_loc m l) e n) = e + Z.max 0 n.
Proof.
  intros Hm. destruct (shr_record_of_loc_m m l) as (r & s & ->).
  destruct n as [|p|p]; cbn [shr fst snd].
  - cbn [shr_m]. change (2 ^ Z.max 0 0) with 1. rewrite Z.div_1_r. split; lia.
  - rewrite iter_pos_nat, shr_m_iter by exact Hm.
    rewrite positive_nat_Z. replace (Z.max 0 (Z.pos p)) with (Z.pos p) by lia.
    split; reflexivity.
  - cbn [shr_m]. replace (Z.max 0 (Z.neg p)) with 0 by lia.
    change (2 ^ 0) with 1. rewrite Z.div_1_r. split; lia.
Qed.

(** An exact value that is a multiple of [2^n] is shifted exactly. *)
Lemma shr_exact (m : Z) (e n : Z) :
  0 <= m -> m mod 2 ^ Z.max 0 n = 0 ->
  loc_of_shr_record (fst (shr (shr_record_of_loc m loc_Exact) e n)) = loc_Exact.
Proof.
  intros Hm Hmod. destruct n as [|p|p]; cbn [shr fst shr_record_of_loc];
    try reflexivity.
  rewrite iter_pos_nat.
  destruct (shr_iter m (Pos.to_nat p) Hm) as (_ & c & Hc & Hcb & Hs).
  rewrite positive_nat_Z in Hc, Hcb.
  replace (Z.max 0 (Z.pos p)) with (Z.pos p) in Hmod by lia.
  rewrite Hmod in Hc.
  destruct (Nat.iter (Pos.to_nat p) shr_1 _) as [mj rj sj].
  cbn [shr_r shr_s] in *.
  assert (0 < 2 ^ Z.pos p) by (apply Z.pow_pos_nonneg; lia).
  destruct rj; [lia|]. destruct sj; [|reflexivity].
  assert (0 < c) by (apply Hs; reflexivity). lia.
Qed.

Lemma round_nearest_even_bounds (q : Z) (l : location) :
  q <= round_nearest_even q l <= q + 1.
Proof. destruct l as [|[]]; cbn; try destruct (Z.even q); lia. Qed.

(** The number of binary digits of a non-negative integer. *)
Lemma Zdigits2_nonneg (x : Z) : 0 <= Zdigits2 x.
Proof. destruct x; cbn; lia. Qed.

Lemma Zdigits2_upper (x : Z) : 0 <= x -> x < 2 ^ Zdigits2 x.
Proof.
  destruct x as [|p|p]; cbn [Zdigits2]; intros H; try lia.
  apply digits2_pos_upper.
Qed.

Lemma Zdigits2_lower (x : Z) : 0 < x -> 2 ^ (Zdigits2 x - 1) <= x.
Proof.
  destruct x as [|p|p]; cbn [Zdigits2]; intros H; try lia.
  apply digits2_pos_lower.
Qed.

Lemma Zdigits2_le (x t : Z) : 0 <= t -> 0 <= x <= 2 ^ t -> Zdigits2 x <= t + 1.
Proof.
  intros Ht [H0 Hx]. destruct (Z.eq_dec x 0) as [->|Hne]; [cbn; lia|].
  pose proof (Zdigits2_lower x ltac:(lia)) as Hl.
  pose proof (Zdigits2_nonneg x) as Hn.
  destruct (Z_le_gt_dec (Zdigits2 x) (t + 1)) as [|Hgt]; [assumption|exfalso].
  assert (2 ^ (t + 1) <= 2 ^ (Zdigits2 x - 1)) by (apply Z.pow_le_mono_r; lia).
  assert (2 ^ t < 2 ^ (t + 1)) by (apply Z.pow_lt_mono_r; lia).
  lia.
Qed.

Lemma div_pow2_lt (m d k : Z) :
  0 <= m < 2 ^ d -> 0 <= k -> 0 <= d -> m / 2 ^ k < 2 ^ Z.max 0 (d - k).
Proof.
  intros [Hm Hd] Hk Hd0.
  assert (Hpk : 0 < 2 ^ k) by (apply Z.pow_pos_nonneg; lia).
  destruct (Z_le_gt_dec k d) as [Hle|Hgt].
  - replace (Z.max 0 (d - k)) with (d - k) by lia.
    apply Z.div_lt_upper_bound; [lia|].
    rewrite <- Z.pow_add_r by lia. replace (k + (d - k)) with d by lia. lia.
  - replace (Z.max 0 (d - k)) with 0 by lia. change (2 ^ 0) with 1.
    assert (2 ^ d < 2 ^ k) by (apply Z.pow_lt_mono_r; lia).
    rewrite Z.div_small; lia.
Qed.

(** What [binary_round_aux] returns: the mantissa is shifted by [K] places,
    [K] being the distance to the exponent of the format or one more, and
    the result is the quotient or its successor; never NaN, and the sign is
    kept.  An exact multiple of [2^K] is returned as it is. *)
Lemma binary_round_aux_shape (s : bool) (m e : Z) (l : location) :
  0 <= m ->
  exists K M',
    Z.max 0 (fexp prec emax (Zdigits2 m + e) - e) <= K
      <= Z.max 0 (fexp prec emax (Zdigits2 m + e) - e) + 1 /\
    m / 2 ^ K <= M' <= m / 2 ^ K + 1 /\
    (l = loc_Exact ->
     m mod 2 ^ Z.max 0 (fexp prec emax (Zdigits2 m + e) - e) = 0 ->
     K = Z.max 0 (fexp prec emax (Zdigits2 m + e) - e) /\ M' = m / 2 ^ K) /\
    (K = Z.max 0 (fexp prec emax (Zdigits2 m + e) - e) \/ M' = 2 ^ 52) /\
    binary_round_aux prec emax s m e l
    = if M' =? 0 then S754_zero s
      else if e + K <=? emax - prec then S754_finite s (Z.to_pos M') (e + K)
           else S754_infinity s.
Proof.
  intros Hm. unfold binary_round_aux, shr_fexp.
  set (d := Zdigits2 m). set (f := fexp prec emax (d + e)).
  set (k1 := Z.max 0 (f - e)).
  pose proof (shr_spec m l e (f - e) Hm) as [Hq1 He1].
  destruct (shr (shr_record_of_loc m l) e (f - e)) as [mrs1 e1] eqn:E1.
  cbn [fst snd] in Hq1, He1. fold k1 in Hq1, He1.
  set (M1 := round_nearest_even (shr_m mrs1) (loc_of_shr_record mrs1)).
  pose proof (round_nearest_even_bounds (shr_m mrs1) (loc_of_shr_record mrs1)) as HM1.
  fold M1 in HM1. rewrite Hq1 in HM1.
  assert (Hk1 : 0 <= k1) by (unfold k1; lia).
  assert (Hpk1 : 0 < 2 ^ k1) by (apply Z.pow_pos_nonneg; lia).
  assert (Hq1n : 0 <= m / 2 ^ k1) by (apply Z.div_pos; lia).
  assert (HM1n : 0 <= M1) by lia.
  pose proof (shr_spec M1 loc_Exact e1 (fexp prec emax (Zdigits2 M1 + e1) - e1) HM1n)
    as [Hq2 He2].
  set (n2 := fexp prec emax (Zdigits2 M1 + e1) - e1) in *.
  destruct (shr (shr_record_of_loc M1 loc_Exact) e1 n2) as [mrs2 e2] eqn:E2.
  cbn [fst snd] in Hq2, He2.
  set (k2 := Z.max 0 n2) in *.
  (* the second shift is by at most one place *)
  assert (Hd : 0 <= d) by apply Zdigits2_nonneg.
  assert (Hmd : m < 2 ^ d) by (apply Zdigits2_upper; exact Hm).
  assert (Hf : f = Z.max (d + e - 53) (-1074)) by reflexivity.
  pose proof (div_pow2_lt m d k1 (conj Hm Hmd) Hk1 Hd) as Hlt.
  assert (Hdk : Z.max 0 (d - k1) <= 53) by (unfold k1; lia).
  assert (Hq53 : m / 2 ^ k1 < 2 ^ 53).
  { assert (2 ^ Z.max 0 (d - k1) <= 2 ^ 53) by (apply Z.pow_le_mono_r; lia).
    lia. }
  assert (Hn2 : n2 = Z.max (Zdigits2 M1 - 53) (-1074 - e1)).
  { unfold n2, fexp, emin, prec, emax. lia. }
  assert (He1lo : -1074 <= e1) by (unfold k1 in *; lia).
  assert (Hk2 : 0 <= k2 <= 1).
  { split; [unfold k2; lia|].
    assert (HdM : Zdigits2 M1 <= 53 + 1) by (apply Zdigits2_le; lia).
    unfold k2. lia. }
  assert (Hsmall : M1 < 2 ^ 53 -> k2 = 0).
  { intros Hs.
    destruct (Z.eq_dec M1 0) as [Hz|Hnz].
    - unfold k2. rewrite Hn2, Hz. cbn [Zdigits2]. lia.
    - pose proof (Zdigits2_lower M1 ltac:(lia)) as Hlow.
      assert (Zdigits2 M1 <= 53).
      { destruct (Z_le_gt_dec (Zdigits2 M1) 53) as [|Hgt]; [assumption|exfalso].
        assert (2 ^ 53 <= 2 ^ (Zdigits2 M1 - 1)) by (apply Z.pow_le_mono_r; lia).
        lia. }
      unfold k2. lia. }
  exists (k1 + k2), (shr_m mrs2).
  assert (Hpk2 : 0 < 2 ^ k2) by (apply Z.pow_pos_nonneg; lia).
  assert (Hdiv : m / 2 ^ (k1 + k2) = m / 2 ^ k1 / 2 ^ k2)
    by (rewrite Z.pow_add_r by lia; rewrite Z.div_div by lia; reflexivity).
  split; [lia|]. split.
  { rewrite Hq2, Hdiv.
    assert (k2 = 0 \/ k2 = 1) as [->| ->] by lia.
    - change (2 ^ 0) with 1. rewrite !Z.div_1_r. lia.
    - change (2 ^ 1) with 2. generalize dependent (m / 2 ^ k1). intros q **.
      clear - HM1. Z.div_mod_to_equations. lia. }
  split.
  { intros -> Hmod1.
    assert (HM1q : M1 = m / 2 ^ k1).
    { unfold M1. rewrite Hq1.
      replace mrs1 with (fst (shr (shr_record_of_loc m loc_Exact) e (f - e)))
        by (rewrite E1; reflexivity).
      rewrite shr_exact by (fold k1; assumption). reflexivity. }
    assert (Hk20 : k2 = 0) by (apply Hsmall; lia).
    split; [lia|]. rewrite Hq2, Hk20, HM1q, Z.add_0_r.
    change (2 ^ 0) with 1. now rewrite Z.div_1_r. }
  split.
  { assert (k2 = 0 \/ k2 = 1) as [Hz|Ho] by lia; [left; lia|right].
    assert (HM1eq : M1 = 2 ^ 53).
    { destruct (Z_lt_le_dec M1 (2 ^ 53)) as [Hs|Hb]; [|lia].
      apply Hsmall in Hs. lia. }
    rewrite Hq2, Ho, HM1eq. reflexivity. }
  replace (e + (k1 + k2)) with e2 by lia.
  destruct (shr_m mrs2) as [|p|p] eqn:Em.
  - reflexivity.
  - reflexivity.
  - exfalso. assert (0 <= M1 / 2 ^ k2) by (apply Z.div_pos; lia). lia.
Qed.

End RoundFacts.

(* ================================================================== *)
(** * The order of doubles *)
(* ================================================================== *)

Module OrderFacts.

Import JS Stats RoundingFacts RoundFacts.
Local Open Scope Z_scope.

(** ** The order of doubles *)

Ltac compare_cases :=
  repeat match goal with
  | H : context [Pos.compare_cont Eq ?a ?b] |- _ =>
      change (Pos.compare_cont Eq a b) with (Pos.compare a b) in H
  | |- context [Pos.compare_cont Eq ?a ?b] =>
      change (Pos.compare_cont Eq a b) with (Pos.compare a b)
  end;
  repeat match goal with
  | H : context [Z.compare ?a ?b] |- _ => destruct (Z.compare_spec a b)
  | |- context [Z.compare ?a ?b] => destruct (Z.compare_spec a b)
  | H : context [Pos.compare ?a ?b] |- _ => destruct (Pos.compare_spec a b)
  | |- context [Pos.compare ?a ?b] => destruct (Pos.compare_spec a b)
  end.

Lemma SFcompare_antisym (x y : spec_float) :
  SFcompare y x = option_map CompOpp (SFcompare x y).
Proof.
  destruct x as [sx|sx| |sx mx ex], y as [sy|sy| |sy my ey]; cbn;
    try destruct sx; try destruct sy; try reflexivity;
    compare_cases; cbn; try reflexivity; try lia.
Qed.

Lemma SFleb_trans (x y z : spec_float) :
  SFleb x y = true -> SFleb y z = true -> SFleb x z = true.
Proof.
  unfold SFleb.
  destruct x as [sx|sx| |sx mx ex], y as [sy|sy| |sy my ey],
           z as [sz|sz| |sz mz ez]; cbn;
    try destruct sx; try destruct sy; try destruct sz;
    try reflexivity; try discriminate;
    compare_cases; cbn; try reflexivity; try discriminate; try lia.
Qed.

Lemma SFleb_total (x y : spec_float) :
  x <> S754_nan -> y <> S754_nan -> SFltb x y = false -> SFleb y x = true.
Proof.
  intros Hx Hy. rewrite (SFcompare_antisym x y) || idtac.
  unfold SFltb, SFleb. rewrite (SFcompare_antisym x y).
  destruct x as [sx|sx| |sx mx ex], y as [sy|sy| |sy my ey]; try congruence;
    destruct (SFcompare _ _) as [[]|] eqn:E; cbn; try reflexivity;
    try discriminate; cbn in E; try discriminate;
    try destruct sx; try destruct sy; discriminate.
Qed.

Lemma SFltb_leb (x y : spec_float) : SFltb x y = true -> SFleb x y = true.
Proof. unfold SFltb, SFleb. destruct (SFcompare x y) as [[]|]; congruence. Qed.

Lemma SFltb_not_leb (x y : spec_float) : SFltb x y = true -> SFleb y x = false.
Proof.
  unfold SFltb, SFleb. rewrite (SFcompare_antisym x y).
  destruct (SFcompare x y) as [[]|]; cbn; congruence.
Qed.

Lemma Prim2SF_not_nan (x : float) : is_nan x = false -> Prim2SF x <> S754_nan.
Proof.
  intros H E. apply JSFacts.is_nan_of_spec in E. subst x.
  vm_compute in H. discriminate.
Qed.

Lemma is_nan_spec (x : float) : is_nan x = true <-> Prim2SF x = S754_nan.
Proof.
  unfold is_nan. rewrite eqb_spec. unfold SFeqb.
  destruct (Prim2SF x) as [s|s| |s m e] eqn:E; cbn.
  - split; discriminate.
  - destruct s; split; discriminate.
  - split; reflexivity.
  - destruct s; change (Pos.compare_cont Eq m m) with (Pos.compare m m);
      rewrite Z.compare_refl, Pos.compare_refl; split; discriminate.
Qed.

Lemma leb_trans (a b c : float) :
  (a <=? b)%float = true -> (b <=? c)%float = true -> (a <=? c)%float = true.
Proof. rewrite !leb_spec. apply SFleb_trans. Qed.

Lemma leb_total (a b : float) :
  is_nan a = false -> is_nan b = false ->
  (a <? b)%float = false -> (b <=? a)%float = true.
Proof.
  intros Ha Hb. rewrite ltb_spec, leb_spec.
  apply SFleb_total; apply Prim2SF_not_nan; assumption.
Qed.

Lemma ltb_leb (a b : float) : (a <? b)%float = true -> (a <=? b)%float = true.
Proof. rewrite ltb_spec, leb_spec. apply SFltb_leb. Qed.

Lemma ltb_not_leb (a b : float) : (a <? b)%float = true -> (b <=? a)%float = false.
Proof. rewrite ltb_spec, leb_spec. apply SFltb_not_leb. Qed.

Lemma leb_not_nan (a b : float) :
  (a <=? b)%float = true -> is_nan a = false /\ is_nan b = false.
Proof.
  rewrite leb_spec. intros H.
  split; destruct (is_nan _) eqn:E; try reflexivity;
    apply is_nan_spec in E; rewrite E in H; unfold SFleb in H;
    destruct (Prim2SF _); cbn in H; discriminate.
Qed.

End OrderFacts.

(* ================================================================== *)
(** * The sign of a difference *)
(* ================================================================== *)

Module SubFacts.

Import JS Stats RoundingFacts RoundFacts OrderFacts.
Local Open Scope Z_scope.

(** What a valid finite double satisfies. *)
Lemma bounded_spec (m : positive) (e : Z) :
  SpecFloat.bounded prec emax m e = true ->
  -1074 <= e <= 971 /\ Z.pos m < 2 ^ 53 /\ (-1074 < e -> 2 ^ 52 <= Z.pos m).
Proof.
  unfold SpecFloat.bounded, canonical_mantissa, fexp, emin, prec, emax.
  intros H. apply andb_true_iff in H as [Hc He].
  apply Z.eqb_eq in Hc. apply Z.leb_le in He.
  pose proof (digits2_pos_upper m) as U. pose proof (digits2_pos_lower m) as Lo.
  set (d := Z.pos (digits2_pos m)) in *.
  assert (Hd : 1 <= d) by (unfold d; lia).
  split; [lia|]. split.
  - assert (d <= 53) by lia.
    assert (2 ^ d <= 2 ^ 53) by (apply Z.pow_le_mono_r; lia). lia.
  - intros Hn. assert (Hd53 : d = 53) by lia. rewrite Hd53 in Lo. exact Lo.
Qed.

Lemma Prim2SF_bounded (x : float) (s : bool) (m : positive) (e : Z) :
  Prim2SF x = S754_finite s m e -> SpecFloat.bounded prec emax m e = true.
Proof. intros E. pose proof (Prim2SF_valid x) as V. rewrite E in V. exact V. Qed.

(** [shl_align] multiplies the mantissa by the power of two that brings the
    exponent down. *)
Lemma shl_align_spec (m : positive) (e ez : Z) :
  ez <= e -> Z.pos (fst (shl_align m e ez)) = Z.pos m * 2 ^ (e - ez).
Proof.
  intros H. unfold shl_align.
  destruct (ez - e) as [|d|d] eqn:E; cbn [fst].
  - replace (e - ez) with 0 by lia. change (2 ^ 0) with 1. lia.
  - lia.
  - rewrite pos_iter_xO. f_equal. f_equal. lia.
Qed.

(** Rounding a positive integer at an exponent of the format gives a number
    that is not zero, of the same sign. *)
Lemma binary_round_nonzero (s : bool) (m : positive) (e : Z) :
  -1074 <= e ->
  (exists m' e', binary_round prec emax s m e = S754_finite s m' e') \/
  binary_round prec emax s m e = S754_infinity s.
Proof.
  intros He. unfold binary_round.
  set (d := Z.pos (digits2_pos m)).
  set (f := fexp prec emax (d + e)).
  assert (Hf : f = Z.max (d + e - 53) (-1074)) by reflexivity.
  assert (Hd1 : 1 <= d) by (unfold d; lia).
  destruct (shl_align m e f) as [mz ez] eqn:Ea.
  assert (Hmz : Z.pos mz = Z.pos m * 2 ^ (e - ez) /\ ez = Z.min e f).
  { unfold shl_align in Ea. destruct (f - e) as [|k|k] eqn:Ek;
      inversion Ea; subst.
    - replace (ez - ez) with 0 by lia. change (2 ^ 0) with 1. split; lia.
    - replace (ez - ez) with 0 by lia. change (2 ^ 0) with 1. split; lia.
    - rewrite pos_iter_xO. split; [f_equal; f_equal; lia|lia]. }
  destruct Hmz as [Hmz Hez].
  destruct (binary_round_aux_shape s (Z.pos mz) ez loc_Exact ltac:(lia))
    as (K & M' & HK & HM & _ & Hcase & ->).
  cbn [Zdigits2] in HK, Hcase.
  set (dz := Z.pos (digits2_pos mz)) in *.
  pose proof (digits2_pos_lower mz) as Lz. fold dz in Lz.
  pose proof (digits2_pos_upper mz) as Uz. fold dz in Uz.
  assert (Hdz1 : 1 <= dz) by (unfold dz; lia).
  assert (HM'pos : 0 < M').
  { destruct Hcase as [HKeq|Hbig]; [|assert (0 < 2 ^ 52) by reflexivity; lia].
    subst K.
    set (k1 := Z.max 0 (fexp prec emax (dz + ez) - ez)) in *.
    assert (Hk1 : 0 <= k1 <= dz - 1)
      by (unfold k1, fexp, emin, prec, emax; lia).
    assert (2 ^ k1 <= 2 ^ (dz - 1)) by (apply Z.pow_le_mono_r; lia).
    assert (0 < 2 ^ k1) by (apply Z.pow_pos_nonneg; lia).
    assert (1 <= Z.pos mz / 2 ^ k1)
      by (apply Z.div_le_lower_bound; lia).
    lia. }
  destruct (Z.eqb_spec M' 0) as [->|_]; [lia|].
  destruct (ez + K <=? emax - prec); [left; eauto|right; reflexivity].
Qed.

Lemma binary_normalize_sign (M e : Z) :
  -1074 <= e ->
  SFcompare (binary_normalize prec emax M e false) (S754_zero false)
  = Some (M ?= 0).
Proof.
  intros He. destruct M as [|p|p]; cbn [binary_normalize].
  - reflexivity.
  - destruct (binary_round_nonzero false p e He) as [(m' & e' & ->)| ->];
      reflexivity.
  - destruct (binary_round_nonzero true p e He) as [(m' & e' & ->)| ->];
      reflexivity.
Qed.

(** On valid doubles the comparison of exponent, then mantissa, is the
    comparison of the values. *)
Lemma compare_aligned (m1 m2 : positive) (e1 e2 : Z) :
  SpecFloat.bounded prec emax m1 e1 = true ->
  SpecFloat.bounded prec emax m2 e2 = true ->
  match e1 ?= e2 with
  | Lt => Lt
  | Gt => Gt
  | Eq => Pos.compare_cont Eq m1 m2
  end
  = (Z.pos m1 * 2 ^ (e1 - Z.min e1 e2) ?= Z.pos m2 * 2 ^ (e2 - Z.min e1 e2)).
Proof.
  intros B1 B2.
  apply bounded_spec in B1 as (He1 & Hm1 & Hn1).
  apply bounded_spec in B2 as (He2 & Hm2 & Hn2).
  change (Pos.compare_cont Eq m1 m2) with (Pos.compare m1 m2).
  destruct (Z.compare_spec e1 e2) as [Heq|Hlt|Hgt].
  - subst e2. rewrite Z.min_id, Z.sub_diag. change (2 ^ 0) with 1.
    rewrite !Z.mul_1_r. reflexivity.
  - replace (Z.min e1 e2) with e1 by lia. rewrite Z.sub_diag.
    change (2 ^ 0) with 1. rewrite Z.mul_1_r. symmetry. apply Z.compare_lt_iff.
    assert (2 ^ 1 <= 2 ^ (e2 - e1)) by (apply Z.pow_le_mono_r; lia).
    change (2 ^ 1) with 2 in *. specialize (Hn2 ltac:(lia)).
    change (2 ^ 53) with (2 ^ 52 * 2) in Hm1. nia.
  - replace (Z.min e1 e2) with e2 by lia. rewrite Z.sub_diag.
    change (2 ^ 0) with 1. rewrite Z.mul_1_r. symmetry. apply Z.compare_gt_iff.
    assert (2 ^ 1 <= 2 ^ (e1 - e2)) by (apply Z.pow_le_mono_r; lia).
    change (2 ^ 1) with 2 in *. specialize (Hn1 ltac:(lia)).
    change (2 ^ 53) with (2 ^ 52 * 2) in Hm2. nia.
Qed.

(** The sign of a difference of two valid doubles is their comparison. *)
Lemma SFsub_compare_finite (sx sy : bool) (mx my : positive) (ex ey : Z) :
  SpecFloat.bounded prec emax mx ex = true ->
  SpecFloat.bounded prec emax my ey = true ->
  SFcompare (SFsub prec emax (S754_finite sx mx ex) (S754_finite sy my ey))
            (S754_zero false)
  = SFcompare (S754_finite sx mx ex) (S754_finite sy my ey).
Proof.
  intros Vx Vy.
  pose proof (bounded_spec _ _ Vx) as (Hex & _ & _).
  pose proof (bounded_spec _ _ Vy) as (Hey & _ & _).
  cbn [SFsub]. rewrite binary_normalize_sign by lia.
  rewrite !shl_align_spec by lia.
  cbn [SFcompare]. f_equal.
  pose proof (compare_aligned mx my ex ey Vx Vy) as Hc.
  assert (0 < 2 ^ (ex - Z.min ex ey)) by (apply Z.pow_pos_nonneg; lia).
  assert (0 < 2 ^ (ey - Z.min ex ey)) by (apply Z.pow_pos_nonneg; lia).
  set (a := Z.pos mx * 2 ^ (ex - Z.min ex ey)) in *.
  set (b := Z.pos my * 2 ^ (ey - Z.min ex ey)) in *.
  assert (Ha : 0 < a) by (unfold a; lia).
  assert (Hb : 0 < b) by (unfold b; lia).
  destruct sx, sy; cbn [cond_Zopp].
  - transitivity (CompOpp (a ?= b)).
    + destruct (Z.compare_spec a b); cbn [CompOpp];
        [apply Z.compare_eq_iff|apply Z.compare_gt_iff|apply Z.compare_lt_iff]; lia.
    + rewrite <- Hc. destruct (ex ?= ey); reflexivity.
  - apply Z.compare_lt_iff. lia.
  - apply Z.compare_gt_iff. lia.
  - rewrite Hc. rewrite <- (Z.compare_sub a b). reflexivity.
Qed.

Lemma SFsub_compare (x y : spec_float) :
  SpecFloat.valid_binary prec emax x = true ->
  SpecFloat.valid_binary prec emax y = true ->
  SFltb (S754_zero false) (SFsub prec emax x y) = SFltb y x /\
  SFltb (SFsub prec emax x y) (S754_zero false) = SFltb x y.
Proof.
  intros Vx Vy. unfold SFltb.
  destruct x as [sx|sx| |sx mx ex], y as [sy|sy| |sy my ey];
    try (rewrite (SFcompare_antisym (SFsub _ _ _ _) (S754_zero false)),
           SFsub_compare_finite, (SFcompare_antisym (S754_finite sy my ey))
           by assumption;
         destruct (SFcompare _ _) as [[]|]; split; reflexivity);
    try destruct sx; try destruct sy; split; reflexivity.
Qed.

(** [a - b > 0] exactly when [a > b], and [a - b < 0] exactly when
    [a < b]: the comparator [(a, b) => a - b] orders doubles as [<] does. *)
Lemma sub_positive (a b : float) : (0 <? a - b)%float = (b <? a)%float.
Proof.
  rewrite !ltb_spec, sub_spec.
  apply (SFsub_compare (Prim2SF a) (Prim2SF b)); apply Prim2SF_valid.
Qed.

Lemma sub_negative (a b : float) : (a - b <? 0)%float = (a <? b)%float.
Proof.
  rewrite !ltb_spec, sub_spec.
  apply (SFsub_compare (Prim2SF a) (Prim2SF b)); apply Prim2SF_valid.
Qed.

End SubFacts.

(* ================================================================== *)
(** * Sorting *)
(* ================================================================== *)

Module SortFacts.

Import JS Stats OrderFacts SubFacts StatsFacts.
Open Scope float_scope.

(** [a] is ordered before [b]. *)
Definition leq (a b : float) : Prop := (a <=? b) = true.

(** The test of [insert], read as a comparison. *)
Lemma insert_cons (x y : float) (t : list float) :
  insert x (y :: t) = if y <? x then y :: insert x t else x :: y :: t.
Proof. cbn [insert]. unfold compareFn. now rewrite sub_positive. Qed.

Lemma insert_Permutation (x : float) (l : list float) :
  Permutation (insert x l) (x :: l).
Proof.
  induction l as [|y t IH]; [reflexivity|].
  rewrite insert_cons. destruct (y <? x); [|reflexivity].
  rewrite IH. apply perm_swap.
Qed.

Lemma sort_numbers_Permutation (l : list float) :
  Permutation (sort_numbers l) l.
Proof.
  induction l as [|x t IH]; [reflexivity|].
  cbn [sort_numbers fold_right]. fold (sort_numbers t).
  rewrite insert_Permutation. now constructor.
Qed.

Lemma numbers_undefineds_Permutation (l : list value) :
  Permutation (map Num (numbers l) ++ undefineds l) l.
Proof.
  induction l as [|[x|] t IH]; [reflexivity| |].
  - cbn. now constructor.
  - change (numbers (Undefined :: t)) with (numbers t).
    change (undefineds (Undefined :: t)) with (Undefined :: undefineds t).
    rewrite <- Permutation_middle. now constructor.
Qed.

(** Sorting rearranges: nothing is dropped, repeated or made up. *)
Lemma sort_Permutation (l : list value) : Permutation (sort l) l.
Proof.
  unfold sort. rewrite <- (numbers_undefineds_Permutation l) at 3.
  apply Permutation_app_tail, Permutation_map, sort_numbers_Permutation.
Qed.

Lemma Permutation_filter_length {A : Type} (f : A -> bool) (l l' : list A) :
  Permutation l l' -> length (filter f l) = length (filter f l').
Proof.
  induction 1 as [|x l l' _ IH|x y l|l l' l'' _ IH1 _ IH2]; cbn.
  - reflexivity.
  - destruct (f x); cbn; congruence.
  - destruct (f x), (f y); reflexivity.
  - congruence.
Qed.

(** ** Ascending order *)

Definition not_nan (x : float) : Prop := is_nan x = false.

Lemma insert_HdRel (a x : float) (l : list float) :
  leq a x -> HdRel leq a l -> HdRel leq a (insert x l).
Proof.
  intros Hax Hal. destruct l as [|y t]; [constructor; exact Hax|].
  rewrite insert_cons. apply HdRel_inv in Hal.
  destruct (y <? x); constructor; assumption.
Qed.

Lemma insert_Sorted (x : float) (l : list float) :
  not_nan x -> Forall not_nan l -> Sorted leq l -> Sorted leq (insert x l).
Proof.
  intros Hx Hl Hs. induction l as [|y t IH].
  - repeat constructor.
  - rewrite insert_cons. apply Sorted_inv in Hs as [Hst Hhd].
    apply Forall_cons_iff in Hl as [Hy Ht].
    destruct (y <? x) eqn:E.
    + constructor; [apply IH; assumption|].
      apply insert_HdRel; [apply ltb_leb; exact E|exact Hhd].
    + constructor; [constructor; assumption|].
      constructor. apply leb_total; assumption.
Qed.

Lemma sort_numbers_not_nan (l : list float) :
  Forall not_nan l -> Forall not_nan (sort_numbers l).
Proof.
  intros H. rewrite Forall_forall in *. intros x Hx.
  apply H. now apply sort_numbers_In.
Qed.

Lemma sort_numbers_Sorted (l : list float) :
  Forall not_nan l -> Sorted leq (sort_numbers l).
Proof.
  induction l as [|x t IH]; intros H; [constructor|].
  apply Forall_cons_iff in H as [Hx Ht].
  cbn [sort_numbers fold_right]. fold (sort_numbers t).
  apply insert_Sorted; [exact Hx|apply sort_numbers_not_nan; exact Ht|].
  apply IH; exact Ht.
Qed.

Lemma leq_trans : Relations_1.Transitive leq.
Proof. intros a b c. apply leb_trans. Qed.

Lemma sort_numbers_StronglySorted (l : list float) :
  Forall not_nan l -> StronglySorted leq (sort_numbers l).
Proof.
  intros H. apply Sorted_StronglySorted; [exact leq_trans|].
  apply sort_numbers_Sorted; exact H.
Qed.

Lemma StronglySorted_nth (l : list float) (i j : nat) (x y : float) :
  StronglySorted leq l -> (i < j)%nat ->
  nth_error l i = Some x -> nth_error l j = Some y -> leq x y.
Proof.
  intros Hs. revert i j. induction Hs as [|a l Hs IH Hall]; intros i j Hij Hi Hj.
  - destruct i; discriminate.
  - destruct j as [|j]; [lia|]. cbn in Hj.
    destruct i as [|i]; cbn in Hi.
    + inversion Hi; subst. rewrite Forall_forall in Hall.
      apply Hall. eapply nth_error_In, Hj.
    + apply (IH i j); [lia|assumption|assumption].
Qed.

Lemma filter_above (a v : float) (l : list float) :
  (a <=? v) = false -> Forall (leq a) l -> filter (fun x => x <=? v) l = [].
Proof.
  intros E. induction 1 as [|b t Hab _ IH]; [reflexivity|].
  cbn [filter]. destruct (b <=? v) eqn:Eb; [|exact IH].
  rewrite (leb_trans a b v Hab Eb) in E. discriminate.
Qed.

(** In an ascending list the elements at or below a bound form a prefix. *)
Lemma StronglySorted_filter_prefix (v : float) (l : list float) :
  StronglySorted leq l ->
  filter (fun x => x <=? v) l
  = firstn (length (filter (fun x => x <=? v) l)) l.
Proof.
  induction 1 as [|a l Hs IH Hall]; [reflexivity|].
  cbn [filter]. destruct (a <=? v) eqn:E.
  - cbn [length firstn]. now rewrite <- IH.
  - rewrite (filter_above a v l E Hall). reflexivity.
Qed.

End SortFacts.

(* ================================================================== *)
(** * Sorted arrays of numbers *)
(* ================================================================== *)

Module PercentileFacts.

Import JS Stats OrderFacts SubFacts StatsFacts SortFacts.
Open Scope float_scope.

(** Final prices that are all numbers, none of them NaN. *)
Definition numeric (l : list value) : Prop :=
  Forall (fun v => exists x, v = Num x /\ is_nan x = false) l.

Lemma numeric_numbers (l : list value) :
  numeric l ->
  l = map Num (numbers l) /\ undefineds l = [] /\ Forall not_nan (numbers l).
Proof.
  induction 1 as [|v t (x & -> & Hx) _ (IH1 & IH2 & IH3)].
  - repeat split; constructor.
  - change (numbers (Num x :: t)) with (x :: numbers t).
    change (undefineds (Num x :: t)) with (undefineds t).
    cbn [map]. repeat split.
    + f_equal. exact IH1.
    + exact IH2.
    + constructor; assumption.
Qed.

(** The sorted array of a numeric ensemble. *)
Definition sorted_numbers (paths : list (list float)) : list float :=
  sort_numbers (numbers (finalPrices paths)).

Lemma sorted_numeric (paths : list (list float)) :
  numeric (finalPrices paths) ->
  sorted paths = map Num (sorted_numbers paths) /\
  StronglySorted leq (sorted_numbers paths) /\
  length (sorted_numbers paths) = length paths.
Proof.
  intros H. destruct (numeric_numbers _ H) as (_ & Hu & Hn).
  unfold sorted, sort, sorted_numbers. rewrite Hu, app_nil_r.
  split; [reflexivity|]. split; [apply sort_numbers_StronglySorted; exact Hn|].
  rewrite sort_numbers_length.
  pose proof (numbers_undefineds_length (finalPrices paths)) as Hl.
  rewrite Hu, finalPrices_length in Hl. cbn in Hl. lia.
Qed.

Lemma get_value_map (s : list float) (i : nat) (x : float) :
  nth_error s i = Some x -> get_value (map Num s) i = Num x.
Proof.
  intros H. unfold get_value.
  rewrite (nth_indep _ Undefined (Num 0)) by
    (rewrite length_map; apply nth_error_Some; congruence).
  rewrite map_nth. f_equal. now apply nth_error_nth.
Qed.

Lemma nth_error_lt {A : Type} (l : list A) (i : nat) :
  (i < length l)%nat -> exists x, nth_error l i = Some x.
Proof.
  intros H. destruct (nth_error l i) eqn:E; [eauto|].
  apply nth_error_None in E. lia.
Qed.

(** The elements of the sorted array, in ascending order. *)
Lemma sorted_ascending_at (paths : list (list float)) (i j : nat) :
  numeric (finalPrices paths) ->
  (i <= j)%nat -> (j < length paths)%nat ->
  exists x y,
    get_value (sorted paths) i = Num x /\ get_value (sorted paths) j = Num y /\
    (x <=? y) = true.
Proof.
  intros Hnum Hij Hj.
  destruct (sorted_numeric paths Hnum) as (Hs & Hss & Hlen).
  destruct (nth_error_lt (sorted_numbers paths) i ltac:(lia)) as [x Hx].
  destruct (nth_error_lt (sorted_numbers paths) j ltac:(lia)) as [y Hy].
  exists x, y. rewrite Hs.
  rewrite (get_value_map _ _ _ Hx), (get_value_map _ _ _ Hy).
  split; [reflexivity|]. split; [reflexivity|].
  destruct (Nat.eq_dec i j) as [->|Hne].
  - assert (x = y) by congruence. subst y.
    apply JSFacts.leb_refl.
    destruct (numeric_numbers _ Hnum) as (_ & _ & Hn).
    apply sort_numbers_not_nan in Hn. rewrite Forall_forall in Hn.
    apply Hn. eapply nth_error_In, Hx.
  - apply (StronglySorted_nth _ i j x y Hss); [lia|assumption|assumption].
Qed.

Lemma filter_map_Num (f : value -> bool) (s : list float) :
  filter f (map Num s) = map Num (filter (fun x => f (Num x)) s).
Proof.
  induction s as [|x t IH]; [reflexivity|].
  cbn. destruct (f (Num x)); cbn; now rewrite IH.
Qed.

Lemma filter_firstn_skipn {A : Type} (f : A -> bool) (l : list A) (n : nat) :
  filter f l = filter f (firstn n l) ++ filter f (skipn n l).
Proof. now rewrite <- filter_app, firstn_skipn. Qed.

Lemma filter_none {A : Type} (f : A -> bool) (l : list A) :
  Forall (fun x => f x = false) l -> filter f l = [].
Proof.
  induction 1 as [|x t Hx _ IH]; [reflexivity|]. cbn. now rewrite Hx.
Qed.

Lemma filter_all {A : Type} (f : A -> bool) (l : list A) :
  Forall (fun x => f x = true) l -> filter f l = l.
Proof.
  induction 1 as [|x t Hx _ IH]; [reflexivity|]. cbn. now rewrite Hx, IH.
Qed.

Lemma Forall_skipn_nth (P : float -> Prop) (s : list float) (n : nat) :
  (forall j y, (n <= j)%nat -> nth_error s j = Some y -> P y) ->
  Forall P (skipn n s).
Proof.
  intros H. apply Forall_forall. intros y Hy.
  apply In_nth_error in Hy as [j Hj]. rewrite nth_error_skipn in Hj.
  apply (H (n + j)%nat); [lia|exact Hj].
Qed.

Lemma Forall_firstn_nth (P : float -> Prop) (s : list float) (n : nat) :
  (forall j y, (j < n)%nat -> nth_error s j = Some y -> P y) ->
  Forall P (firstn n s).
Proof.
  intros H. apply Forall_forall. intros y Hy.
  apply In_nth_error in Hy as [j Hj].
  assert (Hjn : (j < n)%nat).
  { assert (nth_error (firstn n s) j <> None) by congruence.
    apply nth_error_Some in H0. rewrite length_firstn in H0. lia. }
  rewrite nth_error_firstn in Hj.
  destruct (Nat.ltb_spec j n); [|lia]. apply (H j); assumption.
Qed.

(** In an ascending list, fewer than [n] elements lie strictly below the
    element at index [n], and more than [n] at or below it. *)
Lemma StronglySorted_rank (s : list float) (n : nat) (v : float) :
  StronglySorted leq s -> Forall not_nan s -> nth_error s n = Some v ->
  (length (filter (fun x => PrimFloat.ltb x v) s) <= n)%nat /\
  (n < length (filter (fun x => PrimFloat.leb x v) s))%nat.
Proof.
  intros Hs Hn Hv.
  assert (Hlt : (n < length s)%nat) by (apply nth_error_Some; congruence).
  assert (Hvv : leq v v).
  { apply JSFacts.leb_refl. rewrite Forall_forall in Hn. apply Hn.
    eapply nth_error_In, Hv. }
  split.
  - rewrite (filter_firstn_skipn _ s n), length_app.
    rewrite (filter_none _ (skipn n s)).
    + cbn. pose proof (filter_length_le (fun x => x <? v) (firstn n s)).
      rewrite length_firstn in H. lia.
    + apply Forall_skipn_nth. intros j y Hj Hy.
      destruct (y <? v) eqn:E; [|reflexivity].
      apply ltb_not_leb in E.
      destruct (Nat.eq_dec n j) as [->|Hne].
      * assert (y = v) by congruence. subst y. unfold leq in Hvv. congruence.
      * pose proof (StronglySorted_nth s n j v y Hs ltac:(lia) Hv Hy) as Hle.
        unfold leq in Hle. congruence.
  - rewrite (filter_firstn_skipn _ s (S n)), length_app.
    rewrite (filter_all _ (firstn (S n) s)).
    + rewrite length_firstn. lia.
    + apply Forall_firstn_nth. intros j y Hj Hy.
      destruct (Nat.eq_dec j n) as [->|Hne].
      * assert (y = v) by congruence. subst y. exact Hvv.
      * apply (StronglySorted_nth s j n y v Hs); [lia|assumption|assumption].
Qed.

End PercentileFacts.

(* ================================================================== *)
(** * Percentiles and counts *)
(* ================================================================== *)

Module RankFacts.

Import JS Stats OrderFacts SubFacts StatsFacts SortFacts PercentileFacts EngineFacts.
Open Scope float_scope.

Lemma numeric_nonempty (paths : list (list float)) :
  numeric (finalPrices paths) -> Forall (fun p => p <> []) paths.
Proof.
  unfold numeric, finalPrices. rewrite Forall_map. apply Forall_impl.
  intros p (x & Hx & _) ->. discriminate.
Qed.

(** In an ascending list the elements between two positions lie between
    the elements at these positions. *)
Lemma StronglySorted_between (s : list float) (a b : nat) (lo hi : float) :
  StronglySorted leq s -> Forall not_nan s ->
  nth_error s a = Some lo -> nth_error s b = Some hi -> (a <= b)%nat ->
  (b - a + 1
   <= length (filter (fun x => negb (PrimFloat.ltb x lo || PrimFloat.ltb hi x)) s))%nat.
Proof.
  intros Hs Hn Ha Hb Hab.
  assert (Hbl : (b < length s)%nat) by (apply nth_error_Some; congruence).
  set (f := fun x => negb (PrimFloat.ltb x lo || PrimFloat.ltb hi x)).
  rewrite (filter_firstn_skipn f s a), length_app.
  rewrite (filter_firstn_skipn f (skipn a s) (b - a + 1)), length_app.
  rewrite (filter_all f (firstn (b - a + 1) (skipn a s))).
  - rewrite length_firstn, length_skipn. lia.
  - apply Forall_firstn_nth. intros j y Hj Hy.
    rewrite nth_error_skipn in Hy.
    assert (Hyn : not_nan y)
      by (rewrite Forall_forall in Hn; apply Hn; eapply nth_error_In, Hy).
    assert (Hlo : leq lo y).
    { destruct (Nat.eq_dec j 0) as [->|Hne].
      - rewrite Nat.add_0_r in Hy. assert (y = lo) by congruence. subst y.
        apply JSFacts.leb_refl, Hyn.
      - apply (StronglySorted_nth s a (a + j) lo y Hs); [lia|assumption|assumption]. }
    assert (Hhi : leq y hi).
    { destruct (Nat.eq_dec (a + j) b) as [Heq|Hne].
      - rewrite Heq in Hy. assert (y = hi) by congruence. subst y.
        apply JSFacts.leb_refl, Hyn.
      - apply (StronglySorted_nth s (a + j) b y hi Hs); [lia|assumption|assumption]. }
    unfold f.
    destruct (PrimFloat.ltb y lo) eqn:E1;
      [apply ltb_not_leb in E1; unfold leq in Hlo; congruence|].
    destruct (PrimFloat.ltb hi y) eqn:E2;
      [apply ltb_not_leb in E2; unfold leq in Hhi; congruence|].
    reflexivity.
Qed.

Lemma index_order (n : nat) :
  (index_002 n <= index_005 n <= index_098 n)%nat.
Proof.
  unfold index_002, index_005, index_098. split.
  - apply Nat.div_le_compat_l. lia.
  - destruct (Nat.eq_dec n 0) as [->|Hn]; [reflexivity|].
    apply Nat.div_le_lower_bound; [lia|].
    pose proof (Nat.Div0.mul_div_le n 20). lia.
Qed.

(** The three percentile elements of a numeric ensemble. *)
Lemma percentiles_numeric (paths : list (list float)) :
  numeric (finalPrices paths) -> paths <> [] ->
  exists lo v hi,
    nth_error (sorted_numbers paths) (index_002 (length paths)) = Some lo /\
    nth_error (sorted_numbers paths) (index_005 (length paths)) = Some v /\
    nth_error (sorted_numbers paths) (index_098 (length paths)) = Some hi /\
    trimLow paths = Num lo /\ var95 paths = Num v /\ trimHigh paths = Num hi.
Proof.
  intros Hnum Hne.
  destruct (sorted_numeric paths Hnum) as (Hs & Hss & Hlen).
  assert (Hpos : (0 < length paths)%nat) by (destruct paths; [congruence|cbn; lia]).
  destruct (nth_error_lt (sorted_numbers paths) (index_002 (length paths)))
    as [lo Hlo]; [rewrite Hlen; apply index_002_lt; lia|].
  destruct (nth_error_lt (sorted_numbers paths) (index_005 (length paths)))
    as [v Hv]; [rewrite Hlen; apply index_005_lt; lia|].
  destruct (nth_error_lt (sorted_numbers paths) (index_098 (length paths)))
    as [hi Hhi]; [rewrite Hlen; apply index_098_lt; lia|].
  exists lo, v, hi. unfold trimLow, var95, trimHigh.
  rewrite sorted_length, Hs.
  rewrite (get_value_map _ _ _ Hlo), (get_value_map _ _ _ Hv),
          (get_value_map _ _ _ Hhi).
  repeat split; assumption.
Qed.

Lemma numbers_filter_length (f : value -> bool) (l : list value) :
  numeric l ->
  length (filter f l) = length (filter (fun x => f (Num x)) (numbers l)).
Proof.
  intros H. destruct (numeric_numbers l H) as (Hl & _ & _).
  rewrite Hl at 1. rewrite filter_map_Num, length_map. reflexivity.
Qed.

(** Counting final prices is counting in the sorted array. *)
Lemma count_sorted_numbers (f : float -> bool) (paths : list (list float)) :
  numeric (finalPrices paths) ->
  length (filter (fun p => f (toNumber p)) (finalPrices paths))
  = length (filter f (sorted_numbers paths)).
Proof.
  intros H. rewrite (numbers_filter_length _ _ H). cbn [toNumber].
  apply Permutation_filter_length. symmetry. apply sort_numbers_Permutation.
Qed.

End RankFacts.

(* ================================================================== *)
(** * Signs and finiteness of differences and quotients *)
(* ================================================================== *)

Module SignFacts.

Import JS Stats RoundingFacts RoundFacts OrderFacts SubFacts.
Open Scope float_scope.

(** A double that is zero, positive or plus infinity. *)
Definition nonneg_sf (x : spec_float) : Prop :=
  match x with
  | S754_zero _ | S754_finite false _ _ | S754_infinity false => True
  | _ => False
  end.

Definition nonneg (x : float) : Prop := nonneg_sf (Prim2SF x).

(** A double that is neither NaN nor infinite. *)
Definition finite_sf (x : spec_float) : Prop :=
  match x with
  | S754_zero _ | S754_finite _ _ _ => True
  | _ => False
  end.

Definition finite (x : float) : Prop := finite_sf (Prim2SF x).

Lemma Prim2SF_zero : Prim2SF 0 = S754_zero false.
Proof. reflexivity. Qed.

Lemma nonneg_of_not_negative (x : float) :
  is_nan x = false -> (x <? 0) = false -> nonneg x.
Proof.
  intros Hn Hlt. apply Prim2SF_not_nan in Hn. rewrite ltb_spec in Hlt.
  unfold nonneg. rewrite Prim2SF_zero in Hlt.
  destruct (Prim2SF x) as [s|[]| |[] m e]; cbn in *; try exact I;
    try discriminate; congruence.
Qed.

Lemma nonneg_not_nan (x : float) : nonneg x -> is_nan x = false.
Proof.
  unfold nonneg. intros H. destruct (is_nan x) eqn:E; [|reflexivity].
  apply is_nan_spec in E. rewrite E in H. destruct H.
Qed.

Lemma finite_not_nan (x : float) : finite x -> is_nan x = false.
Proof.
  unfold finite. intros H. destruct (is_nan x) eqn:E; [|reflexivity].
  apply is_nan_spec in E. rewrite E in H. destruct H.
Qed.

(** A difference whose second term is finite is NaN only for a NaN first
    term. *)
Lemma sub_not_nan (a b : float) :
  is_nan a = false -> finite b -> is_nan (a - b) = false.
Proof.
  intros Ha Hb. apply Prim2SF_not_nan in Ha.
  destruct (is_nan (a - b)) eqn:E; [exfalso|reflexivity].
  apply is_nan_spec in E. rewrite sub_spec in E. unfold finite in Hb.
  pose proof (Prim2SF_valid a) as Va. pose proof (Prim2SF_valid b) as Vb.
  destruct (Prim2SF a) as [sa|sa| |sa ma ea], (Prim2SF b) as [sb|sb| |sb mb eb];
    try destruct Hb; try congruence;
    try (destruct sa, sb; discriminate E).
  cbn [SF64sub SFsub] in E.
  apply bounded_spec in Va as (Hea & _). apply bounded_spec in Vb as (Heb & _).
  unfold SF64sub, SFsub in E.
  destruct (_ - _)%Z as [|p|p]; cbn [binary_normalize] in E; try discriminate.
  - destruct (binary_round_nonzero false p (Z.min ea eb) ltac:(lia))
      as [(m' & e' & H)|H]; rewrite H in E; discriminate.
  - destruct (binary_round_nonzero true p (Z.min ea eb) ltac:(lia))
      as [(m' & e' & H)|H]; rewrite H in E; discriminate.
Qed.

(** A difference that is not negative, of a number and a finite one. *)
Lemma sub_nonneg (a b : float) :
  is_nan a = false -> finite b -> (a <? b) = false -> nonneg (a - b).
Proof.
  intros Ha Hb Hlt. apply nonneg_of_not_negative.
  - apply sub_not_nan; assumption.
  - rewrite sub_negative. exact Hlt.
Qed.

Lemma SFdiv_core_binary_nonneg (m1 m2 : positive) (e1 e2 : Z) :
  (0 <= fst (fst (SFdiv_core_binary prec emax (Z.pos m1) e1 (Z.pos m2) e2)))%Z.
Proof.
  unfold SFdiv_core_binary.
  set (s := (e1 - e2 - _)%Z).
  set (m' := match s with 0%Z => Z.pos m1 | Z.pos _ => Z.shiftl (Z.pos m1) s
             | Z.neg _ => 0%Z end).
  assert (Hm' : (0 <= m')%Z).
  { unfold m'. destruct s; try lia. apply Z.shiftl_nonneg. lia. }
  pose proof (Z.div_pos m' (Z.pos m2) Hm' ltac:(lia)) as Hq.
  unfold Z.div in Hq. destruct (Z.div_eucl m' (Z.pos m2)) as [q r].
  exact Hq.
Qed.

(** The quotient of a double that is not negative by a positive finite
    one is not negative. *)
Lemma div_nonneg (x w : float) (m : positive) (e : Z) :
  nonneg x -> Prim2SF w = S754_finite false m e -> nonneg (x / w).
Proof.
  unfold nonneg. intros Hx Hw. rewrite div_spec, Hw.
  destruct (Prim2SF x) as [s|[]| |[] mx ex]; try destruct Hx; try exact I.
  unfold SF64div, SFdiv.
  pose proof (SFdiv_core_binary_nonneg mx m ex e) as Hq.
  destruct (SFdiv_core_binary prec emax (Z.pos mx) ex (Z.pos m) e)
    as [[mz ez] lz].
  cbn [fst] in Hq. cbn [xorb].
  destruct (binary_round_aux_shape false mz ez lz Hq)
    as (K & M' & _ & _ & _ & _ & ->).
  destruct (M' =? 0)%Z; [exact I|]. destruct (_ <=? _)%Z; exact I.
Qed.

Lemma positive_finite (w : float) :
  (0 <? w) = true -> (w <? infinity) = true ->
  exists m e, Prim2SF w = S754_finite false m e.
Proof.
  rewrite !ltb_spec, Prim2SF_zero.
  change (Prim2SF infinity) with (S754_infinity false).
  destruct (Prim2SF w) as [s|[]| |[] m e]; cbn; try discriminate; eauto.
Qed.

(** A positive finite quotient by 24 has a finite numerator; a finite
    difference has finite terms. *)
Lemma div_finite_numerator (x c : float) (m : positive) (e : Z) (mc : positive) (ec : Z) :
  Prim2SF c = S754_finite false mc ec ->
  Prim2SF (x / c) = S754_finite false m e -> finite x.
Proof.
  intros Hc. rewrite div_spec, Hc. unfold finite.
  destruct (Prim2SF x) as [s|s| |s mx ex]; cbn; try discriminate; auto.
Qed.

Lemma sub_finite_terms (a b : float) :
  finite (a - b) -> finite a /\ finite b.
Proof.
  unfold finite. rewrite sub_spec.
  destruct (Prim2SF a) as [sa|sa| |sa ma ea], (Prim2SF b) as [sb|sb| |sb mb eb];
    cbn; auto; try (destruct sa, sb; cbn; tauto).
Qed.

End SignFacts.

(* ================================================================== *)
(** * Bin indices *)
(* ================================================================== *)

Module FloorFacts.

Import JS Stats RoundingFacts RoundFacts OrderFacts SubFacts SignFacts.
Open Scope float_scope.

(** The double of an integer that is a double is that double. *)
Lemma of_Z_exact (m : positive) (e : Z) :
  SpecFloat.bounded prec emax m e = true -> (0 <= e)%Z ->
  of_Z (Z.pos m * 2 ^ e) = SF2Prim (S754_finite false m e).
Proof.
  intros B He. pose proof (bounded_spec m e B) as (Hb & Hm & Hn).
  specialize (Hn ltac:(lia)).
  assert (Hp : (0 < 2 ^ e)%Z) by (apply Z.pow_pos_nonneg; lia).
  unfold of_Z. f_equal.
  destruct (Z.pos m * 2 ^ e)%Z as [|P|P] eqn:EP; try lia.
  cbn [binary_normalize]. unfold binary_round.
  assert (HdP : Z.pos (digits2_pos P) = (53 + e)%Z).
  { apply digits2_pos_eq. rewrite <- EP.
    replace (53 + e - 1)%Z with (52 + e)%Z by lia.
    rewrite !Z.pow_add_r by lia. split; nia. }
  rewrite HdP.
  assert (Hfe : fexp prec emax (53 + e + 0) = e)
    by (unfold fexp, emin, prec, emax; lia).
  rewrite Hfe.
  assert (Hal : shl_align P 0 e = (P, 0%Z)).
  { unfold shl_align. replace (e - 0)%Z with e by lia.
    destruct e; try reflexivity; lia. }
  rewrite Hal.
  destruct (binary_round_aux_shape false (Z.pos P) 0 loc_Exact ltac:(lia))
    as (K & M' & _ & _ & Hex & _ & ->).
  cbn [Zdigits2] in Hex. rewrite HdP, Hfe in Hex.
  replace (Z.max 0 (e - 0)) with e in Hex by lia.
  destruct (Hex eq_refl) as [-> ->].
  { rewrite <- EP. apply Z.mod_mul. lia. }
  rewrite <- EP, Z.div_mul by lia.
  cbn [Z.eqb]. cbn [Z.to_pos].
  replace (0 + e)%Z with e by lia.
  destruct (Z.leb_spec e (emax - prec)); [reflexivity|].
  unfold emax, prec in *. lia.
Qed.

(** [Math.floor] leaves a double that is an integer as it is. *)
Lemma Math_floor_integer (q : float) (m : positive) (e : Z) :
  Prim2SF q = S754_finite false m e -> (0 <= e)%Z -> Math_floor q = q.
Proof.
  intros Hq He. unfold Math_floor, floorZ. rewrite Hq.
  destruct (Z.leb_spec 0 e); [|lia].
  assert (Hp : (0 < 2 ^ e)%Z) by (apply Z.pow_pos_nonneg; lia).
  destruct (Z.eqb_spec (Z.pos m * 2 ^ e) 0); [lia|].
  rewrite of_Z_exact by (try eapply Prim2SF_bounded; eassumption).
  rewrite <- Hq. apply SF2Prim_Prim2SF.
Qed.

Lemma digits2_pos_small (p : positive) :
  (Z.pos p < 2 ^ 52)%Z -> (1 <= Z.pos (digits2_pos p) <= 52)%Z.
Proof.
  intros H. split; [lia|].
  pose proof (digits2_pos_lower p) as Lo.
  destruct (Z_le_gt_dec (Z.pos (digits2_pos p)) 52) as [|Hgt]; [assumption|exfalso].
  assert (2 ^ 52 <= 2 ^ (Z.pos (digits2_pos p) - 1))%Z
    by (apply Z.pow_le_mono_r; lia).
  lia.
Qed.

(** A positive integer below [2^52], as a double, is the array index it
    denotes. *)
Lemma array_index_of_Z (z : Z) :
  (0 < z < 2 ^ 52)%Z -> array_index (of_Z z) = Some (Z.to_nat z).
Proof.
  intros [H0 H1]. destruct z as [|p|p]; try lia.
  pose proof (digits2_pos_small p H1) as HL.
  destruct (Prim2SF_of_Z p _ eq_refl HL) as (mx & Hmx & Hx).
  unfold array_index. rewrite Hx.
  set (L := Z.pos (digits2_pos p)) in *.
  destruct (Z.leb_spec 0 (L - 53)); [lia|].
  replace (- (L - 53))%Z with (53 - L)%Z by lia.
  assert (Hp : (0 < 2 ^ (53 - L))%Z) by (apply Z.pow_pos_nonneg; lia).
  rewrite Hmx, Z.mod_mul, Z.div_mul by lia. reflexivity.
Qed.

(** [Math.floor] of a double that is not negative: plus infinity, or an
    array index. *)
Lemma array_index_Math_floor (q : float) :
  nonneg q ->
  Prim2SF (Math_floor q) = S754_infinity false \/
  exists i, array_index (Math_floor q) = Some i.
Proof.
  unfold nonneg. intros Hq.
  destruct (Prim2SF q) as [s|[]| |[] m e] eqn:E; try destruct Hq.
  - right. exists 0%nat. unfold Math_floor, floorZ. rewrite E. cbn [Z.eqb].
    assert (Heq : (q =? 0) = true) by (rewrite eqb_spec, E; reflexivity).
    rewrite Heq. unfold array_index. rewrite E. reflexivity.
  - left. unfold Math_floor, floorZ. rewrite E. exact E.
  - right. destruct (Z.leb_spec 0 e) as [He|He].
    + rewrite (Math_floor_integer q m e E He). unfold array_index.
      rewrite E. destruct (Z.leb_spec 0 e); [eauto|lia].
    + unfold Math_floor, floorZ. rewrite E.
      destruct (Z.leb_spec 0 e); [lia|].
      assert (Hq0 : (q =? 0) = false) by (rewrite eqb_spec, E; reflexivity).
      rewrite Hq0.
      pose proof (Prim2SF_bounded q _ _ _ E) as B.
      apply bounded_spec in B as (_ & Hm & _).
      assert (Hp : (2 ^ 1 <= 2 ^ (- e))%Z) by (apply Z.pow_le_mono_r; lia).
      change (2 ^ 1)%Z with 2%Z in Hp.
      assert (Hz : (0 <= Z.pos m / 2 ^ (- e) < 2 ^ 52)%Z).
      { split; [apply Z.div_pos; lia|].
        apply Z.div_lt_upper_bound; [lia|].
        change (2 ^ 53)%Z with (2 * 2 ^ 52)%Z in Hm.
        assert (0 < 2 ^ 52)%Z by reflexivity. nia. }
      destruct (Z.eqb_spec (Z.pos m / 2 ^ (- e)) 0) as [_|Hne].
      * exists 0%nat. reflexivity.
      * rewrite array_index_of_Z by lia. eauto.
Qed.

Lemma Math_min_cases (a b : float) :
  is_nan a = false -> is_nan b = false -> Math_min a b = a \/ Math_min a b = b.
Proof.
  intros Ha Hb. unfold Math_min. rewrite Ha, Hb. cbn [orb].
  destruct (a <? b); [auto|]. destruct (b <? a); [auto|].
  destruct (get_sign a); auto.
Qed.

Lemma Prim2SF_23 : Prim2SF 23 = S754_finite false 6473924464345088 (-48).
Proof. reflexivity. Qed.

(** The bin index of a quotient that is not negative is an array index. *)
Lemma bin_index_defined (q : float) :
  nonneg q ->
  exists i, array_index (Math_min (Math_floor q) (of_nat (binCount - 1))) = Some i.
Proof.
  intros Hq.
  replace (of_nat (binCount - 1)) with 23 by (vm_compute; reflexivity).
  assert (H23 : array_index 23 = Some 23%nat) by (vm_compute; reflexivity).
  destruct (array_index_Math_floor q Hq) as [Hinf|[i Hi]].
  - exists 23%nat. unfold Math_min.
    assert (is_nan (Math_floor q) = false).
    { destruct (is_nan (Math_floor q)) eqn:En; [|reflexivity].
      apply is_nan_spec in En. congruence. }
    assert (Hn23 : is_nan 23 = false) by (vm_compute; reflexivity).
    assert (H1 : (Math_floor q <? 23) = false)
      by (rewrite ltb_spec, Hinf, Prim2SF_23; reflexivity).
    assert (H2 : (23 <? Math_floor q) = true)
      by (rewrite ltb_spec, Hinf, Prim2SF_23; reflexivity).
    rewrite H, Hn23, H1, H2. exact H23.
  - assert (Hn : is_nan (Math_floor q) = false).
    { destruct (is_nan (Math_floor q)) eqn:En; [|reflexivity].
      apply is_nan_spec in En. unfold array_index in Hi. rewrite En in Hi.
      discriminate. }
    assert (Hn23 : is_nan 23 = false) by (vm_compute; reflexivity).
    destruct (Math_min_cases (Math_floor q) 23 Hn Hn23) as [-> | ->]; eauto.
Qed.

End FloorFacts.

(* ================================================================== *)
(** * The histogram with a positive bin width *)
(* ================================================================== *)

Module WidthFacts.

Import JS Stats RoundingFacts RoundFacts OrderFacts SubFacts SignFacts FloorFacts.
Import StatsFacts SortFacts PercentileFacts RankFacts HistogramFacts.
Open Scope float_scope.

Section Loop.

Variables (lo hi : value) (w : float).

(** A price the loop keeps whose bin quotient is not negative is counted. *)
Lemma histogram_step_inside (counts : list nat) (p : value) :
  length counts = binCount -> outside lo hi p = false ->
  nonneg ((toNumber p - toNumber lo) / w) ->
  list_sum (histogram_step lo hi w counts p) = S (list_sum counts).
Proof.
  intros Hlen Hout Hq. unfold histogram_step.
  unfold outside in Hout. rewrite Hout.
  destruct (bin_index_defined _ Hq) as [i Hi].
  apply (bump_in_range counts _ i Hlen Hi).
Qed.

Lemma histogram_loop_count (ps : list value) (counts : list nat) :
  length counts = binCount ->
  Forall (fun p => outside lo hi p = false ->
                   nonneg ((toNumber p - toNumber lo) / w)) ps ->
  list_sum (fold_left (histogram_step lo hi w) ps counts)
  = (list_sum counts + length (filter (fun p => negb (outside lo hi p)) ps))%nat.
Proof.
  intros Hlen H. revert counts Hlen.
  induction H as [|p t Hp _ IH]; intros counts Hlen; cbn [fold_left filter].
  - cbn. lia.
  - rewrite IH by (rewrite histogram_step_length; exact Hlen).
    destruct (outside lo hi p) eqn:E; cbn [negb length].
    + rewrite histogram_step_outside by exact E. reflexivity.
    + rewrite histogram_step_inside by auto. lia.
Qed.

End Loop.

Lemma of_nat_binCount : of_nat binCount = 24.
Proof. vm_compute. reflexivity. Qed.

(** A positive finite bin width: the two ends of the trimmed range are
    finite. *)
Lemma width_finite (lo hi : float) :
  (0 <? (hi - lo) / of_nat binCount) = true ->
  ((hi - lo) / of_nat binCount <? infinity) = true ->
  finite lo /\
  exists m e, Prim2SF ((hi - lo) / of_nat binCount) = S754_finite false m e.
Proof.
  intros H0 H1. destruct (positive_finite _ H0 H1) as (m & e & Hw).
  split; [|eauto].
  rewrite of_nat_binCount in Hw.
  apply (div_finite_numerator _ 24 m e _ _ JSFacts.Prim2SF_24) in Hw.
  apply sub_finite_terms in Hw. tauto.
Qed.

(** With a positive finite bin width every final price of the trimmed
    range is counted, in one bin. *)
Lemma fpgaCounts_positive_width (paths : list (list float)) :
  numeric (finalPrices paths) -> paths <> [] ->
  (0 <? binWidth paths) = true -> (binWidth paths <? infinity) = true ->
  list_sum (fpgaCounts paths)
  = length (filter (fun p => negb (outside (trimLow paths) (trimHigh paths) p))
                   (finalPrices paths)) /\
  (index_098 (length paths) - index_002 (length paths) + 1
   <= list_sum (fpgaCounts paths))%nat.
Proof.
  intros Hnum Hne H0 H1.
  destruct (percentiles_numeric paths Hnum Hne)
    as (lo & v & hi & Hlo & Hv & Hhi & Etl & Ev & Eth).
  unfold binWidth in H0, H1. rewrite Etl, Eth in H0, H1. cbn [toNumber] in H0, H1.
  destruct (width_finite lo hi H0 H1) as (Hfin & m & e & Hw).
  assert (Hcount : list_sum (fpgaCounts paths)
    = length (filter (fun p => negb (outside (trimLow paths) (trimHigh paths) p))
                     (finalPrices paths))).
  { unfold fpgaCounts. rewrite histogram_loop_count.
    - rewrite list_sum_repeat_0. reflexivity.
    - apply repeat_length.
    - apply Forall_impl with (2 := Hnum). intros p (x & -> & Hx) Hout.
      unfold binWidth. rewrite Etl, Eth. cbn [toNumber].
      apply (div_nonneg _ _ m e); [|exact Hw].
      apply sub_nonneg; [exact Hx|exact Hfin|].
      unfold outside in Hout. rewrite Etl in Hout.
      apply orb_false_iff in Hout as [Hout _]. exact Hout. }
  split; [exact Hcount|]. rewrite Hcount, Etl, Eth.
  destruct (sorted_numeric paths Hnum) as (_ & Hss & _).
  destruct (numeric_numbers _ Hnum) as (_ & _ & Hnn).
  change (fun p => negb (outside (Num lo) (Num hi) p))
    with (fun p => negb (PrimFloat.ltb (toNumber p) lo
                         || PrimFloat.ltb hi (toNumber p))).
  rewrite (count_sorted_numbers
             (fun x => negb (PrimFloat.ltb x lo || PrimFloat.ltb hi x)) paths Hnum).
  apply (StronglySorted_between _ _ _ lo hi Hss); try assumption.
  - apply sort_numbers_not_nan. exact Hnn.
  - pose proof (index_order (length paths)). lia.
Qed.

End WidthFacts.

(* ================================================================== *)
(** * The statistics engine: order statistics and histogram *)
(* ================================================================== *)

Module EngineProperties.

Import JS Stats Scenario OrderFacts SubFacts SignFacts.
Import StatsFacts SortFacts PercentileFacts RankFacts HistogramFacts.
Import EngineFacts WidthFacts.
Open Scope float_scope.

Lemma three_paths_numeric : numeric (finalPrices three_paths).
Proof.
  repeat constructor; eexists; (split; [reflexivity|vm_compute; reflexivity]).
Qed.

(** X1: the copy of the final prices that [sort] orders is a rearrangement of
    them, and on an ensemble whose final prices are numbers other than NaN
    it is ascending: an element is at most every later one. *)
Theorem sorted_ascending (paths : list (list float)) :
  numeric (finalPrices paths) ->
  Permutation (sorted paths) (finalPrices paths) /\
  forall i j, (i <= j)%nat -> (j < length paths)%nat ->
    exists x y,
      get_value (sorted paths) i = Num x /\
      get_value (sorted paths) j = Num y /\
      (x <=? y) = true.
Proof.
  intros Hnum. split; [apply sort_Permutation|].
  intros i j Hij Hj. apply sorted_ascending_at; assumption.
Qed.

Lemma sorted_ascending_witness :
  numeric (finalPrices three_paths) /\
  Permutation (sorted three_paths) (finalPrices three_paths) /\
  exists x y,
    get_value (sorted three_paths) 0 = Num x /\
    get_value (sorted three_paths) 2 = Num y /\
    (x <=? y) = true.
Proof.
  split; [exact three_paths_numeric|].
  destruct (sorted_ascending three_paths three_paths_numeric) as [Hp Ho].
  split; [exact Hp|].
  apply (Ho 0 2)%nat; [lia|unfold three_paths; cbn [length]; lia].
Defined.

(** X2: value at risk: the reported figure is the two-decimal rounding of a
    final price [v] of the ensemble below which at most [floor(N / 20)] of
    the [N] final prices lie, while more than [floor(N / 20)] lie at or
    below it. *)
Theorem var95_rank (paths : list (list float)) (startPrice : value)
    (random : random_source) (k : nat) :
  numeric (finalPrices paths) -> paths <> [] ->
  exists v st k',
    computeStatsFromPaths random k paths startPrice = (Ok st, k') /\
    value_at_risk_95 (risk_statistics st) = parseFloat_toFixed 2 v /\
    In (Num v) (finalPrices paths) /\
    (length (filter (fun p => lt p (Num v)) (finalPrices paths))
     <= length paths / 20)%nat /\
    (length paths / 20
     < length (filter (fun p => le p (Num v)) (finalPrices paths)))%nat.
Proof.
  intros Hnum Hne.
  destruct (computeStats_returns random k paths startPrice Hne
              (numeric_nonempty paths Hnum)) as (v & cv & Hv & Hcv & Hrun).
  exists v. do 2 eexists. split; [exact Hrun|]. split; [reflexivity|].
  split; [rewrite <- Hv; apply var95_In; exact Hne|].
  destruct (percentiles_numeric paths Hnum Hne)
    as (lo & v' & hi & _ & Hv' & _ & _ & Ev & _).
  assert (v' = v) by congruence. subst v'.
  destruct (sorted_numeric paths Hnum) as (_ & Hss & _).
  destruct (numeric_numbers _ Hnum) as (_ & _ & Hnn).
  apply sort_numbers_not_nan in Hnn.
  destruct (StronglySorted_rank _ _ v Hss Hnn Hv') as [H1 H2].
  change (fun p => lt p (Num v)) with (fun p => PrimFloat.ltb (toNumber p) v).
  change (fun p => le p (Num v)) with (fun p => PrimFloat.leb (toNumber p) v).
  rewrite (count_sorted_numbers (fun x => PrimFloat.ltb x v) paths Hnum).
  rewrite (count_sorted_numbers (fun x => PrimFloat.leb x v) paths Hnum).
  split; assumption.
Qed.

Lemma var95_rank_witness :
  exists v st k',
    computeStatsFromPaths two_phase 0 three_paths (Num 100) = (Ok st, k') /\
    value_at_risk_95 (risk_statistics st) = parseFloat_toFixed 2 v /\
    In (Num v) (finalPrices three_paths).
Proof.
  destruct (var95_rank three_paths (Num 100) two_phase 0 three_paths_numeric
              ltac:(discriminate)) as (v & st & k' & H1 & H2 & H3 & _).
  exists v, st, k'. repeat split; assumption.
Defined.

(** X3: conditional value at risk: the tail that is averaged is the [K]
    smallest final prices, a prefix of the sorted array, with
    [floor(N / 20) < K <= N]. *)
Theorem cvar95_smallest (paths : list (list float)) (startPrice : value)
    (random : random_source) (k : nat) :
  numeric (finalPrices paths) -> paths <> [] ->
  exists K st k',
    computeStatsFromPaths random k paths startPrice = (Ok st, k') /\
    (length paths / 20 < K <= length paths)%nat /\
    cvarValues paths = firstn K (sorted paths) /\
    conditional_value_at_risk_95 (risk_statistics st)
    = parseFloat_toFixed 2 (sum_values (firstn K (sorted paths)) / of_nat K).
Proof.
  intros Hnum Hne.
  destruct (computeStats_returns random k paths startPrice Hne
              (numeric_nonempty paths Hnum)) as (v & cv & Hv & Hcv & Hrun).
  destruct (percentiles_numeric paths Hnum Hne)
    as (lo & v' & hi & _ & Hv' & _ & _ & Ev & _).
  assert (v' = v) by congruence. subst v'.
  destruct (sorted_numeric paths Hnum) as (Hs & Hss & Hlen).
  destruct (numeric_numbers _ Hnum) as (_ & _ & Hnn).
  apply sort_numbers_not_nan in Hnn.
  destruct (StronglySorted_rank _ _ v Hss Hnn Hv') as [_ H2].
  set (K := length (filter (fun x => PrimFloat.leb x v) (sorted_numbers paths))) in *.
  assert (Hcv' : cvarValues paths = firstn K (sorted paths)).
  { unfold cvarValues. rewrite Hv, Hs, filter_map_Num.
    change (fun x => le (Num x) (Num v)) with (fun x => PrimFloat.leb x v).
    rewrite (StronglySorted_filter_prefix v _ Hss). fold K.
    now rewrite firstn_map. }
  assert (HK : (K <= length paths)%nat).
  { unfold K. rewrite <- Hlen. apply filter_length_le. }
  assert (HlenK : length (cvarValues paths) = K).
  { rewrite Hcv', length_firstn, sorted_length. lia. }
  exists K. do 2 eexists. split; [exact Hrun|].
  split; [unfold index_005 in H2; lia|]. split; [exact Hcv'|].
  cbn [result_of risk_statistics conditional_value_at_risk_95]. f_equal.
  unfold cvar95 in Hcv. rewrite HlenK in Hcv.
  destruct (Nat.ltb_spec 0 K); [|lia].
  rewrite Hcv' in Hcv. congruence.
Qed.

Lemma cvar95_smallest_witness :
  exists K st k',
    computeStatsFromPaths two_phase 0 three_paths (Num 100) = (Ok st, k') /\
    cvarValues three_paths = firstn K (sorted three_paths).
Proof.
  destruct (cvar95_smallest three_paths (Num 100) two_phase 0 three_paths_numeric
              ltac:(discriminate)) as (K & st & k' & H1 & _ & H3 & _).
  exists K, st, k'. split; assumption.
Defined.

(** X4: with a positive finite bin width the histogram counts exactly the final
    prices of the trimmed range, each in one bin: the counts add up to the
    number of final prices that are neither below [trimLow] nor above
    [trimHigh], which is at least [floor(49 N / 50) - floor(N / 50) + 1]. *)
Theorem histogram_counts_trimmed_range (paths : list (list float))
    (startPrice : value) (random : random_source) (k : nat) :
  numeric (finalPrices paths) -> paths <> [] ->
  (0 <? binWidth paths) = true -> (binWidth paths <? infinity) = true ->
  exists st k',
    computeStatsFromPaths random k paths startPrice = (Ok st, k') /\
    list_sum (fpga_counts (histogram_data st))
    = length (filter (fun p => negb (lt p (trimLow paths) || gt p (trimHigh paths)))
                     (finalPrices paths)) /\
    (49 * length paths / 50 - length paths / 50 + 1
     <= list_sum (fpga_counts (histogram_data st)) <= length paths)%nat.
Proof.
  intros Hnum Hne H0 H1.
  destruct (computeStats_returns random k paths startPrice Hne
              (numeric_nonempty paths Hnum)) as (v & cv & Hv & Hcv & Hrun).
  destruct (fpgaCounts_positive_width paths Hnum Hne H0 H1) as [Hc Hlow].
  do 2 eexists. split; [exact Hrun|].
  cbn [result_of histogram_data fpga_counts]. split; [exact Hc|].
  split; [exact Hlow|apply fpgaCounts_sum_le].
Qed.

Lemma three_paths_width :
  (0 <? binWidth three_paths) = true /\ (binWidth three_paths <? infinity) = true.
Proof. split; vm_compute; reflexivity. Qed.

Lemma histogram_counts_trimmed_range_witness :
  exists st k',
    computeStatsFromPaths two_phase 0 three_paths (Num 100) = (Ok st, k') /\
    list_sum (fpga_counts (histogram_data st)) = 3%nat.
Proof.
  destruct (histogram_counts_trimmed_range three_paths (Num 100) two_phase 0
              three_paths_numeric ltac:(discriminate)
              (proj1 three_paths_width) (proj2 three_paths_width))
    as (st & k' & H1 & H2 & _).
  exists st, k'. split; [exact H1|]. rewrite H2. vm_compute. reflexivity.
Defined.

End EngineProperties.

(* ================================================================== *)
(** * The statistics engine: when it throws *)
(* ================================================================== *)

Module ThrowFacts.

Import JS Stats Scenario StatsFacts EngineFacts.
Open Scope float_scope.

(** [p.length > 0] *)
Definition nonempty (p : list float) : bool :=
  match p with [] => false | _ :: _ => true end.

Lemma numbers_finalPrices_length (paths : list (list float)) :
  length (numbers (finalPrices paths)) = length (filter nonempty paths).
Proof.
  induction paths as [|p t IH]; [reflexivity|].
  cbn [finalPrices map filter]. fold (finalPrices t).
  destruct p as [|x p'].
  - cbn [nonempty]. exact IH.
  - cbn [nonempty length].
    destruct (get_last (x :: p') ltac:(discriminate)) as (y & Hy & _).
    cbn [length] in Hy. rewrite Hy.
    change (numbers (Num y :: finalPrices t)) with (y :: numbers (finalPrices t)).
    cbn [length]. now rewrite IH.
Qed.

Lemma undefineds_nth (l : list value) (i : nat) :
  nth i (undefineds l) Undefined = Undefined.
Proof.
  destruct (nth_in_or_default i (undefineds l) Undefined) as [Hin|H]; [|exact H].
  unfold undefineds in Hin. apply filter_In in Hin as [_ Hf].
  destruct (nth i _ Undefined); [discriminate|reflexivity].
Qed.

(** An element of the sorted array is a number exactly below the count of
    the non-empty paths. *)
Lemma sorted_defined (paths : list (list float)) (i : nat) :
  (exists v, get_value (sorted paths) i = Num v)
  <-> (i < length (filter nonempty paths))%nat.
Proof.
  unfold get_value, sorted, sort.
  rewrite <- numbers_finalPrices_length,
          <- (sort_numbers_length (numbers (finalPrices paths))).
  set (s := sort_numbers (numbers (finalPrices paths))).
  destruct (Nat.lt_ge_cases i (length s)) as [Hlt|Hge].
  - rewrite app_nth1 by (rewrite length_map; exact Hlt).
    rewrite (nth_indep _ Undefined (Num 0)) by (rewrite length_map; exact Hlt).
    rewrite map_nth. split; [intros _; exact Hlt|eauto].
  - rewrite app_nth2 by (rewrite length_map; exact Hge).
    rewrite undefineds_nth. split; [intros [v Hv]; discriminate|lia].
Qed.

Lemma var95_is_number (paths : list (list float)) :
  (exists v, var95 paths = Num v)
  <-> (length paths / 20 < length (filter nonempty paths))%nat.
Proof.
  assert (Hv95 : var95 paths = get_value (sorted paths) (length paths / 20))
    by (unfold var95, index_005; rewrite sorted_length; reflexivity).
  rewrite Hv95. apply sorted_defined.
Qed.

(** Too few paths with a final price: the read of the 5th percentile
    yields [undefined], and [toFixed] on it throws after the 24 draws. *)
Lemma sparse_paths_throw (random : random_source) (k : nat)
    (paths : list (list float)) (startPrice : value) :
  paths <> [] ->
  (length (filter nonempty paths) <= length paths / 20)%nat ->
  computeStatsFromPaths random k paths startPrice
  = (Throw TypeError, (k + 24)%nat).
Proof.
  intros Hne Hcount. rewrite computeStats_unfold.
  destruct paths as [|p ps]; [congruence|].
  destruct (var95 (p :: ps)) as [v|] eqn:Ev; [|reflexivity].
  assert (H : exists v', var95 (p :: ps) = Num v') by eauto.
  apply var95_is_number in H. lia.
Qed.

(** X5: when the call throws and when it returns: it throws a TypeError on an
    empty array, before any draw, and, after its 24 draws, on an array in
    which at most [floor(N / 20)] of the [N] paths are not empty; on every
    other array it returns. *)
Theorem stats_throws (random : random_source) (k : nat)
    (paths : list (list float)) (startPrice : value) :
  (paths = [] ->
   computeStatsFromPaths random k paths startPrice = (Throw TypeError, k)) /\
  (paths <> [] ->
   (length (filter nonempty paths) <= length paths / 20)%nat ->
   computeStatsFromPaths random k paths startPrice
   = (Throw TypeError, (k + 24)%nat)) /\
  (paths <> [] ->
   (length paths / 20 < length (filter nonempty paths))%nat ->
   exists st,
     computeStatsFromPaths random k paths startPrice = (Ok st, (k + 24)%nat)).
Proof.
  split; [intros ->; reflexivity|]. split.
  - apply sparse_paths_throw.
  - intros Hne Hcount. rewrite computeStats_unfold.
    destruct paths as [|p ps]; [congruence|].
    apply var95_is_number in Hcount as [v Ev]. rewrite Ev.
    destruct (cvar95_defined _ v Ev) as [cv ->]. eauto.
Qed.

End ThrowFacts.

(* ================================================================== *)
(** * The statistics engine: a start price that is no number *)
(* ================================================================== *)

Module StartPriceFacts.

Import JS Stats Scenario StatsFacts EngineFacts RoundingFacts OrderFacts DrawdownFacts.
Open Scope float_scope.

Lemma ltb_nan_r (x y : float) : is_nan y = true -> (x <? y) = false.
Proof.
  intros H. apply is_nan_spec in H. rewrite ltb_spec, H.
  destruct (Prim2SF x); reflexivity.
Qed.

Lemma ltb_nan_l (x y : float) : is_nan x = true -> (x <? y) = false.
Proof.
  intros H. apply is_nan_spec in H. rewrite ltb_spec, H. reflexivity.
Qed.

(** Against a start price that is no number, no step is below it. *)
Lemma maxDrawdown_nan (days : nat) (startPrice : value) (p : list float) :
  is_nan (toNumber startPrice) = true -> maxDrawdown days startPrice p = 0%nat.
Proof.
  intros H. unfold maxDrawdown.
  assert (Hfold : forall l, fold_left (drawdown_step p startPrice) l (0, 0)%nat
                            = (0, 0)%nat).
  { induction l as [|d t IH]; [reflexivity|].
    cbn [fold_left]. unfold drawdown_step at 2. unfold lt.
    rewrite (ltb_nan_r _ _ H). exact IH. }
  now rewrite Hfold.
Qed.

Lemma maxDrawdowns_nan (paths : list (list float)) (startPrice : value) :
  is_nan (toNumber startPrice) = true ->
  maxDrawdowns paths startPrice = repeat 0%nat (length paths).
Proof.
  intros H. unfold maxDrawdowns.
  generalize (length (hd [] paths)). intros days.
  induction paths as [|p t IH]; [reflexivity|].
  cbn [map length repeat]. now rewrite maxDrawdown_nan, IH.
Qed.

Lemma filter_gt_nan (l : list value) (startPrice : value) :
  is_nan (toNumber startPrice) = true ->
  filter (fun p => gt p startPrice) l = [].
Proof.
  intros H. induction l as [|v t IH]; [reflexivity|].
  cbn [filter]. unfold gt at 1. now rewrite (ltb_nan_l _ _ H).
Qed.

(** The double of a positive array length. *)
Lemma Prim2SF_of_nat (n : nat) :
  (0 < n)%nat -> (Z.of_nat n < max_length)%Z ->
  exists m e, Prim2SF (of_nat n) = S754_finite false m e.
Proof.
  intros H0 H1. unfold of_nat. destruct (Z.of_nat n) as [|p|p] eqn:E; try lia.
  assert (Hs : (1 <= Z.pos (digits2_pos p) <= 52)%Z).
  { apply FloorFacts.digits2_pos_small. unfold max_length in H1.
    assert (2 ^ 32 < 2 ^ 52)%Z by reflexivity. lia. }
  destruct (Prim2SF_of_Z p _ eq_refl Hs) as (mx & _ & Hx). eauto.
Qed.

Lemma zero_div_of_nat (n : nat) :
  (0 < n)%nat -> (Z.of_nat n < max_length)%Z -> of_nat 0 / of_nat n = 0.
Proof.
  intros H0 H1. destruct (Prim2SF_of_nat n H0 H1) as (m & e & Hn).
  apply Prim2SF_inj. rewrite div_spec, Hn. reflexivity.
Qed.

Lemma list_sum_repeat_zero (n : nat) : list_sum (repeat 0%nat n) = 0%nat.
Proof. induction n; cbn; auto. Qed.

Lemma filter_bucket_zero_above (lo : nat) (hi : option nat) (n : nat) :
  (1 <= lo)%nat -> filter (in_bucket (lo, hi)) (repeat 0%nat n) = [].
Proof.
  intros Hlo. induction n as [|n IH]; [reflexivity|].
  cbn [repeat filter]. unfold in_bucket at 1.
  destruct (Nat.leb_spec lo 0); [lia|]. exact IH.
Qed.

Lemma filter_bucket_zero_first (s n : nat) :
  (1 <= s)%nat ->
  filter (in_bucket (0%nat, Some s)) (repeat 0%nat n) = repeat 0%nat n.
Proof.
  intros Hs. induction n as [|n IH]; [reflexivity|].
  cbn [repeat filter]. unfold in_bucket at 1. cbn [Nat.leb andb].
  destruct (Nat.ltb_spec 0 s); [|lia]. now rewrite IH.
Qed.

Lemma ddCounts_zero (days n : nat) :
  ddCounts days (repeat 0%nat n) = [n; 0; 0; 0; 0]%nat.
Proof.
  unfold ddCounts. rewrite ddBinEdges_eq. cbv zeta.
  pose proof (ddStep_pos days) as Hs. generalize dependent (ddStep days).
  intros s Hs. cbn [map].
  rewrite filter_bucket_zero_first, !filter_bucket_zero_above by lia.
  now rewrite repeat_length.
Qed.

(** X6: a start price that is no number ([undefined], NaN) raises no error:
    the call reports a profit probability of 0, an average drawdown of 0
    days and every path in the first drawdown bucket. *)
Theorem nan_start_price (random : random_source) (k : nat)
    (paths : list (list float)) (startPrice : value) :
  is_nan (toNumber startPrice) = true ->
  paths <> [] -> Forall (fun p => p <> []) paths ->
  (Z.of_nat (length paths) < max_length)%Z ->
  exists st k',
    computeStatsFromPaths random k paths startPrice = (Ok st, k') /\
    probability_of_profit (risk_statistics st) = 0 /\
    average_drawdown_days (risk_statistics st) = 0 /\
    dd_counts (drawdown_distribution st) = [length paths; 0; 0; 0; 0]%nat.
Proof.
  intros Hnan Hne Hall Hlen.
  destruct (computeStats_returns random k paths startPrice Hne Hall)
    as (v & cv & _ & _ & Hrun).
  do 2 eexists. split; [exact Hrun|].
  assert (Hpos : (0 < length paths)%nat) by (destruct paths; [congruence|cbn; lia]).
  cbn [result_of risk_statistics probability_of_profit average_drawdown_days
       drawdown_distribution dd_counts].
  split; [|split].
  - unfold probProfit. rewrite filter_gt_nan by exact Hnan. cbn [length].
    rewrite zero_div_of_nat by assumption. vm_compute. reflexivity.
  - unfold avgDrawdown. rewrite maxDrawdowns_nan, list_sum_repeat_zero by exact Hnan.
    rewrite zero_div_of_nat by assumption. vm_compute. reflexivity.
  - rewrite maxDrawdowns_nan by exact Hnan. apply ddCounts_zero.
Qed.

Lemma nan_start_price_witness :
  exists st k',
    computeStatsFromPaths two_phase 0 three_paths Undefined = (Ok st, k') /\
    probability_of_profit (risk_statistics st) = 0.
Proof.
  destruct (nan_start_price two_phase 0 three_paths Undefined)
    as (st & k' & H1 & H2 & _).
  - vm_compute. reflexivity.
  - discriminate.
  - repeat constructor; discriminate.
  - vm_compute. reflexivity.
  - exists st, k'. split; assumption.
Defined.

End StartPriceFacts.

(* ================================================================== *)
(** * The raw-paths route: timings *)
(* ================================================================== *)

Module SpeedupFacts.

Import JS Acquire Scenario RoundingFacts RoundFacts FloorFacts.
Local Open Scope Z_scope.

Lemma div_eucl_exact (a b Q : Z) :
  0 < b -> a = Q * b -> Z.div_eucl a b = (Q, 0).
Proof.
  intros Hb Ha. pose proof (Z_div_mod a b ltac:(lia)) as H.
  destruct (Z.div_eucl a b) as [q r]. destruct H as [H1 H2].
  assert (r = b * (Q - q)) by lia.
  assert (Q = q) by nia. subst. f_equal. lia.
Qed.

Lemma fexp_eq (x : Z) : fexp prec emax x = Z.max (x - 53) (-1074).
Proof. reflexivity. Qed.

Lemma new_location_exact (n : Z) : new_location n 0 = loc_Exact.
Proof. unfold new_location. destruct (Z.even n); reflexivity. Qed.

(** The quotient of two normal doubles whose mantissas are in an integer
    ratio [Q]. *)
Lemma SFdiv_exact (m1 m2 : positive) (e1 e2 Q : Z) :
  Z.pos (digits2_pos m1) = 53 -> Z.pos (digits2_pos m2) = 53 ->
  -1021 <= e1 - e2 ->
  Z.pos m1 * 2 ^ 53 = Q * Z.pos m2 ->
  SFdiv prec emax (S754_finite false m1 e1) (S754_finite false m2 e2)
  = binary_round_aux prec emax false Q (e1 - e2 - 53) loc_Exact.
Proof.
  intros H1 H2 He HQ. unfold SFdiv, SFdiv_core_binary. cbn [Zdigits2 xorb].
  rewrite H1, H2.
  replace (Z.min (fexp prec emax (53 + e1 - (53 + e2))) (e1 - e2))
    with (e1 - e2 - 53) by (rewrite fexp_eq; lia).
  replace (e1 - e2 - (e1 - e2 - 53)) with 53 by lia.
  rewrite Z.shiftl_mul_pow2 by lia.
  rewrite (div_eucl_exact (Z.pos m1 * 2 ^ 53) (Z.pos m2) Q (Pos2Z.is_pos m2) HQ),
          new_location_exact.
  reflexivity.
Qed.

Lemma round_15_a :
  binary_round_aux prec emax false (15 * 2 ^ 50) (3 - 53) loc_Exact
  = S754_finite false 8444249301319680 (-49).
Proof. vm_compute. reflexivity. Qed.

Lemma round_15_b :
  binary_round_aux prec emax false (15 * 2 ^ 49) (4 - 53) loc_Exact
  = S754_finite false 8444249301319680 (-49).
Proof. vm_compute. reflexivity. Qed.

Lemma Prim2SF_15 : Prim2SF 15 = S754_finite false 8444249301319680 (-49).
Proof. vm_compute. reflexivity. Qed.

Lemma digits2_pos_53 (p mx : positive) (L : Z) :
  Z.pos (digits2_pos p) = L -> 1 <= L <= 52 ->
  Z.pos mx = Z.pos p * 2 ^ (53 - L) -> Z.pos (digits2_pos mx) = 53.
Proof.
  intros HL Hr Hmx. apply digits2_pos_eq. rewrite Hmx.
  pose proof (digits2_pos_upper p) as U. pose proof (digits2_pos_lower p) as Lo.
  rewrite HL in U, Lo.
  replace (2 ^ (53 - 1)) with (2 ^ (L - 1) * 2 ^ (53 - L))
    by (rewrite <- Z.pow_add_r by lia; f_equal; lia).
  replace (2 ^ 53) with (2 ^ L * 2 ^ (53 - L))
    by (rewrite <- Z.pow_add_r by lia; f_equal; lia).
  assert (0 < 2 ^ (53 - L)) by (apply Z.pow_pos_nonneg; lia). nia.
Qed.

(** A whole number of milliseconds divides fifteen times itself to 15,
    exactly. *)
Lemma fifteen_times (f : Z) :
  1 <= f < 2 ^ 48 -> (of_Z (f * 15) / of_Z f)%float = 15%float.
Proof.
  intros [Hf1 Hf2]. destruct f as [|p|p]; try lia.
  set (L := Z.pos (digits2_pos p)).
  pose proof (digits2_pos_upper p) as U. pose proof (digits2_pos_lower p) as Lo.
  fold L in U, Lo.
  assert (HL : 1 <= L <= 48).
  { split; [unfold L; lia|].
    destruct (Z_le_gt_dec L 48) as [|Hgt]; [assumption|exfalso].
    assert (2 ^ 48 <= 2 ^ (L - 1)) by (apply Z.pow_le_mono_r; lia). lia. }
  assert (Hp2 : 2 ^ L = 2 * 2 ^ (L - 1))
    by (rewrite <- Z.pow_succ_r by lia; f_equal; lia).
  assert (Hp3 : 2 ^ (L + 3) = 8 * 2 ^ L)
    by (rewrite Z.pow_add_r by lia; change (2 ^ 3) with 8; lia).
  assert (Hp4 : 2 ^ (L + 4) = 16 * 2 ^ L)
    by (rewrite Z.pow_add_r by lia; change (2 ^ 4) with 16; lia).
  change (Z.pos p * 15) with (Z.pos (p * 15)).
  destruct (Prim2SF_of_Z p L eq_refl ltac:(lia)) as (mx & Hmx & Hx).
  pose proof (digits2_pos_53 p mx L eq_refl ltac:(lia) Hmx) as Hdx.
  apply Prim2SF_inj. rewrite div_spec, Hx, Prim2SF_15.
  destruct (Z_lt_le_dec (Z.pos (p * 15)) (2 ^ (L + 3))) as [Hlt|Hge].
  - assert (Hd : Z.pos (digits2_pos (p * 15)) = L + 3).
    { apply digits2_pos_eq. replace (L + 3 - 1) with (L + 2) by lia.
      assert (2 ^ (L + 2) = 4 * 2 ^ L)
        by (rewrite Z.pow_add_r by lia; change (2 ^ 2) with 4; lia).
      rewrite Pos2Z.inj_mul in *. lia. }
    destruct (Prim2SF_of_Z (p * 15) (L + 3) Hd ltac:(lia)) as (my & Hmy & Hy).
    pose proof (digits2_pos_53 (p * 15) my (L + 3) Hd ltac:(lia) Hmy) as Hdy.
    rewrite Hy. unfold SF64div.
    rewrite (SFdiv_exact my mx _ _ (15 * 2 ^ 50) Hdy Hdx).
    + replace (L + 3 - 53 - (L - 53) - 53) with (3 - 53) by lia.
      exact round_15_a.
    + lia.
    + rewrite Hmy, Hmx, Pos2Z.inj_mul.
      replace (53 - L) with ((53 - (L + 3)) + 3) by lia.
      rewrite (Z.pow_add_r 2 (53 - (L + 3)) 3) by lia.
      change (2 ^ 3) with 8. change (2 ^ 53) with (8 * 2 ^ 50). ring.
  - assert (Hd : Z.pos (digits2_pos (p * 15)) = L + 4).
    { apply digits2_pos_eq. replace (L + 4 - 1) with (L + 3) by lia.
      rewrite Pos2Z.inj_mul in *. lia. }
    destruct (Prim2SF_of_Z (p * 15) (L + 4) Hd ltac:(lia)) as (my & Hmy & Hy).
    pose proof (digits2_pos_53 (p * 15) my (L + 4) Hd ltac:(lia) Hmy) as Hdy.
    rewrite Hy. unfold SF64div.
    rewrite (SFdiv_exact my mx _ _ (15 * 2 ^ 49) Hdy Hdx).
    + replace (L + 4 - 53 - (L - 53) - 53) with (4 - 53) by lia.
      exact round_15_b.
    + lia.
    + rewrite Hmy, Hmx, Pos2Z.inj_mul.
      replace (53 - L) with ((53 - (L + 4)) + 4) by lia.
      rewrite (Z.pow_add_r 2 (53 - (L + 4)) 4) by lia.
      change (2 ^ 4) with 16. change (2 ^ 53) with (16 * 2 ^ 49). ring.
Qed.

Lemma toFixed_15 : parseFloat_toFixed 1 15 = 15%float.
Proof. vm_compute. reflexivity. Qed.

Lemma fpgaTime_pos (w : world) : 1 <= fpgaTime w.
Proof. unfold fpgaTime. lia. Qed.

Lemma raw_performance_speedup (w : world) :
  fpgaTime w < 2 ^ 48 ->
  speed_improvement_x (raw_performance w) = 15%float.
Proof.
  intros H. unfold raw_performance. cbn [speed_improvement_x].
  unfold cpuTime. rewrite fifteen_times by (pose proof (fpgaTime_pos w); lia).
  exact toFixed_15.
Qed.

(** What [fetchRawPaths] returns carries the ticker asked for and the
    timing derived from the clock. *)
Lemma fetchRawPaths_Ok (w : world) (k : nat) (tk : string)
    (r : CanonicalResult) (k' : nat) :
  fetchRawPaths w k tk = (Ok r, k') ->
  ticker r = tk /\ name r = Some tk /\ performance r = raw_performance w.
Proof.
  unfold fetchRawPaths.
  destruct (raw w) as [|status b]; [discriminate|].
  destruct (negb (ok status)); [discriminate|].
  destruct b as [| |json]; try discriminate.
  destruct (paths json) as [[|[|s0 p] ps]|]; try discriminate.
  destruct (Stats.computeStatsFromPaths _ _ _ _) as [[st|e] k2]; [|discriminate].
  intros H. injection H as <- <-. repeat split.
Qed.

(** X8: on the raw-paths route the reported speed-up is 15 whatever the request
    took: the CPU time is fifteen times the measured time, and the ratio of
    the two is exact. *)
Theorem raw_speedup_is_15 (w : world) (k : nat) (tk : string)
    (r : CanonicalResult) (k' : nat) :
  fetchRawPaths w k tk = (Ok r, k') ->
  fpgaTime w < 2 ^ 48 ->
  speed_improvement_x (performance r) = 15%float /\
  cpu_time_ms (performance r) = of_Z (15 * Z.max 1 (Math_round_Z (apiTime w))) /\
  fpga_time_ms (performance r) = of_Z (Z.max 1 (Math_round_Z (apiTime w))).
Proof.
  intros Hrun Hlt. destruct (fetchRawPaths_Ok w k tk r k' Hrun) as (_ & _ & ->).
  split; [apply raw_performance_speedup; exact Hlt|].
  unfold raw_performance, cpuTime, fpgaTime. cbn [cpu_time_ms fpga_time_ms].
  split; [f_equal; lia|reflexivity].
Qed.

Lemma raw_speedup_is_15_witness :
  exists r k',
    fetchRawPaths rich_404_raw_200 0 "SPY" = (Ok r, k') /\
    speed_improvement_x (performance r) = 15%float.
Proof.
  destruct (AcquireFacts.fetchRawPaths_returns rich_404_raw_200 0 "SPY" 200 single_path
              eq_refl eq_refl ltac:(discriminate)
              ltac:(repeat constructor; discriminate))
    as (s0 & st & _ & _ & Hrun).
  do 2 eexists. split; [exact Hrun|].
  apply (raw_speedup_is_15 _ _ _ _ _ Hrun). vm_compute. reflexivity.
Defined.

End SpeedupFacts.

(* ================================================================== *)
(** * Products with a number of the unit interval *)
(* ================================================================== *)

Module UnitFacts.

Import JS Stats Scenario RoundingFacts RoundFacts OrderFacts SubFacts SignFacts.
Import SpeedupFacts.
Local Open Scope Z_scope.

(** Rounding a positive integer at an exponent of the format: the result
    is not zero, keeps the sign, and its exponent is at most one above the
    exponent of the format. *)
Lemma binary_round_exponent (s : bool) (m : positive) (e : Z) :
  -1074 <= e ->
  exists m' e',
    e' <= fexp prec emax (Z.pos (digits2_pos m) + e) + 1 /\
    binary_round prec emax s m e
    = if e' <=? emax - prec then S754_finite s m' e' else S754_infinity s.
Proof.
  intros He. unfold binary_round.
  set (d := Z.pos (digits2_pos m)).
  set (f := fexp prec emax (d + e)).
  assert (Hf : f = Z.max (d + e - 53) (-1074)) by reflexivity.
  assert (Hd1 : 1 <= d) by (unfold d; lia).
  destruct (shl_align m e f) as [mz ez] eqn:Ea.
  assert (Hmz : Z.pos mz = Z.pos m * 2 ^ (e - ez) /\ ez = Z.min e f).
  { unfold shl_align in Ea. destruct (f - e) as [|k|k] eqn:Ek;
      inversion Ea; subst.
    - replace (ez - ez) with 0 by lia. change (2 ^ 0) with 1. split; lia.
    - replace (ez - ez) with 0 by lia. change (2 ^ 0) with 1. split; lia.
    - rewrite pos_iter_xO. split; [f_equal; f_equal; lia|lia]. }
  destruct Hmz as [Hmz Hez].
  assert (Hdz : Z.pos (digits2_pos mz) = d + (e - ez)).
  { apply digits2_pos_eq. rewrite Hmz.
    pose proof (digits2_pos_upper m) as U. pose proof (digits2_pos_lower m) as Lo.
    fold d in U, Lo.
    replace (d + (e - ez) - 1) with ((d - 1) + (e - ez)) by lia.
    rewrite !Z.pow_add_r by lia.
    assert (0 < 2 ^ (e - ez)) by (apply Z.pow_pos_nonneg; lia). nia. }
  destruct (binary_round_aux_shape s (Z.pos mz) ez loc_Exact ltac:(lia))
    as (K & M' & HK & HM & _ & Hcase & ->).
  cbn [Zdigits2] in HK, Hcase. rewrite Hdz in HK, Hcase.
  replace (d + (e - ez) + ez) with (d + e) in HK, Hcase by lia.
  fold f in HK, Hcase.
  pose proof (digits2_pos_lower mz) as Lz. rewrite Hdz in Lz.
  assert (HM'pos : 0 < M').
  { destruct Hcase as [HKeq|Hbig]; [|assert (0 < 2 ^ 52) by reflexivity; lia].
    subst K.
    set (k1 := Z.max 0 (f - ez)) in *.
    assert (Hk1 : 0 <= k1 <= d + (e - ez) - 1) by (unfold k1; lia).
    assert (2 ^ k1 <= 2 ^ (d + (e - ez) - 1)) by (apply Z.pow_le_mono_r; lia).
    assert (0 < 2 ^ k1) by (apply Z.pow_pos_nonneg; lia).
    assert (1 <= Z.pos mz / 2 ^ k1) by (apply Z.div_le_lower_bound; lia).
    lia. }
  destruct (Z.eqb_spec M' 0) as [->|_]; [lia|].
  exists (Z.to_pos M'), (ez + K). split; [lia|reflexivity].
Qed.

Lemma Prim2SF_one : Prim2SF 1 = S754_finite false 4503599627370496 (-52).
Proof. vm_compute. reflexivity. Qed.

Lemma Prim2SF_half : Prim2SF 0.5 = S754_finite false 4503599627370496 (-53).
Proof. vm_compute. reflexivity. Qed.

Lemma SFltb_finite (m m2 : positive) (e e2 : Z) :
  SFltb (S754_finite false m e) (S754_finite false m2 e2) = true ->
  e < e2 \/ (e = e2 /\ Z.pos m < Z.pos m2).
Proof.
  unfold SFltb, SFcompare.
  change (Pos.compare_cont Eq m m2) with (Pos.compare m m2).
  destruct (Z.compare_spec e e2) as [->|Hl|Hg]; try discriminate; [|lia].
  destruct (Pos.compare_spec m m2) as [|Hc|]; try discriminate.
  intros _. right. split; [reflexivity|]. apply Pos2Z.pos_lt_pos. exact Hc.
Qed.

(** A double in [[0, 1)]: zero, or a mantissa below [2^(-e)]. *)
Lemma unit_interval (r : float) :
  (0 <=? r)%float = true -> (r <? 1)%float = true ->
  (exists s, Prim2SF r = S754_zero s) \/
  exists m e, Prim2SF r = S754_finite false m e /\
              -1074 <= e <= -53 /\ Z.pos m < 2 ^ 53.
Proof.
  rewrite leb_spec, ltb_spec, Prim2SF_zero, Prim2SF_one.
  pose proof (Prim2SF_valid r) as V.
  destruct (Prim2SF r) as [s|[]| |[] m e];
    try (unfold SFleb, SFltb, SFcompare; discriminate); eauto.
  intros _ Hlt. right. exists m, e. split; [reflexivity|].
  apply bounded_spec in V as (He & Hm & Hn). split; [|exact Hm].
  split; [lia|].
  apply SFltb_finite in Hlt as [Hl|[-> Hc]]; [lia|].
  specialize (Hn ltac:(lia)). exfalso. clear - Hn Hc.
  assert (H52 : 2 ^ 52 = Z.pos 4503599627370496) by reflexivity.
  rewrite H52 in Hn. apply Z.lt_nge in Hc. apply Hc. exact Hn.
Qed.

(** [Math.random() - 0.5] is finite. *)
Lemma sub_half_finite (r : float) :
  (0 <=? r)%float = true -> (r <? 1)%float = true -> finite (r - 0.5)%float.
Proof.
  intros H0 H1. unfold finite. rewrite sub_spec, Prim2SF_half.
  destruct (unit_interval r H0 H1) as [[s ->]|(m & e & -> & He & Hm)]; [exact I|].
  unfold SF64sub, SFsub.
  replace (Z.min e (-53)) with e by lia.
  rewrite !shl_align_spec by lia. cbn [cond_Zopp].
  rewrite Z.sub_diag. change (2 ^ 0) with 1. rewrite Z.mul_1_r.
  assert (Hp : 2 ^ 53 <= 2 ^ (- e)) by (apply Z.pow_le_mono_r; lia).
  assert (Hh : 4503599627370496 * 2 ^ (-53 - e) = 2 ^ (- e - 1)).
  { change 4503599627370496 with (2 ^ 52). rewrite <- Z.pow_add_r by lia.
    f_equal. lia. }
  rewrite Hh.
  assert (Hp1 : 2 ^ (- e) = 2 * 2 ^ (- e - 1))
    by (rewrite <- Z.pow_succ_r by lia; f_equal; lia).
  assert (Hpos : 0 < 2 ^ (- e - 1)) by (apply Z.pow_pos_nonneg; lia).
  destruct (Z.pos m - 2 ^ (- e - 1)) as [|P|P] eqn:EM; cbn [binary_normalize];
    [exact I| |].
  - destruct (binary_round_exponent false P e ltac:(lia)) as (m' & e' & He' & ->).
    assert (Hd : Z.pos (digits2_pos P) <= - e).
    { pose proof (digits2_pos_lower P) as Lo.
      destruct (Z_le_gt_dec (Z.pos (digits2_pos P)) (- e)) as [|Hgt];
        [assumption|exfalso].
      assert (2 ^ (- e) <= 2 ^ (Z.pos (digits2_pos P) - 1))
        by (apply Z.pow_le_mono_r; lia).
      lia. }
    rewrite fexp_eq in He'.
    destruct (Z.leb_spec e' (emax - prec)); [exact I|].
    unfold emax, prec in *. lia.
  - destruct (binary_round_exponent true P e ltac:(lia)) as (m' & e' & He' & ->).
    assert (Hd : Z.pos (digits2_pos P) <= - e).
    { pose proof (digits2_pos_lower P) as Lo.
      destruct (Z_le_gt_dec (Z.pos (digits2_pos P)) (- e)) as [|Hgt];
        [assumption|exfalso].
      assert (2 ^ (- e) <= 2 ^ (Z.pos (digits2_pos P) - 1))
        by (apply Z.pow_le_mono_r; lia).
      lia. }
    rewrite fexp_eq in He'.
    destruct (Z.leb_spec e' (emax - prec)); [exact I|].
    unfold emax, prec in *. lia.
Qed.

End UnitFacts.

(* ================================================================== *)
(** * The comparison series *)
(* ================================================================== *)

Module JitterFacts.

Import JS Stats Scenario OrderFacts SignFacts UnitFacts EngineFacts HistogramFacts.
Open Scope float_scope.

Lemma of_nat_0 : of_nat 0 = 0.
Proof. vm_compute. reflexivity. Qed.

Lemma Prim2SF_004 : Prim2SF 0.04 = S754_finite false 5764607523034235 (-57).
Proof. vm_compute. reflexivity. Qed.

Lemma zero_plus_zero : 0 + 0 = 0.
Proof. vm_compute. reflexivity. Qed.

Lemma zero_plus_neg_zero : 0 + (-0) = 0.
Proof. vm_compute. reflexivity. Qed.

Lemma Math_max_zero : Math_max 0 0 = 0.
Proof. vm_compute. reflexivity. Qed.

(** [Math.round] of a zero is a zero. *)
Lemma Math_round_zero (y : float) (s : bool) :
  Prim2SF y = S754_zero s -> Math_round y = 0 \/ Math_round y = -0.
Proof.
  intros Hy. unfold Math_round, roundZ. rewrite Hy. cbn [Z.eqb].
  destruct ((y <? 0) || get_sign y); auto.
Qed.

(** An empty bin stays empty: its comparison count is [+0] for every draw
    of [[0, 1)]. *)
Lemma jitter_zero (r : float) :
  (0 <=? r) = true -> (r <? 1) = true -> jitter r 0 = 0.
Proof.
  intros H0 H1. unfold jitter. rewrite of_nat_0.
  pose proof (sub_half_finite r H0 H1) as Hx. unfold finite in Hx.
  assert (Hy : exists s, Prim2SF ((r - 0.5) * 0 * 0.04) = S754_zero s).
  { rewrite mul_spec, mul_spec, Prim2SF_zero, Prim2SF_004.
    destruct (Prim2SF (r - 0.5)) as [s|s| |s m e]; try destruct Hx;
      cbn; eauto. }
  destruct Hy as [s Hy].
  destruct (Math_round_zero _ s Hy) as [-> | ->].
  - rewrite zero_plus_zero. exact Math_max_zero.
  - rewrite zero_plus_neg_zero. exact Math_max_zero.
Qed.

(** The comparison series, bin by bin: bin [i] is drawn at cursor [k + i]. *)
Lemma cpuCounts_nth (random : random_source) (k : nat) (counts : list nat) (i : nat) :
  (i < length counts)%nat ->
  nth i (fst (cpuCounts random k counts)) 0
  = jitter (random (k + i)%nat) (nth i counts 0%nat).
Proof.
  revert k i. induction counts as [|c t IH]; intros k i Hi; [cbn in Hi; lia|].
  cbn [cpuCounts]. specialize (IH (S k)).
  destruct (cpuCounts random (S k) t) as [vs k'] eqn:E. cbn [fst] in *.
  destruct i as [|i]; cbn [nth].
  - now rewrite Nat.add_0_r.
  - rewrite IH by (cbn in Hi; lia). f_equal. f_equal. lia.
Qed.

Lemma cpuCounts_length (random : random_source) (k : nat) (counts : list nat) :
  length (fst (cpuCounts random k counts)) = length counts.
Proof.
  revert k. induction counts as [|c t IH]; intros k; [reflexivity|].
  cbn [cpuCounts]. specialize (IH (S k)).
  destruct (cpuCounts random (S k) t) as [vs k']. cbn [fst length] in *.
  now rewrite IH.
Qed.

(** What a call that returned holds. *)
Lemma computeStats_Ok (random : random_source) (k : nat)
    (paths : list (list float)) (startPrice : value) (st : StatsResult) (k' : nat) :
  computeStatsFromPaths random k paths startPrice = (Ok st, k') ->
  k' = (k + binCount)%nat /\
  fpga_counts (histogram_data st) = fpgaCounts paths /\
  cpu_counts (histogram_data st) = fst (cpuCounts random k (fpgaCounts paths)).
Proof.
  rewrite computeStats_unfold. destruct paths as [|p ps]; [discriminate|].
  destruct (var95 (p :: ps)) as [v|]; [|discriminate].
  destruct (cvar95 (p :: ps)) as [cv|]; [|discriminate].
  intros H. injection H as <- <-. repeat split.
Qed.

(** X7: the comparison series of the histogram has one count per bin, each
    drawn from its own value of [Math.random], and a bin the primary series
    leaves empty is empty in the comparison series too. *)
Theorem empty_bins_stay_empty (random : random_source) (k : nat)
    (paths : list (list float)) (startPrice : value) (st : StatsResult) (k' : nat) :
  computeStatsFromPaths random k paths startPrice = (Ok st, k') ->
  (forall i, (i < 24)%nat ->
     (0 <=? random (k + i)%nat) = true /\ (random (k + i)%nat <? 1) = true) ->
  length (cpu_counts (histogram_data st)) = 24%nat /\
  k' = (k + 24)%nat /\
  forall i, (i < 24)%nat ->
    nth i (fpga_counts (histogram_data st)) 0%nat = 0%nat ->
    nth i (cpu_counts (histogram_data st)) 0 = 0.
Proof.
  intros Hrun Hrand.
  destruct (computeStats_Ok _ _ _ _ _ _ Hrun) as (Hk & Hf & Hc).
  rewrite Hf, Hc, cpuCounts_length, fpgaCounts_length.
  split; [reflexivity|]. split; [exact Hk|].
  intros i Hi Hz. rewrite cpuCounts_nth by (rewrite fpgaCounts_length; exact Hi).
  rewrite Hz. destruct (Hrand i Hi) as [H0 H1]. apply jitter_zero; assumption.
Qed.

Lemma two_phase_unit (n : nat) :
  (0 <=? two_phase n) = true /\ (two_phase n <? 1) = true.
Proof.
  unfold two_phase. destruct (n <? 24)%nat; split; vm_compute; reflexivity.
Qed.

Lemma empty_bins_stay_empty_witness :
  exists st k',
    computeStatsFromPaths two_phase 0 single_path (Num 100) = (Ok st, k') /\
    nth 0 (cpu_counts (histogram_data st)) 0 = 0.
Proof.
  destruct (computeStats_returns two_phase 0 single_path (Num 100)
              ltac:(discriminate) ltac:(repeat constructor; discriminate))
    as (v & cv & _ & _ & Hrun).
  do 2 eexists. split; [exact Hrun|].
  apply (empty_bins_stay_empty _ _ _ _ _ _ Hrun
           (fun i _ => two_phase_unit (0 + i))); [lia|].
  vm_compute. reflexivity.
Defined.

End JitterFacts.

(* ================================================================== *)
(** * Rounding a scaled random number *)
(* ================================================================== *)

Module ScaleFacts.

Import JS RoundingFacts RoundFacts OrderFacts SubFacts SignFacts SpeedupFacts UnitFacts.
Local Open Scope Z_scope.

Lemma Zdigits2_lt (x t : Z) : 0 <= t -> 0 <= x < 2 ^ t -> Zdigits2 x <= t.
Proof.
  intros Ht [H0 Hx]. destruct (Z.eq_dec x 0) as [->|Hne]; [cbn; lia|].
  pose proof (Zdigits2_lower x ltac:(lia)) as Hl.
  destruct (Z_le_gt_dec (Zdigits2 x) t) as [|Hgt]; [assumption|exfalso].
  assert (2 ^ t <= 2 ^ (Zdigits2 x - 1)) by (apply Z.pow_le_mono_r; lia).
  lia.
Qed.

(** [Math.round(Math.random() * c)] for a whole number [c = C]: one of the
    integers [0 .. C]. *)
Lemma roundZ_scaled (r c : float) (mc : positive) (ec C : Z) :
  (0 <=? r)%float = true -> (r <? 1)%float = true ->
  Prim2SF c = S754_finite false mc ec ->
  Z.pos mc < 2 ^ 53 -> -1000 <= ec <= -2 -> Z.pos mc = C * 2 ^ (- ec) ->
  exists z, 0 <= z <= C /\ roundZ (r * c) = Some z.
Proof.
  intros H0 H1 Hc Hmc Hec HC.
  assert (HC0 : 0 < C).
  { assert (0 < 2 ^ (- ec)) by (apply Z.pow_pos_nonneg; lia). nia. }
  unfold roundZ. rewrite mul_spec, Hc.
  destruct (unit_interval r H0 H1) as [[s ->]|(m & e & -> & He & Hm)].
  { exists 0. split; [lia|reflexivity]. }
  unfold SF64mul, SFmul. cbn [xorb].
  destruct (binary_round_aux_shape false (Z.pos (m * mc)) (e + ec) loc_Exact
              ltac:(lia)) as (K & M' & HK & HM & _ & _ & ->).
  set (D := Zdigits2 (Z.pos (m * mc))) in *.
  assert (HD : D <= 106).
  { apply Zdigits2_lt; [lia|]. rewrite Pos2Z.inj_mul.
    change (2 ^ 106) with (2 ^ 53 * 2 ^ 53). split; [lia|]. nia. }
  rewrite fexp_eq in HK.
  assert (HE : e + ec + K < 0) by lia.
  assert (HK0 : 0 <= K) by lia.
  set (T := 2 ^ (- (e + ec + K))).
  assert (HT : 0 < T) by (apply Z.pow_pos_nonneg; lia).
  assert (HKT : 2 ^ K * T = 2 ^ (- e) * 2 ^ (- ec)).
  { unfold T. rewrite <- !Z.pow_add_r by lia. f_equal. lia. }
  assert (Hme : Z.pos m < 2 ^ (- e)).
  { assert (2 ^ 53 <= 2 ^ (- e)) by (apply Z.pow_le_mono_r; lia). lia. }
  assert (HpK : 0 < 2 ^ K) by (apply Z.pow_pos_nonneg; lia).
  assert (Hq : Z.pos (m * mc) / 2 ^ K < C * T).
  { apply Z.div_lt_upper_bound; [lia|]. rewrite Pos2Z.inj_mul, HC.
    assert (Hpe : 0 < 2 ^ (- ec)) by (apply Z.pow_pos_nonneg; lia).
    replace (2 ^ K * (C * T)) with (C * (2 ^ K * T)) by ring. rewrite HKT.
    nia. }
  assert (HM0 : 0 <= M').
  { assert (0 <= Z.pos (m * mc) / 2 ^ K) by (apply Z.div_pos; lia). lia. }
  destruct (Z.eqb_spec M' 0) as [->|Hne].
  { exists 0. split; [lia|reflexivity]. }
  destruct (Z.leb_spec (e + ec + K) (emax - prec)) as [_|Hbad];
    [|unfold emax, prec in Hbad; lia].
  destruct (Z.leb_spec 0 (e + ec + K)); [lia|].
  assert (HMp : Z.pos (Z.to_pos M') = M') by (apply Z2Pos.id; lia).
  rewrite HMp. fold T.
  exists ((2 * M' + T) / (2 * T)). split; [|reflexivity].
  split; [apply Z.div_pos; lia|].
  assert ((2 * M' + T) / (2 * T) < C + 1); [|lia].
  apply Z.div_lt_upper_bound; [lia|]. nia.
Qed.

(** [Math.round] in terms of the integer it picks. *)
Lemma Math_round_cases (x : float) (z : Z) :
  roundZ x = Some z ->
  (z = 0 /\ (Math_round x = 0%float \/ Math_round x = (-0)%float)) \/
  (z <> 0 /\ Math_round x = of_Z z).
Proof.
  intros H. unfold Math_round. rewrite H.
  destruct (Z.eqb_spec z 0) as [->|Hne]; [left|right; auto].
  split; [reflexivity|]. destruct ((x <? 0)%float || get_sign x); auto.
Qed.

(** Checking a property of the integers [lo .. lo + n - 1] by running it. *)
Fixpoint all_from (f : Z -> bool) (lo : Z) (n : nat) : bool :=
  match n with
  | O => true
  | S n' => f lo && all_from f (lo + 1) n'
  end.

Lemma all_from_sound (f : Z -> bool) (n : nat) (lo z : Z) :
  all_from f lo n = true -> lo <= z < lo + Z.of_nat n -> f z = true.
Proof.
  revert lo. induction n as [|n IH]; intros lo H Hz; [lia|].
  cbn [all_from] in H. apply andb_true_iff in H as [H1 H2].
  destruct (Z.eq_dec z lo) as [->|Hne]; [exact H1|].
  apply (IH (lo + 1) H2). lia.
Qed.

End ScaleFacts.

(* ================================================================== *)
(** * The timings of the mock *)
(* ================================================================== *)

Module MockFacts.

Import JS Acquire Scenario ScaleFacts UnitFacts JitterFacts EngineFacts.
Local Open Scope Z_scope.

Lemma Prim2SF_25 : Prim2SF 25 = S754_finite false 7036874417766400 (-48).
Proof. vm_compute. reflexivity. Qed.

Lemma Prim2SF_250 : Prim2SF 250 = S754_finite false 8796093022208000 (-45).
Proof. vm_compute. reflexivity. Qed.

(** [140 + n] and [2150 + n] in doubles, for the integers the rounding can
    give. *)
Lemma fpga_sums (z : Z) :
  0 <= z <= 25 -> (140 + of_Z z)%float = of_Z (140 + z).
Proof.
  intros Hz. apply FloatAxioms.Leibniz.eqb_spec.
  apply (all_from_sound
           (fun z => PrimFloat.Leibniz.eqb (140 + of_Z z)%float (of_Z (140 + z)))
           26 0); [vm_compute; reflexivity|lia].
Qed.

Lemma cpu_sums (z : Z) :
  0 <= z <= 250 -> (2150 + of_Z z)%float = of_Z (2150 + z).
Proof.
  intros Hz. apply FloatAxioms.Leibniz.eqb_spec.
  apply (all_from_sound
           (fun z => PrimFloat.Leibniz.eqb (2150 + of_Z z)%float (of_Z (2150 + z)))
           251 0); [vm_compute; reflexivity|lia].
Qed.

Lemma plus_neg_zero_140 : (140 + (-0))%float = of_Z 140.
Proof. vm_compute. reflexivity. Qed.

Lemma plus_neg_zero_2150 : (2150 + (-0))%float = of_Z 2150.
Proof. vm_compute. reflexivity. Qed.

(** The reported ratio of every pair of timings of the mock. *)
Definition speedup_in_range (a b : Z) : bool :=
  let s := parseFloat_toFixed 1 (of_Z b / of_Z a)%float in
  (13 <=? s)%float && (s <=? 17.1)%float.

Lemma speedup_range (a b : Z) :
  140 <= a <= 165 -> 2150 <= b <= 2400 -> speedup_in_range a b = true.
Proof.
  intros Ha Hb.
  apply (all_from_sound (fun b => speedup_in_range a b) 251 2150); [|lia].
  apply (all_from_sound (fun a => all_from (fun b => speedup_in_range a b) 2150 251)
           26 140); [vm_compute; reflexivity|lia].
Qed.

(** [fpgaTime = 140 + Math.round(Math.random() * 25)],
    [cpuTime = 2150 + Math.round(Math.random() * 250)] and their ratio. *)
Lemma mock_performance_range (r1 r2 : float) :
  (0 <=? r1)%float = true -> (r1 <? 1)%float = true ->
  (0 <=? r2)%float = true -> (r2 <? 1)%float = true ->
  exists a b,
    140 <= a <= 165 /\ 2150 <= b <= 2400 /\
    fpga_time_ms (mock_performance r1 r2) = of_Z a /\
    cpu_time_ms (mock_performance r1 r2) = of_Z b /\
    (13 <=? speed_improvement_x (mock_performance r1 r2))%float = true /\
    (speed_improvement_x (mock_performance r1 r2) <=? 17.1)%float = true.
Proof.
  intros H1 H2 H3 H4.
  destruct (roundZ_scaled r1 25 _ (-48) 25 H1 H2 Prim2SF_25)
    as (z1 & Hz1 & Hr1); [reflexivity|lia|reflexivity|].
  destruct (roundZ_scaled r2 250 _ (-45) 250 H3 H4 Prim2SF_250)
    as (z2 & Hz2 & Hr2); [reflexivity|lia|reflexivity|].
  assert (Ha : (140 + Math_round (r1 * 25))%float = of_Z (140 + z1)).
  { destruct (Math_round_cases _ _ Hr1) as [[-> [-> | ->]]|[_ ->]].
    - apply (fpga_sums 0). lia.
    - exact plus_neg_zero_140.
    - apply fpga_sums. lia. }
  assert (Hb : (2150 + Math_round (r2 * 250))%float = of_Z (2150 + z2)).
  { destruct (Math_round_cases _ _ Hr2) as [[-> [-> | ->]]|[_ ->]].
    - apply (cpu_sums 0). lia.
    - exact plus_neg_zero_2150.
    - apply cpu_sums. lia. }
  exists (140 + z1), (2150 + z2). unfold mock_performance.
  cbn [fpga_time_ms cpu_time_ms speed_improvement_x]. rewrite Ha, Hb.
  split; [lia|]. split; [lia|]. split; [reflexivity|]. split; [reflexivity|].
  pose proof (speedup_range (140 + z1) (2150 + z2) ltac:(lia) ltac:(lia)) as Hs.
  unfold speedup_in_range in Hs. apply andb_true_iff in Hs. exact Hs.
Qed.

End MockFacts.

(* ================================================================== *)
(** * The mock data set *)
(* ================================================================== *)

Module MockProperties.

Import JS Acquire Scenario MockFacts JitterFacts EngineFacts AcquireFacts.
Open Scope string_scope.

(** Every path of [generatePaths] has [days] prices and starts at [S0]. *)
Lemma generatePaths_shape (A : Generator.arithmetic) (random : nat -> Generator.num A)
    (mu sigma : Generator.num A) (fuel numPaths : nat) (S0 : Generator.num A)
    (days k : nat) (paths : list (list (Generator.num A))) (k' : nat) :
  Generator.generatePaths A random mu sigma fuel numPaths S0 days k
  = Some (paths, k') ->
  length paths = numPaths /\
  Forall (fun p => length p = days /\
                   ((1 <= days)%nat -> nth_error p 0 = Some S0)) paths.
Proof.
  revert k paths k'. induction numPaths as [|n IH]; intros k paths k';
    cbn [Generator.generatePaths].
  - intros H. injection H as <- <-. split; [reflexivity|constructor].
  - destruct (Generator.generatePath A random mu sigma fuel S0 days k)
      as [[p k1]|] eqn:Hp; [|discriminate].
    destruct (Generator.generatePaths A random mu sigma fuel n S0 days k1)
      as [[ps k2]|] eqn:Hps; [|discriminate].
    intros H. injection H as <- <-.
    destruct (IH _ _ _ Hps) as [Hlen Hall].
    destruct (GeneratorFacts.generatePath_chain A random mu sigma _ _ _ _ _ _ Hp)
      as [Hl Hhd].
    split; [cbn; lia|]. constructor; [|exact Hall].
    split; [exact Hl|]. intros Hd. destruct (Hhd Hd) as (rest & -> & _).
    reflexivity.
Qed.

Section Mock.

Variables (exp log cos : float -> float).

(** What [generateMockData] returns, field by field. *)
Lemma generateMockData_Ok (w : world) (fuel k : nat) (tk : string)
    (r : CanonicalResult) (k' : nat) :
  generateMockData exp log cos w fuel k tk = Some (Ok r, k') ->
  exists allPaths k1 st,
    Generator.generatePaths (Generator.Float64 exp log cos) (random w)
      (toNumber (get_mu (resolve tk))) (toNumber (get_sigma (resolve tk)))
      fuel mock_numPaths (toNumber (get_price (resolve tk))) mock_days k
    = Some (allPaths, k1) /\
    Stats.computeStatsFromPaths (random w) k1 allPaths (get_price (resolve tk))
    = (Ok st, (k1 + 24)%nat) /\
    k' = S (S (k1 + 24)) /\
    r = {| ticker := tk;
           name := get_name (resolve tk);
           start_price := get_price (resolve tk);
           n_steps := mock_days;
           performance :=
             mock_performance (random w (k1 + 24)%nat) (random w (S (k1 + 24)));
           stats := st;
           price_paths := firstn VIZ_SAMPLE_COUNT allPaths |}.
Proof.
  unfold generateMockData.
  destruct (Generator.generatePaths _ _ _ _ _ _ _ _ _) as [[allPaths k1]|] eqn:Hgen;
    [|discriminate].
  destruct (Stats.computeStatsFromPaths (random w) k1 allPaths _)
    as [[st|e] k2] eqn:Hrun; [|discriminate].
  destruct (computeStats_Ok _ _ _ _ _ _ Hrun) as (Hk2 & _ & _).
  unfold Stats.binCount in Hk2. subst k2.
  intros H. injection H as <- <-.
  exists allPaths, k1, st. repeat split; assumption.
Qed.

(** X11: the mock data set: the ticker asked for, 252 steps, a sample of 35
    paths of 252 prices each, every one starting at the start price of the
    configuration, and statistics over 10000 paths. *)
Theorem mock_data_shape (w : world) (fuel k : nat) (tk : string)
    (r : CanonicalResult) (k' : nat) :
  generateMockData exp log cos w fuel k tk = Some (Ok r, k') ->
  ticker r = tk /\
  name r = get_name (resolve tk) /\
  start_price r = get_price (resolve tk) /\
  n_steps r = 252%nat /\
  length (price_paths r) = 35%nat /\
  Forall (fun p => length p = 252%nat /\
                   nth_error p 0 = Some (toNumber (get_price (resolve tk))))
         (price_paths r) /\
  list_sum (Stats.dd_counts (Stats.drawdown_distribution (stats r))) = 10000%nat /\
  (list_sum (Stats.fpga_counts (Stats.histogram_data (stats r))) <= 10000)%nat.
Proof.
  intros Hrun.
  destruct (generateMockData_Ok w fuel k tk r k' Hrun)
    as (allPaths & k1 & st & Hgen & Hst & _ & ->).
  cbn [ticker name start_price n_steps price_paths stats].
  destruct (generatePaths_shape _ _ _ _ _ _ _ _ _ _ _ Hgen) as [Hlen Hall].
  unfold mock_numPaths, mock_days in *.
  repeat split.
  - rewrite length_firstn, Hlen. reflexivity.
  - apply Forall_forall. intros p Hp.
    assert (Hin : In p allPaths).
    { rewrite <- (firstn_skipn VIZ_SAMPLE_COUNT allPaths).
      apply in_or_app. left. exact Hp. }
    clear Hp. rename Hin into Hp.
    rewrite Forall_forall in Hall. destruct (Hall p Hp) as [Hl Hh].
    split; [exact Hl|apply Hh; lia].
  - assert (Hne : allPaths <> []) by (intros ->; discriminate).
    rewrite computeStats_unfold in Hst. destruct allPaths as [|p ps]; [congruence|].
    destruct (Stats.var95 (p :: ps)) as [v|]; [|discriminate].
    destruct (Stats.cvar95 (p :: ps)) as [cv|]; [|discriminate].
    injection Hst as <-. cbn [result_of Stats.drawdown_distribution Stats.dd_counts].
    rewrite DrawdownFacts.ddCounts_sum. unfold Stats.maxDrawdowns.
    rewrite length_map. exact Hlen.
  - destruct (computeStats_Ok _ _ _ _ _ _ Hst) as (_ & -> & _).
    rewrite <- Hlen. apply HistogramFacts.fpgaCounts_sum_le.
Qed.

(** X12: the timings of the mock: the fast time is a whole number of
    milliseconds from 140 to 165, the slow one from 2150 to 2400, and the
    reported speed-up lies between 13 and 17.1. *)
Theorem mock_timings (w : world) (fuel k : nat) (tk : string)
    (r : CanonicalResult) (k' : nat) :
  generateMockData exp log cos w fuel k tk = Some (Ok r, k') ->
  (forall n, (0 <=? random w n)%float = true /\ (random w n <? 1)%float = true) ->
  exists a b : Z,
    (140 <= a <= 165)%Z /\ (2150 <= b <= 2400)%Z /\
    fpga_time_ms (performance r) = of_Z a /\
    cpu_time_ms (performance r) = of_Z b /\
    (13 <=? speed_improvement_x (performance r))%float = true /\
    (speed_improvement_x (performance r) <=? 17.1)%float = true.
Proof.
  intros Hrun Hunit.
  destruct (generateMockData_Ok w fuel k tk r k' Hrun)
    as (allPaths & k1 & st & _ & _ & _ & ->).
  cbn [performance].
  apply mock_performance_range; apply Hunit.
Qed.

End Mock.

(** A backend that is down and a source of random numbers that always
    returns 0.5. *)
Lemma half_source_fair (exp log cos : float -> float) :
  Generator.fair (Generator.Float64 exp log cos) (random unreachable).
Proof. intros k. exists 0%nat. reflexivity. Qed.

Lemma half_source_unit (n : nat) :
  (0 <=? random unreachable n)%float = true /\
  (random unreachable n <? 1)%float = true.
Proof. split; vm_compute; reflexivity. Qed.

Lemma mock_data_shape_witness :
  exists fuel r k',
    generateMockData (fun x => x) (fun x => x) (fun x => x) unreachable fuel 0 "SPY"
    = Some (Ok r, k') /\
    start_price r = Num 190.17%float /\ length (price_paths r) = 35%nat.
Proof.
  destruct (generateMockData_returns (fun x => x) (fun x => x) (fun x => x)
              unreachable 0 "SPY" (half_source_fair _ _ _))
    as (fuel & r & k' & Hrun & _).
  exists fuel, r, k'. split; [exact Hrun|].
  destruct (mock_data_shape _ _ _ _ _ _ _ _ _ Hrun) as (_ & _ & Hp & _ & Hl & _).
  split; [exact Hp|exact Hl].
Defined.

Lemma mock_timings_witness :
  exists fuel r k',
    generateMockData (fun x => x) (fun x => x) (fun x => x) unreachable fuel 0 "SPY"
    = Some (Ok r, k') /\
    (13 <=? speed_improvement_x (performance r))%float = true.
Proof.
  destruct (generateMockData_returns (fun x => x) (fun x => x) (fun x => x)
              unreachable 0 "SPY" (half_source_fair _ _ _))
    as (fuel & r & k' & Hrun & _).
  exists fuel, r, k'. split; [exact Hrun|].
  destruct (mock_timings _ _ _ _ _ _ _ _ _ Hrun half_source_unit)
    as (a & b & _ & _ & _ & _ & Hs & _).
  exact Hs.
Defined.

End MockProperties.

(* ================================================================== *)
(** * The utilities: clamp *)
(* ================================================================== *)

Module ClampFacts.

Import JS Utils JSFacts OrderFacts.
Open Scope float_scope.

(** ** [Math.max] and [Math.min] as bounds *)

Lemma leb_antisym (a b : float) :
  (a <=? b) = true -> (b <=? a) = true -> (a =? b) = true.
Proof.
  rewrite !leb_spec, eqb_spec. unfold SFleb, SFeqb.
  rewrite (SFcompare_antisym (Prim2SF a) (Prim2SF b)).
  destruct (SFcompare (Prim2SF a) (Prim2SF b)) as [[| |]|]; cbn; congruence.
Qed.

Lemma Math_max_cases (a b : float) :
  is_nan a = false -> is_nan b = false -> Math_max a b = a \/ Math_max a b = b.
Proof.
  intros Ha Hb. unfold Math_max. rewrite Ha, Hb. cbn [orb].
  destruct (a <? b); [auto|]. destruct (b <? a); [auto|].
  destruct (get_sign a); auto.
Qed.

Lemma Math_max_nan (a b : float) :
  is_nan a || is_nan b = true -> Math_max a b = nan.
Proof. intros H. unfold Math_max. now rewrite H. Qed.

Lemma Math_min_nan (a b : float) :
  is_nan a || is_nan b = true -> Math_min a b = nan.
Proof. intros H. unfold Math_min. now rewrite H. Qed.

Lemma is_nan_nan : is_nan nan = true.
Proof. vm_compute. reflexivity. Qed.

Lemma Math_max_not_nan (a b : float) :
  is_nan a = false -> is_nan b = false -> is_nan (Math_max a b) = false.
Proof. intros Ha Hb. destruct (Math_max_cases a b Ha Hb) as [-> | ->]; assumption. Qed.

Lemma Math_min_not_nan (a b : float) :
  is_nan a = false -> is_nan b = false -> is_nan (Math_min a b) = false.
Proof.
  intros Ha Hb.
  destruct (FloorFacts.Math_min_cases a b Ha Hb) as [-> | ->]; assumption.
Qed.

Lemma Math_max_upper (a b : float) :
  is_nan a = false -> is_nan b = false ->
  (a <=? Math_max a b) = true /\ (b <=? Math_max a b) = true.
Proof.
  intros Ha Hb. unfold Math_max. rewrite Ha, Hb. cbn [orb].
  destruct (a <? b) eqn:Hab.
  { split; [apply ltb_leb; exact Hab|apply leb_refl; exact Hb]. }
  destruct (b <? a) eqn:Hba.
  { split; [apply leb_refl; exact Ha|apply ltb_leb; exact Hba]. }
  pose proof (leb_total a b Ha Hb Hab). pose proof (leb_total b a Hb Ha Hba).
  destruct (get_sign a); split; auto using leb_refl.
Qed.

Lemma Math_min_lower (a b : float) :
  is_nan a = false -> is_nan b = false ->
  (Math_min a b <=? a) = true /\ (Math_min a b <=? b) = true.
Proof.
  intros Ha Hb. unfold Math_min. rewrite Ha, Hb. cbn [orb].
  destruct (a <? b) eqn:Hab.
  { split; [apply leb_refl; exact Ha|apply ltb_leb; exact Hab]. }
  destruct (b <? a) eqn:Hba.
  { split; [apply ltb_leb; exact Hba|apply leb_refl; exact Hb]. }
  pose proof (leb_total a b Ha Hb Hab). pose proof (leb_total b a Hb Ha Hba).
  destruct (get_sign a); split; auto using leb_refl.
Qed.

Lemma Math_max_least (a b c : float) :
  (a <=? c) = true -> (b <=? c) = true -> (Math_max a b <=? c) = true.
Proof.
  intros Ha Hb. destruct (leb_not_nan _ _ Ha) as [Na _].
  destruct (leb_not_nan _ _ Hb) as [Nb _].
  destruct (Math_max_cases a b Na Nb) as [-> | ->]; assumption.
Qed.

Lemma Math_min_greatest (a b c : float) :
  (c <=? a) = true -> (c <=? b) = true -> (c <=? Math_min a b) = true.
Proof.
  intros Ha Hb. destruct (leb_not_nan _ _ Ha) as [_ Na].
  destruct (leb_not_nan _ _ Hb) as [_ Nb].
  destruct (FloorFacts.Math_min_cases a b Na Nb) as [-> | ->]; assumption.
Qed.

(** ** [clamp] *)

Lemma clamp_bounds (min val max : float) :
  (min <=? max) = true -> is_nan val = false ->
  (min <=? clamp min val max) = true /\ (clamp min val max <=? max) = true.
Proof.
  intros H Nval. destruct (leb_not_nan _ _ H) as [Nmin Nmax]. unfold clamp. split.
  - apply Math_min_greatest; [exact H|].
    apply (Math_max_upper min val Nmin Nval).
  - apply (Math_min_lower max (Math_max min val) Nmax).
    apply Math_max_not_nan; assumption.
Qed.

(** X13: what [clamp(min, val, max)] returns: NaN as soon as one of the three
    is NaN; with [min <= max] and a [val] that is not NaN a value of the
    interval, and one equal to [val] when [val] is in the interval already;
    with [max < min] it is [max] for every [val] that is not NaN. *)
Theorem clamp_range (min val max : float) :
  (is_nan min || is_nan val || is_nan max = true ->
   is_nan (clamp min val max) = true) /\
  ((min <=? max) = true -> is_nan val = false ->
   (min <=? clamp min val max) = true /\ (clamp min val max <=? max) = true) /\
  ((min <=? val) = true -> (val <=? max) = true ->
   (clamp min val max =? val) = true) /\
  ((max <? min) = true -> is_nan val = false -> clamp min val max = max).
Proof.
  unfold clamp. repeat split.
  - intros H. destruct (is_nan min || is_nan val) eqn:E.
    + rewrite (Math_max_nan _ _ E), Math_min_nan; [exact is_nan_nan|].
      now rewrite is_nan_nan, orb_true_r.
    + cbn [orb] in H. rewrite Math_min_nan; [exact is_nan_nan|]. now rewrite H.
  - apply (clamp_bounds min val max); assumption.
  - apply (clamp_bounds min val max); assumption.
  - intros Hlo Hhi.
    destruct (leb_not_nan _ _ Hlo) as [Nmin Nval].
    destruct (leb_not_nan _ _ Hhi) as [_ Nmax].
    pose proof (Math_max_not_nan min val Nmin Nval) as Nm.
    apply leb_antisym.
    + apply leb_trans with (Math_max min val).
      * apply (Math_min_lower max _ Nmax Nm).
      * apply Math_max_least; [exact Hlo|apply leb_refl; exact Nval].
    + apply Math_min_greatest; [exact Hhi|].
      apply (Math_max_upper min val Nmin Nval).
  - intros Hlt Nval.
    assert (Nmax : is_nan max = false) by (apply (leb_not_nan _ _ (ltb_leb _ _ Hlt))).
    assert (Nmin : is_nan min = false) by (apply (leb_not_nan _ _ (ltb_leb _ _ Hlt))).
    pose proof (Math_max_not_nan min val Nmin Nval) as Nm.
    destruct (Math_max_upper min val Nmin Nval) as [Hup _].
    unfold Math_min. rewrite Nmax, Nm. cbn [orb].
    destruct (max <? Math_max min val) eqn:E; [reflexivity|].
    pose proof (leb_total _ _ Nmax Nm E) as Hle.
    pose proof (leb_trans _ _ _ Hup Hle) as Hbad.
    rewrite (ltb_not_leb _ _ Hlt) in Hbad. discriminate.
Qed.

Lemma clamp_range_witness :
  (0 <=? clamp 0 1.5 1) = true /\ (clamp 0 1.5 1 <=? 1) = true.
Proof.
  apply (clamp_range 0 1.5 1); vm_compute; reflexivity.
Defined.

End ClampFacts.

(* ================================================================== *)
(** * The utilities: the animated counter *)
(* ================================================================== *)

Module AnimateFacts.

Import JS Utils JSFacts RoundingFacts RoundFacts OrderFacts SubFacts SignFacts.
Import UnitFacts ClampFacts.

(** ** Arithmetic that is exact *)

Section Exact.

Local Open Scope Z_scope.

Lemma mul_one (x : float) : (x * 1)%float = x.
Proof.
  apply Prim2SF_inj. rewrite mul_spec, Prim2SF_one.
  destruct (Prim2SF x) as [s|s| |s m e] eqn:E;
    [unfold SF64mul, SFmul; now rewrite xorb_false_r ..| reflexivity |].
  pose proof (Prim2SF_bounded x s m e E) as B.
  pose proof (bounded_spec m e B) as (He & Hm & _).
  unfold SpecFloat.bounded, canonical_mantissa in B.
  apply andb_true_iff in B as [Hc _]. apply Z.eqb_eq in Hc.
  unfold SF64mul, SFmul. rewrite xorb_false_r.
  assert (H52 : Z.pos (m * 4503599627370496) = Z.pos m * 2 ^ 52)
    by (rewrite Pos2Z.inj_mul; reflexivity).
  rewrite H52.
  assert (Hpow : 0 < 2 ^ 52) by reflexivity.
  assert (Hd : Zdigits2 (Z.pos m * 2 ^ 52) = Z.pos (digits2_pos m) + 52).
  { pose proof (digits2_pos_upper m) as U. pose proof (digits2_pos_lower m) as Lo.
    destruct (Z.pos m * 2 ^ 52) as [|p|p] eqn:Ep; try lia.
    cbn [Zdigits2]. apply digits2_pos_eq. rewrite <- Ep.
    replace (Z.pos (digits2_pos m) + 52 - 1)
      with (Z.pos (digits2_pos m) - 1 + 52) by lia.
    rewrite !Z.pow_add_r by lia. nia. }
  destruct (binary_round_aux_shape s (Z.pos m * 2 ^ 52) (e + -52) loc_Exact
              ltac:(lia)) as (K & M' & _ & _ & Hex & _ & ->).
  rewrite Hd in Hex.
  replace (Z.pos (digits2_pos m) + 52 + (e + -52))
    with (Z.pos (digits2_pos m) + e) in Hex by lia.
  rewrite Hc in Hex.
  replace (Z.max 0 (e - (e + -52))) with 52 in Hex by lia.
  destruct (Hex eq_refl (Z_mod_mult _ _)) as [-> ->].
  rewrite Z.div_mul by lia.
  destruct (Z.eqb_spec (Z.pos m) 0) as [H0|_]; [lia|].
  replace (e + -52 + 52) with e by lia.
  destruct (Z.leb_spec e (emax - prec)) as [_|Hgt];
    [reflexivity|unfold emax, prec in Hgt; lia].
Qed.

End Exact.

Open Scope float_scope.

Lemma sub_zero (x : float) : x - 0 = x.
Proof.
  apply Prim2SF_inj. rewrite sub_spec, Prim2SF_zero.
  destruct (Prim2SF x) as [[]|[]| |[] m e]; reflexivity.
Qed.

Lemma zero_add (x : float) : Prim2SF x <> S754_zero true -> 0 + x = x.
Proof.
  intros Hx. apply Prim2SF_inj. rewrite add_spec, Prim2SF_zero.
  destruct (Prim2SF x) as [[]|[]| |[] m e]; try reflexivity. congruence.
Qed.

(** ** [clamp(0, q, 1)], the progress of the animation *)

Lemma is_nan_0 : is_nan 0 = false.
Proof. vm_compute. reflexivity. Qed.

Lemma is_nan_1 : is_nan 1 = false.
Proof. vm_compute. reflexivity. Qed.

Lemma zero_lt_one : (0 <? 1) = true.
Proof. vm_compute. reflexivity. Qed.

Lemma ltb_not_nan (a b : float) :
  (a <? b) = true -> is_nan a = false /\ is_nan b = false.
Proof. intros H. apply (leb_not_nan _ _ (ltb_leb _ _ H)). Qed.

(** Before the end the progress is below 1. *)
Lemma progress_running (q : float) :
  (q <? 1) = true -> (clamp 0 q 1 <? 1) = true.
Proof.
  intros Hq. destruct (ltb_not_nan _ _ Hq) as [Nq _].
  unfold clamp.
  assert (Hm : (Math_max 0 q <? 1) = true).
  { destruct (Math_max_cases 0 q is_nan_0 Nq) as [-> | ->];
      [exact zero_lt_one|exact Hq]. }
  unfold Math_min. rewrite is_nan_1.
  rewrite (Math_max_not_nan 0 q is_nan_0 Nq). cbn [orb].
  destruct (1 <? Math_max 0 q) eqn:E.
  - pose proof (ltb_not_leb _ _ E) as H1. rewrite (ltb_leb _ _ Hm) in H1.
    discriminate.
  - rewrite Hm. exact Hm.
Qed.

(** At the end and after it the progress is 1. *)
Lemma progress_done (q : float) :
  (1 <=? q) = true ->
  (clamp 0 q 1 =? 1) = true /\ (clamp 0 q 1 <? 1) = false.
Proof.
  intros Hq. destruct (leb_not_nan _ _ Hq) as [_ Nq].
  assert (Hle : (0 <=? 1) = true) by (vm_compute; reflexivity).
  destruct (clamp_bounds 0 q 1 Hle Nq) as [_ Hup].
  assert (Hlo : (1 <=? clamp 0 q 1) = true).
  { unfold clamp. apply Math_min_greatest; [apply leb_refl, is_nan_1|].
    apply leb_trans with q; [exact Hq|].
    apply (Math_max_upper 0 q is_nan_0 Nq). }
  split; [apply leb_antisym; assumption|].
  destruct (clamp 0 q 1 <? 1) eqn:E; [|reflexivity].
  apply ltb_not_leb in E. congruence.
Qed.

(** ** The frames of the counter *)

Section Frames.

Variable pow : float -> float -> float.
Variables startTime from to duration : float.

Lemma step_running (now : float) :
  ((now - startTime) / duration <? 1) = true ->
  snd (step pow startTime from to duration now) = true.
Proof. intros H. unfold step. cbn [snd]. apply progress_running. exact H. Qed.

Lemma step_done (now : float) :
  (1 <=? (now - startTime) / duration) = true ->
  step pow startTime from to duration now = (from + (to - from), false).
Proof.
  intros H. unfold step. destruct (progress_done _ H) as [-> ->].
  now rewrite mul_one.
Qed.

Lemma frames_running (pre rest : list float) :
  Forall (fun t => ((t - startTime) / duration <? 1) = true) pre ->
  frames pow startTime from to duration (pre ++ rest)
  = map (fun t => fst (step pow startTime from to duration t)) pre
    ++ frames pow startTime from to duration rest.
Proof.
  induction 1 as [|t pre Ht _ IH]; [reflexivity|].
  cbn [app frames map]. pose proof (step_running t Ht) as Hs.
  destruct (step pow startTime from to duration t) as [c again].
  cbn [snd] in Hs. subst again. cbn [fst]. now rewrite IH.
Qed.

(** X14: the counter runs as long as the frames come before the end of the
    duration, and the first frame at or after it shows [from + (to - from)]
    and asks for no further frame; counting up from 0 that last number is
    the target itself (unless the target is [-0], which shows as [+0]). *)
Theorem counter_ends_on_target (pre post : list float) (now : float) :
  Forall (fun t => ((t - startTime) / duration <? 1) = true) pre ->
  (1 <=? (now - startTime) / duration) = true ->
  animateValue pow false startTime from to duration (pre ++ now :: post)
  = map (fun t => fst (step pow startTime from to duration t)) pre
    ++ [from + (to - from)] /\
  (from = 0 -> Prim2SF to <> S754_zero true -> from + (to - from) = to).
Proof.
  intros Hpre Hnow. split.
  - unfold animateValue. rewrite (frames_running pre _ Hpre).
    cbn [frames]. now rewrite (step_done now Hnow).
  - intros -> Hto. rewrite sub_zero. apply zero_add. exact Hto.
Qed.

End Frames.

Lemma counter_ends_on_target_witness :
  last (animateValue (fun _ _ => 0.5) false 0 0 15 1200 [16; 600; 1200; 1216]) 0
  = 15.
Proof.
  destruct (counter_ends_on_target (fun _ _ => 0.5) 0 0 15 1200 [16; 600] [1216] 1200)
    as [Hrun Hlast].
  - repeat constructor; vm_compute; reflexivity.
  - vm_compute. reflexivity.
  - cbn [app] in Hrun. rewrite Hrun, last_last. apply Hlast; [reflexivity|].
    vm_compute. discriminate.
Defined.

End AnimateFacts.

(* ================================================================== *)
(** * The charts *)
(* ================================================================== *)

Module ChartFacts.

Import JS Stats Charts JSFacts OrderFacts StartPriceFacts JitterFacts.
Open Scope float_scope.

(** ** The tooltip of the drawdown chart *)

Lemma indexOf_first (counts : list nat) (d : nat) (j : nat) :
  (j < length counts)%nat -> nth j counts 0%nat = d ->
  exists i,
    indexOf counts d = Some i /\ (i <= j)%nat /\
    nth i counts 0%nat = d /\
    forall i', (i' < i)%nat -> nth i' counts 0%nat <> d.
Proof.
  revert j. induction counts as [|c t IH]; intros j Hj Hd; [cbn in Hj; lia|].
  cbn [indexOf]. destruct (Nat.eqb_spec c d) as [Hc|Hc].
  - exists 0%nat. repeat split; [lia|exact Hc|intros i' Hi'; lia].
  - destruct j as [|j]; [cbn in Hd; congruence|].
    cbn in Hj, Hd. destruct (IH j ltac:(lia) Hd) as (i & Hi & Hij & Hn & Hmin).
    exists (S i). rewrite Hi. repeat split; [lia|exact Hn|].
    intros [|i'] Hi'; [exact Hc|]. cbn. apply Hmin. lia.
Qed.

Lemma indexOf_absent (counts : list nat) (d : nat) :
  ~ In d counts -> indexOf counts d = None.
Proof.
  induction counts as [|c t IH]; intros Hn; [reflexivity|].
  cbn [indexOf]. destruct (Nat.eqb_spec c d) as [Hc|Hc].
  - exfalso. apply Hn. now left.
  - rewrite IH; [reflexivity|]. intros H. apply Hn. now right.
Qed.

(** X18: the tooltip over the bar of bucket [j] looks its label up by the count
    of the bar, so it shows the label of the first bucket that holds the
    same count: the label of the bar itself only if no earlier bucket has
    as many paths. *)
Theorem tooltip_shows_first_equal (bin_edges : list string) (counts : list nat)
    (j : nat) :
  (j < length counts)%nat ->
  exists i,
    tooltip_label bin_edges counts (nth j counts 0%nat) = nth_error bin_edges i /\
    (i <= j)%nat /\
    nth i counts 0%nat = nth j counts 0%nat /\
    (forall i', (i' < i)%nat -> nth i' counts 0%nat <> nth j counts 0%nat) /\
    (i = j <-> forall i', (i' < j)%nat -> nth i' counts 0%nat <> nth j counts 0%nat).
Proof.
  intros Hj.
  destruct (indexOf_first counts _ j Hj eq_refl) as (i & Hi & Hij & Hn & Hmin).
  exists i. unfold tooltip_label. rewrite Hi.
  repeat split; try assumption.
  - intros ->. exact Hmin.
  - intros Hall. destruct (Nat.eq_dec i j) as [|Hne]; [assumption|].
    exfalso. apply (Hall i); [lia|exact Hn].
Qed.

Lemma tooltip_shows_first_equal_witness :
  exists i,
    tooltip_label ["0-50d"; "50-100d"; "100-150d"; "150-200d"; "200d+"]%string
                  [120; 40; 120; 0; 0]%nat 120%nat
    = nth_error ["0-50d"; "50-100d"; "100-150d"; "150-200d"; "200d+"]%string i /\
    i <> 2%nat.
Proof.
  destruct (tooltip_shows_first_equal
              ["0-50d"; "50-100d"; "100-150d"; "150-200d"; "200d+"]%string
              [120; 40; 120; 0; 0]%nat 2%nat ltac:(cbn; lia))
    as (i & Hl & _ & _ & _ & Hown).
  exists i. split; [exact Hl|].
  intros E. destruct Hown as [Hown _]. apply (Hown E 0%nat); [lia|reflexivity].
Defined.

(** ** The start-price marker of the histogram chart *)

Lemma leb_nan_l (x y : float) : is_nan x = true -> (x <=? y) = false.
Proof.
  intros H. destruct (x <=? y) eqn:E; [|reflexivity].
  apply leb_not_nan in E. destruct E. congruence.
Qed.

Lemma find_all_false {A : Type} (f : A -> bool) (l : list A) :
  (forall x, f x = false) -> find f l = None.
Proof.
  intros H. induction l as [|a l IH]; [reflexivity|].
  cbn [find]. now rewrite H.
Qed.

(** No bin holds the start price when all edges are one number. *)
Lemma holds_start_equal_edges (edges : list float) (e : float)
    (startPrice : value) (i : nat) :
  (forall j x, nth_error edges j = Some x -> x = e) ->
  holds_start edges startPrice i = false.
Proof.
  intros Hall. unfold holds_start, le, lt, get.
  destruct (nth_error edges i) as [a|] eqn:Ea;
    [|cbn [toNumber]; rewrite leb_nan_l by exact ClampFacts.is_nan_nan; reflexivity].
  destruct (nth_error edges (i + 1)) as [b|] eqn:Eb;
    [|cbn [toNumber]; rewrite (ltb_nan_r _ nan) by exact ClampFacts.is_nan_nan;
      apply andb_false_r].
  apply Hall in Ea, Eb. subst a b. cbn [toNumber].
  destruct (toNumber startPrice <? e) eqn:E; [|apply andb_false_r].
  now rewrite (ltb_not_leb _ _ E).
Qed.

(** With a trimmed range of one value the bin width is [+0] or NaN. *)
Lemma zero_width (x : float) :
  Prim2SF ((x - x) / 24) = S754_zero false \/ Prim2SF ((x - x) / 24) = S754_nan.
Proof.
  rewrite div_spec, sub_spec, Prim2SF_24. unfold SF64div, SF64sub.
  destruct (SFsub_self (Prim2SF x)) as [-> | ->]; [left|right]; reflexivity.
Qed.

Lemma times_zero_width (w : float) (i : nat) :
  (Z.of_nat i < max_length)%Z ->
  Prim2SF w = S754_zero false \/ Prim2SF w = S754_nan ->
  of_nat i * w = w.
Proof.
  intros Hi Hw. apply Prim2SF_inj. rewrite mul_spec. unfold SF64mul.
  destruct i as [|i].
  - rewrite of_nat_0. change (Prim2SF 0) with (S754_zero false).
    destruct Hw as [-> | ->]; reflexivity.
  - destruct (Prim2SF_of_nat (S i) ltac:(lia) Hi) as (m & e & ->).
    destruct Hw as [-> | ->]; reflexivity.
Qed.

Lemma binEdges_zero_width (paths : list (list float)) :
  trimLow paths = trimHigh paths ->
  exists e, forall j x, nth_error (binEdges paths) j = Some x -> x = e.
Proof.
  intros H.
  exists (parseFloat_toFixed 2 (toNumber (trimLow paths) + binWidth paths)).
  intros j x Hj. unfold binEdges in Hj.
  apply nth_error_In, in_map_iff in Hj as (i & <- & Hi).
  apply in_seq in Hi. f_equal. f_equal.
  unfold binWidth. rewrite <- H.
  replace (of_nat binCount) with 24 by (vm_compute; reflexivity).
  apply times_zero_width; [|apply zero_width].
  unfold binCount, max_length in *.
  assert (2 ^ 5 < 2 ^ 32)%Z by reflexivity. lia.
Qed.

(** X19: on an ensemble whose trimmed range is a single value the histogram
    chart draws no start-price marker, whatever the start price is: the 25
    bin edges are one number, and no bin holds the start price. *)
Theorem no_start_marker_on_zero_width (paths : list (list float))
    (startPrice : value) :
  trimLow paths = trimHigh paths ->
  startBinIdx (binEdges paths) (fpgaCounts paths) startPrice = None /\
  (forall i j, get (binEdges paths) i <> Undefined ->
               get (binEdges paths) j <> Undefined ->
               get (binEdges paths) i = get (binEdges paths) j).
Proof.
  intros H. destruct (binEdges_zero_width paths H) as [e He]. split.
  - unfold startBinIdx. apply find_all_false. intros i.
    apply (holds_start_equal_edges _ e). exact He.
  - intros i j. unfold get.
    destruct (nth_error (binEdges paths) i) as [a|] eqn:Ea; [|congruence].
    destruct (nth_error (binEdges paths) j) as [b|] eqn:Eb; [|congruence].
    intros _ _. apply He in Ea, Eb. congruence.
Qed.

Lemma no_start_marker_on_zero_width_witness :
  startBinIdx (binEdges Scenario.single_path) (fpgaCounts Scenario.single_path)
              (Num 100) = None.
Proof.
  apply (no_start_marker_on_zero_width Scenario.single_path (Num 100)).
  vm_compute. reflexivity.
Defined.

End ChartFacts.

(* ================================================================== *)
(** * The dashboard *)
(* ================================================================== *)

Module AppFacts.

Import JS Acquire App Scenario AcquireFacts MockProperties.
Open Scope string_scope.

(** ** The panels follow the state *)

(** The panel of the current state is the one that is shown, and the warp
    animation runs exactly in PROCESSING (on a page that has its canvas). *)
Definition consistent (p : page) : Prop :=
  idle_hidden p = negb (same (currentState p) IDLE) /\
  processing_hidden p = negb (same (currentState p) PROCESSING) /\
  results_hidden p = negb (same (currentState p) RESULTS) /\
  warpRunning p = warpCanvas p && same (currentState p) PROCESSING.

Lemma transitionTo_consistent (p : page) (s : State) :
  consistent p -> consistent (fst (transitionTo p s)).
Proof.
  destruct p as [cs cd ih ph rh wc wr rt ps sb t]. unfold consistent at 1.
  cbn [currentState idle_hidden processing_hidden results_hidden warpCanvas
       warpRunning].
  intros (-> & -> & -> & ->).
  destruct cs, s, wc, ps, cd as [[tk nm [x|] ns pf st pp]|];
    vm_compute; repeat split.
Qed.

Lemma showToast_consistent (p : page) (m : string) :
  consistent p -> consistent (showToast p m).
Proof. intros H. exact H. Qed.

Lemma set_data_consistent (p : page) (d : option CanonicalResult) :
  consistent p -> consistent (set_data p d).
Proof. intros H. exact H. Qed.

Lemma settle_consistent (p : page) (result : outcome CanonicalResult) :
  consistent p -> consistent (settle p result).
Proof.
  intros H. unfold settle. destruct result as [r|e].
  - pose proof (transitionTo_consistent _ RESULTS (set_data_consistent p (Some r) H))
      as H1.
    destruct (transitionTo (set_data p (Some r)) RESULTS) as [p' [u|e]]; [exact H1|].
    apply showToast_consistent, transitionTo_consistent. exact H1.
  - apply showToast_consistent, transitionTo_consistent. exact H.
Qed.

Lemma handle_consistent (p : page) (ev : event) :
  consistent p -> consistent (handle p ev).
Proof.
  intros H. destruct ev as [|result|]; cbn [handle].
  - apply transitionTo_consistent. exact H.
  - apply settle_consistent. exact H.
  - apply transitionTo_consistent. exact H.
Qed.

(** A page as it is loaded: the state is IDLE, nothing runs, and of the
    three panels only the idle one may be shown. *)
Definition loaded (p : page) : Prop :=
  currentState p = IDLE /\ processing_hidden p = true /\
  results_hidden p = true /\ warpRunning p = false.

Lemma boot_consistent (p : page) : loaded p -> consistent (boot p).
Proof.
  destruct p as [cs cd ih ph rh wc wr rt ps sb t]. unfold loaded.
  cbn [currentState idle_hidden processing_hidden results_hidden warpCanvas
       warpRunning].
  intros (-> & -> & -> & ->). destruct wc; vm_compute; repeat split.
Qed.

(** X15: whatever happens on a loaded page, in whatever order (submissions,
    requests that settle with a result or an error, clicks on the re-run
    button), the one panel shown is the one of the current state, and the
    warp animation runs exactly while the state is PROCESSING. *)
Theorem panels_follow_state (p : page) (events : list event) :
  loaded p -> consistent (fold_left handle events (boot p)).
Proof.
  intros H. apply boot_consistent in H. revert H. generalize (boot p).
  induction events as [|ev events IH]; intros q H; [exact H|].
  cbn [fold_left]. apply IH, handle_consistent, H.
Qed.

Definition fresh_page : page :=
  {| currentState := IDLE; currentData := None;
     idle_hidden := false; processing_hidden := true; results_hidden := true;
     warpCanvas := true; warpRunning := false;
     resultTicker := ""; pathsSubtitle := true; subtitleText := None;
     toast := None |}.

Lemma panels_follow_state_witness :
  loaded fresh_page /\
  consistent (fold_left handle
                [Submit; Settle (Throw FetchFailed); Submit; Submit; Rerun]
                (boot fresh_page)).
Proof.
  assert (H : loaded fresh_page) by (repeat split).
  split; [exact H|]. apply (panels_follow_state fresh_page _ H).
Defined.

(** ** How a run ends *)

Lemma run_shows_result (p : page) (r : CanonicalResult) (x : float) :
  start_price r = Num x ->
  currentState (settle (submit p) (Ok r)) = RESULTS /\
  currentData (settle (submit p) (Ok r)) = Some r /\
  resultTicker (settle (submit p) (Ok r)) = ticker r /\
  subtitleText (settle (submit p) (Ok r))
  = (if pathsSubtitle p then Some (subtitle r) else subtitleText p) /\
  toast (settle (submit p) (Ok r)) = toast p.
Proof.
  intros Hx. destruct r as [tk nm sp ns pf st pp]. cbn [start_price] in Hx.
  subst sp. destruct p as [cs cd ih ph rh wc wr rt ps sb t], cs, wc, ps;
    vm_compute; repeat split.
Qed.

Lemma run_fails_to_render (p : page) (r : CanonicalResult) :
  start_price r = Undefined ->
  currentState (settle (submit p) (Ok r)) = IDLE /\
  currentData (settle (submit p) (Ok r)) = Some r /\
  resultTicker (settle (submit p) (Ok r)) = ticker r /\
  subtitleText (settle (submit p) (Ok r)) = subtitleText p /\
  toast (settle (submit p) (Ok r)) = Some failure.
Proof.
  intros Hx. destruct r as [tk nm sp ns pf st pp]. cbn [start_price] in Hx.
  subst sp. destruct p as [cs cd ih ph rh wc wr rt ps sb t], cs, wc, ps;
    vm_compute; repeat split.
Qed.

Section Run.

Variables (exp log cos : float -> float).


(** X17: with the backend down a run on a ticker of [CONFIGS], or on one that
    is no property at all, ends in RESULTS with the subtitle of 35 sample
    paths of 252 steps; a run on a name that [CONFIGS] inherits, such as
    ["constructor"], ends in IDLE under the failure toast. *)
Theorem run_on_mock_data (w : world) (k : nat) (tk : string) (p : page) :
  Generator.fair (Generator.Float64 exp log cos) (random w) ->
  rich w = Rejected -> raw w = Rejected ->
  exists fuel p',
    runSimulation exp log cos w fuel k tk p = Some p' /\
    resultTicker p' = tk /\
    match lookup tk with
    | Inherited _ => currentState p' = IDLE /\ toast p' = Some failure
    | _ => currentState p' = RESULTS /\ toast p' = toast p /\
           (pathsSubtitle p = true -> subtitleText p' = Some (35, 252)%nat)
    end.
Proof.
  intros Hfair Hrich Hraw.
  destruct (generateMockData_returns exp log cos w (S k) tk Hfair)
    as (fuel & r & k' & Hrun & Htk & _ & Hprice & _ & Hlen).
  exists fuel, (settle (submit p) (Ok r)).
  unfold runSimulation, fetchSimulationResults, fetchFull, fetchRawPaths.
  rewrite Hrich, Hraw, Hrun. split; [reflexivity|].
  assert (Hsub : subtitle r = (35, 252)%nat).
  { destruct (generateMockData_Ok exp log cos w fuel (S k) tk r k' Hrun)
      as (allPaths & k1 & st & Hgen & _ & _ & Hr).
    destruct (generatePaths_shape _ _ _ _ _ _ _ _ _ _ _ Hgen) as [Hcount Hall].
    unfold subtitle. rewrite Hlen. f_equal.
    rewrite Hr. cbn [price_paths]. unfold mock_numPaths in Hcount.
    destruct allPaths as [|p0 ps]; [discriminate|].
    inversion Hall as [|? ? [Hp0 _] _]. exact Hp0. }
  unfold resolve in Hprice.
  destruct (lookup tk) as [c|f|] eqn:Hl; cbn [get_price] in Hprice.
  - destruct (run_shows_result p r _ Hprice) as (H1 & _ & H3 & H4 & H5).
    rewrite H3, H4, Hsub. repeat split; try assumption. now intros ->.
  - destruct (run_fails_to_render p r Hprice) as (H1 & _ & H3 & _ & H5).
    rewrite H3. auto.
  - destruct (run_shows_result p r _ Hprice) as (H1 & _ & H3 & H4 & H5).
    rewrite H3, H4, Hsub. repeat split; try assumption. now intros ->.
Qed.

End Run.


Lemma run_on_mock_data_witness :
  (exists fuel p',
     runSimulation (fun x => x) (fun x => x) (fun x => x) unreachable fuel 0
       "constructor" fresh_page = Some p' /\
     currentState p' = IDLE /\ toast p' = Some failure) /\
  (exists fuel p',
     runSimulation (fun x => x) (fun x => x) (fun x => x) unreachable fuel 0
       "NVDA" fresh_page = Some p' /\
     currentState p' = RESULTS /\ subtitleText p' = Some (35, 252)%nat).
Proof.
  split.
  - destruct (run_on_mock_data (fun x => x) (fun x => x) (fun x => x) unreachable
                0 "constructor" fresh_page (half_source_fair _ _ _)
                eq_refl eq_refl) as (fuel & p' & Hrun & _ & Hs & Ht).
    exists fuel, p'. repeat split; assumption.
  - destruct (run_on_mock_data (fun x => x) (fun x => x) (fun x => x) unreachable
                0 "NVDA" fresh_page (half_source_fair _ _ _)
                eq_refl eq_refl) as (fuel & p' & Hrun & _ & Hs & _ & Hp).
    exists fuel, p'. repeat split; try assumption. apply Hp. reflexivity.
Defined.

End AppFacts.

(* ================================================================== *)
(** * The waterfall: a raw answer the statistics reject *)
(* ================================================================== *)

Module FallbackFacts.

Import JS Acquire Scenario AcquireFacts ThrowFacts.
Open Scope string_scope.

(** The raw-paths endpoint answers twenty paths of which only the first
    has prices; the rich endpoint is not reachable. *)
Definition sparse_raw : world :=
  {| rich := Rejected;
     raw := Response 200
              (Json {| paths := Some ([100; 101]%float :: repeat [] 19) |});
     apiTime := 12;
     random := fun _ => 0.5%float |}.

(** X9: a raw-paths answer whose first path has prices but in which at most
    [floor(N / 20)] of the [N] paths are not empty passes the check for
    empty paths and fails in the statistics, after their 24 draws; the
    strategy then resolves with mock data, generated from the draws that
    follow the one for the delay. *)
Theorem sparse_raw_paths_fall_back (exp log cos : float -> float) (w : world)
    (fuel k : nat) (tk : string) (e : error) (status : nat)
    (s0 : float) (p : list float) (ps : list (list float)) :
  fetchFull w tk = Throw e ->
  raw w = Response status (Json {| paths := Some ((s0 :: p) :: ps) |}) ->
  ok status = true ->
  (length (filter nonempty ((s0 :: p) :: ps)) <= length ((s0 :: p) :: ps) / 20)%nat ->
  fetchRawPaths w k tk = (Throw TypeError, (k + 24)%nat) /\
  fetchSimulationResults exp log cos w fuel k tk
  = generateMockData exp log cos w fuel (S (k + 24)) tk.
Proof.
  intros Hfull Hraw Hok Hcount.
  assert (Hrun : fetchRawPaths w k tk = (Throw TypeError, (k + 24)%nat)).
  { unfold fetchRawPaths. rewrite Hraw, Hok. cbn [negb paths].
    assert (Hne : (s0 :: p) :: ps <> []) by discriminate.
    now rewrite (sparse_paths_throw (random w) k _ (Num s0) Hne Hcount). }
  split; [exact Hrun|].
  unfold fetchSimulationResults. now rewrite Hfull, Hrun.
Qed.

Lemma sparse_raw_paths_fall_back_witness :
  fetchRawPaths sparse_raw 0 "SPY" = (Throw TypeError, 24%nat) /\
  fetchSimulationResults (fun x => x) (fun x => x) (fun x => x) sparse_raw 0 0 "SPY"
  = generateMockData (fun x => x) (fun x => x) (fun x => x) sparse_raw 0 25 "SPY".
Proof.
  apply (sparse_raw_paths_fall_back (fun x => x) (fun x => x) (fun x => x)
           sparse_raw 0 0 "SPY" FetchFailed 200 100%float [101%float]
           (repeat [] 19)).
  - reflexivity.
  - reflexivity.
  - reflexivity.
  - vm_compute. lia.
Defined.

End FallbackFacts.

(* ================================================================== *)
(** * Numbers that are not NaN, and the comparison counts *)
(* ================================================================== *)

Module NumberFacts.

Import JS Stats RoundingFacts RoundFacts OrderFacts SubFacts SignFacts.
Import UnitFacts JitterFacts ClampFacts StartPriceFacts EngineFacts HistogramFacts.

(** ** Arithmetic on numbers yields numbers *)

Section NotNaN.

Local Open Scope Z_scope.

Lemma binary_round_aux_not_nan (s : bool) (m e : Z) (l : location) :
  0 <= m -> binary_round_aux prec emax s m e l <> S754_nan.
Proof.
  intros Hm.
  destruct (binary_round_aux_shape s m e l Hm) as (K & M' & _ & _ & _ & _ & ->).
  destruct (M' =? 0); [discriminate|].
  destruct (e + K <=? emax - prec); discriminate.
Qed.

Lemma binary_round_not_nan (s : bool) (m : positive) (e : Z) :
  binary_round prec emax s m e <> S754_nan.
Proof.
  unfold binary_round.
  destruct (shl_align m e (fexp prec emax (Z.pos (digits2_pos m) + e))) as [mz ez].
  apply binary_round_aux_not_nan. lia.
Qed.

Lemma binary_normalize_not_nan (m e : Z) (sz : bool) :
  binary_normalize prec emax m e sz <> S754_nan.
Proof.
  destruct m as [|p|p]; cbn [binary_normalize];
    [discriminate|apply binary_round_not_nan ..].
Qed.

(** The double [SF2Prim] builds is NaN only for NaN. *)
Lemma SF2Prim_not_nan (x : spec_float) :
  x <> S754_nan -> Prim2SF (SF2Prim x) <> S754_nan.
Proof.
  intros Hx. destruct x as [[]|[]| |s m e]; try discriminate; [congruence|].
  unfold SF2Prim. cbv zeta.
  assert (H : Prim2SF (Z.ldexp (of_uint63 (Uint63Axioms.of_Z (Z.pos m))) e)
              <> S754_nan).
  { unfold Z.ldexp. rewrite ldshiftexp_spec, of_uint63_spec.
    pose proof (binary_normalize_not_nan
                  (Uint63Axioms.to_Z (Uint63Axioms.of_Z (Z.pos m))) 0 false) as Hn.
    destruct (binary_normalize prec emax _ 0 false) as [s'|s'| |s' m' e'];
      try discriminate; [congruence|].
    unfold SFldexp. apply binary_round_not_nan. }
  destruct s; [|exact H].
  rewrite opp_spec. destruct (Prim2SF _); try discriminate. congruence.
Qed.

Lemma of_Z_not_nan (z : Z) : Prim2SF (of_Z z) <> S754_nan.
Proof. apply SF2Prim_not_nan, binary_normalize_not_nan. Qed.

(** A product with a finite factor other than zero. *)
Lemma SFmul_not_nan (x : spec_float) (s : bool) (m : positive) (e : Z) :
  x <> S754_nan -> SFmul prec emax x (S754_finite s m e) <> S754_nan.
Proof.
  intros Hx. destruct x as [sx|sx| |sx mx ex]; unfold SFmul; try discriminate;
    [congruence|].
  apply binary_round_aux_not_nan. lia.
Qed.

(** A product of two finite factors. *)
Lemma SFmul_finite_not_nan (x y : spec_float) :
  finite_sf x -> finite_sf y -> SFmul prec emax x y <> S754_nan.
Proof.
  intros Hx Hy.
  destruct x as [sx|sx| |sx mx ex], y as [sy|sy| |sy my ey];
    try destruct Hx; try destruct Hy; unfold SFmul; try discriminate.
  apply binary_round_aux_not_nan. lia.
Qed.

(** A sum with a finite term. *)
Lemma SFadd_not_nan (x y : spec_float) :
  finite_sf x -> y <> S754_nan -> SFadd prec emax x y <> S754_nan.
Proof.
  intros Hx Hy.
  destruct x as [sx|sx| |sx mx ex], y as [sy|sy| |sy my ey];
    try destruct Hx; try congruence; unfold SFadd; try discriminate.
  - destruct sx, sy; discriminate.
  - apply binary_normalize_not_nan.
Qed.

End NotNaN.

Open Scope float_scope.

Lemma not_nan_spec (x : float) : Prim2SF x <> S754_nan -> is_nan x = false.
Proof.
  intros H. destruct (is_nan x) eqn:E; [|reflexivity].
  apply is_nan_spec in E. congruence.
Qed.

(** [Math.round] of a number is a number. *)
Lemma Math_round_not_nan (y : float) :
  Prim2SF y <> S754_nan -> Prim2SF (Math_round y) <> S754_nan.
Proof.
  intros Hy. unfold Math_round. destruct (roundZ y) as [z|]; [|exact Hy].
  destruct (z =? 0)%Z; [|apply of_Z_not_nan].
  destruct ((y <? 0) || get_sign y); vm_compute; discriminate.
Qed.

Lemma of_nat_finite (c : nat) :
  (Z.of_nat c < max_length)%Z -> finite (of_nat c).
Proof.
  intros Hc. unfold finite. destruct c as [|c].
  - rewrite of_nat_0. exact I.
  - destruct (Prim2SF_of_nat (S c) ltac:(lia) Hc) as (m & e & ->). exact I.
Qed.

(** ** The comparison counts are counts *)

(** Every comparison count is a number at or above zero. *)
Lemma jitter_nonneg (r : float) (c : nat) :
  (0 <=? r) = true -> (r <? 1) = true -> (Z.of_nat c < max_length)%Z ->
  (0 <=? jitter r c) = true.
Proof.
  intros H0 H1 Hc. unfold jitter.
  pose proof (of_nat_finite c Hc) as Hfc.
  pose proof (sub_half_finite r H0 H1) as Hx.
  assert (Hy : Prim2SF ((r - 0.5) * of_nat c * 0.04) <> S754_nan).
  { rewrite mul_spec, Prim2SF_004. apply SFmul_not_nan.
    rewrite mul_spec. apply SFmul_finite_not_nan; assumption. }
  assert (Hs : is_nan (of_nat c + Math_round ((r - 0.5) * of_nat c * 0.04)) = false).
  { apply not_nan_spec. rewrite add_spec.
    apply SFadd_not_nan; [exact Hfc|]. apply Math_round_not_nan, Hy. }
  apply (Math_max_upper 0 _ AnimateFacts.is_nan_0 Hs).
Qed.

Lemma nth_le_list_sum (l : list nat) (i : nat) : (nth i l 0 <= list_sum l)%nat.
Proof.
  unfold list_sum. revert i.
  induction l as [|a l IH]; intros [|i]; cbn [nth fold_right]; try lia.
  specialize (IH i). lia.
Qed.

(** X20: whenever the call returns, with [Math.random] in [[0, 1)], every count
    of the comparison series is a number at or above zero: the jitter never
    makes a count negative or NaN. *)
Theorem cpu_counts_never_negative (random : random_source) (k : nat)
    (paths : list (list float)) (startPrice : value) (st : StatsResult) (k' : nat) :
  computeStatsFromPaths random k paths startPrice = (Ok st, k') ->
  (forall i, (i < 24)%nat ->
     (0 <=? random (k + i)%nat) = true /\ (random (k + i)%nat <? 1) = true) ->
  (Z.of_nat (length paths) < max_length)%Z ->
  Forall (fun c => (0 <=? c) = true /\ is_nan c = false)
         (cpu_counts (histogram_data st)).
Proof.
  intros Hrun Hrand Hlen.
  destruct (computeStats_Ok _ _ _ _ _ _ Hrun) as (_ & _ & ->).
  apply Forall_forall. intros x Hx.
  apply (In_nth _ _ 0) in Hx as (i & Hi & <-).
  rewrite cpuCounts_length, fpgaCounts_length in Hi.
  rewrite cpuCounts_nth by (rewrite fpgaCounts_length; exact Hi).
  destruct (Hrand i Hi) as [H0 H1].
  assert (H : (0 <=? jitter (random (k + i)%nat) (nth i (fpgaCounts paths) 0%nat))
              = true).
  { apply jitter_nonneg; [exact H0|exact H1|].
    pose proof (nth_le_list_sum (fpgaCounts paths) i).
    pose proof (fpgaCounts_sum_le paths). lia. }
  split; [exact H|]. apply (leb_not_nan _ _ H).
Qed.

Lemma cpu_counts_never_negative_witness :
  exists st k',
    computeStatsFromPaths Scenario.two_phase 0 Scenario.three_paths (Num 100)
    = (Ok st, k') /\
    Forall (fun c => (0 <=? c) = true /\ is_nan c = false)
           (cpu_counts (histogram_data st)).
Proof.
  destruct (computeStats_returns Scenario.two_phase 0 Scenario.three_paths (Num 100))
    as (v & cv & _ & _ & Hrun).
  - discriminate.
  - repeat constructor; discriminate.
  - do 2 eexists. split; [exact Hrun|].
    apply (cpu_counts_never_negative _ _ _ _ _ _ Hrun).
    + intros i _. apply two_phase_unit.
    + vm_compute. reflexivity.
Defined.

End NumberFacts.

(* ================================================================== *)
(** * Numbers that are not negative, and the two ratios *)
(* ================================================================== *)

Module FigureFacts.

Import JS Stats RoundingFacts RoundFacts OrderFacts SubFacts SignFacts.
Import StartPriceFacts EngineFacts NumberFacts.

(** ** Numbers that are not negative *)

Section Sign.

Local Open Scope Z_scope.

Lemma binary_round_aux_nonneg (m e : Z) (l : location) :
  0 <= m -> nonneg_sf (binary_round_aux prec emax false m e l).
Proof.
  intros Hm.
  destruct (binary_round_aux_shape false m e l Hm) as (K & M' & _ & _ & _ & _ & ->).
  destruct (M' =? 0); [exact I|].
  destruct (e + K <=? emax - prec); exact I.
Qed.

Lemma binary_round_nonneg (m : positive) (e : Z) :
  nonneg_sf (binary_round prec emax false m e).
Proof.
  unfold binary_round.
  destruct (shl_align m e (fexp prec emax (Z.pos (digits2_pos m) + e))) as [mz ez].
  apply binary_round_aux_nonneg. lia.
Qed.

Lemma binary_normalize_nonneg (m e : Z) :
  0 <= m -> nonneg_sf (binary_normalize prec emax m e false).
Proof.
  intros Hm. destruct m as [|p|p]; cbn [binary_normalize];
    [exact I|apply binary_round_nonneg|lia].
Qed.

(** The double [SF2Prim] builds from what is not negative is not negative. *)
Lemma SF2Prim_nonneg (x : spec_float) : nonneg_sf x -> nonneg (SF2Prim x).
Proof.
  unfold nonneg.
  destruct x as [[]|[]| |[] m e]; intros Hx; try destruct Hx; try exact I.
  unfold SF2Prim. cbv zeta. unfold Z.ldexp.
  rewrite ldshiftexp_spec, of_uint63_spec.
  pose proof (binary_normalize_nonneg
                (Uint63Axioms.to_Z (Uint63Axioms.of_Z (Z.pos m))) 0
                (proj1 (Uint63.to_Z_bounded _))) as Hn.
  destruct (binary_normalize prec emax _ 0 false) as [s'|[]| |[] m' e'];
    cbn [nonneg_sf] in Hn; try destruct Hn; unfold SFldexp; try exact I.
  apply binary_round_nonneg.
Qed.

Lemma of_Z_nonneg (z : Z) : 0 <= z -> nonneg (of_Z z).
Proof. intros Hz. apply SF2Prim_nonneg, binary_normalize_nonneg, Hz. Qed.

End Sign.

Open Scope float_scope.

Lemma of_nat_nonneg (n : nat) : nonneg (of_nat n).
Proof. apply of_Z_nonneg. lia. Qed.

Lemma mul_nonneg (x y : float) (m : positive) (e : Z) :
  nonneg x -> Prim2SF y = S754_finite false m e -> nonneg (x * y).
Proof.
  unfold nonneg. intros Hx Hy. rewrite mul_spec, Hy.
  destruct (Prim2SF x) as [s|[]| |[] mx ex]; try destruct Hx; try exact I.
  unfold SF64mul, SFmul. cbn [xorb]. apply binary_round_aux_nonneg. lia.
Qed.

(** [parseFloat(x.toFixed(d))] of what is not negative is not negative. *)
Lemma parseFloat_toFixed_nonneg (d : nat) (x : float) :
  nonneg x -> nonneg (parseFloat_toFixed d x).
Proof.
  intros Hx. unfold parseFloat_toFixed. unfold nonneg in Hx.
  destruct (Prim2SF x) as [s|[]| |[] m e] eqn:E; try destruct Hx.
  - exact I.
  - unfold nonneg. now rewrite E.
  - destruct (1e21 <=? abs x); [unfold nonneg; now rewrite E|].
    destruct (toFixed_digits d m e) as [|n|n]; try exact I.
    apply SF2Prim_nonneg. unfold SFdiv.
    pose proof (SFdiv_core_binary_nonneg n (Z.to_pos (10 ^ Z.of_nat d)) 0 0) as Hq.
    destruct (SFdiv_core_binary prec emax (Z.pos n) 0
                (Z.pos (Z.to_pos (10 ^ Z.of_nat d))) 0) as [[mz ez] lz].
    cbn [fst] in Hq. cbn [xorb]. apply binary_round_aux_nonneg. exact Hq.
Qed.

(** [Math.round] of what is not negative is not negative. *)
Lemma Math_round_nonneg (x : float) : nonneg x -> nonneg (Math_round x).
Proof.
  intros Hx. unfold Math_round, roundZ. unfold nonneg in Hx.
  destruct (Prim2SF x) as [s|[]| |[] m e] eqn:E; try destruct Hx.
  - cbn [Z.eqb]. destruct ((x <? 0) || get_sign x); exact I.
  - unfold nonneg. now rewrite E.
  - cbv zeta.
    set (z := if (0 <=? e)%Z then (Z.pos m * 2 ^ e)%Z
              else ((2 * Z.pos m + 2 ^ (- e)) / (2 * 2 ^ (- e)))%Z).
    assert (Hz : (0 <= z)%Z).
    { unfold z. destruct (Z.leb_spec 0 e).
      - assert (0 < 2 ^ e)%Z by (apply Z.pow_pos_nonneg; lia). lia.
      - assert (0 < 2 ^ (- e))%Z by (apply Z.pow_pos_nonneg; lia).
        apply Z.div_pos; lia. }
    destruct (z =? 0)%Z; [destruct ((x <? 0) || get_sign x); exact I|].
    apply of_Z_nonneg, Hz.
Qed.

Lemma nonneg_leb (x : float) : nonneg x -> (0 <=? x) = true.
Proof.
  unfold nonneg. rewrite leb_spec, Prim2SF_zero.
  destruct (Prim2SF x) as [s|[]| |[] m e]; intros H; try destruct H; reflexivity.
Qed.

Lemma Prim2SF_100 : Prim2SF 100 = S754_finite false 7036874417766400 (-46).
Proof. vm_compute. reflexivity. Qed.

(** ** The two ratios of the risk statistics *)

(** X21: whenever the call returns, whatever the prices and the start price
    are (NaN and [undefined] included), the profit probability and the
    average drawdown it reports are numbers at or above zero. *)
Theorem ratios_never_negative (random : random_source) (k : nat)
    (paths : list (list float)) (startPrice : value) (st : StatsResult) (k' : nat) :
  computeStatsFromPaths random k paths startPrice = (Ok st, k') ->
  (Z.of_nat (length paths) < max_length)%Z ->
  (0 <=? probability_of_profit (risk_statistics st)) = true /\
  is_nan (probability_of_profit (risk_statistics st)) = false /\
  (0 <=? average_drawdown_days (risk_statistics st)) = true /\
  is_nan (average_drawdown_days (risk_statistics st)) = false.
Proof.
  intros Hrun Hlen. rewrite computeStats_unfold in Hrun.
  destruct paths as [|p ps]; [discriminate|].
  destruct (var95 (p :: ps)) as [v|]; [|discriminate].
  destruct (cvar95 (p :: ps)) as [cv|]; [|discriminate].
  injection Hrun as <- _.
  cbn [result_of risk_statistics probability_of_profit average_drawdown_days].
  destruct (Prim2SF_of_nat (length (p :: ps)) ltac:(cbn; lia) Hlen)
    as (m & e & HN).
  assert (H1 : nonneg (parseFloat_toFixed 1 (probProfit (p :: ps) startPrice))).
  { apply parseFloat_toFixed_nonneg. unfold probProfit.
    apply (mul_nonneg _ _ _ _ (div_nonneg _ _ _ _ (of_nat_nonneg _) HN) Prim2SF_100). }
  assert (H2 : nonneg (Math_round (avgDrawdown (p :: ps) startPrice))).
  { apply Math_round_nonneg. unfold avgDrawdown.
    apply (div_nonneg _ _ _ _ (of_nat_nonneg _) HN). }
  repeat split; auto using nonneg_leb, nonneg_not_nan.
Qed.

Lemma ratios_never_negative_witness :
  exists st k',
    computeStatsFromPaths Scenario.two_phase 0 Scenario.three_paths Undefined
    = (Ok st, k') /\
    (0 <=? probability_of_profit (risk_statistics st)) = true /\
    (0 <=? average_drawdown_days (risk_statistics st)) = true.
Proof.
  destruct (computeStats_returns Scenario.two_phase 0 Scenario.three_paths Undefined)
    as (v & cv & _ & _ & Hrun).
  - discriminate.
  - repeat constructor; discriminate.
  - do 2 eexists. split; [exact Hrun|].
    destruct (ratios_never_negative _ _ _ _ _ _ Hrun) as (H1 & _ & H2 & _).
    + vm_compute. reflexivity.
    + split; assumption.
Defined.

End FigureFacts.

(* ================================================================== *)
(** * Doubles above a power of two *)
(* ================================================================== *)

Module PowerFacts.

Import JS RoundingFacts RoundFacts OrderFacts SubFacts.

(** ** Powers of two as thresholds *)

(** The double [2^p], for [-1022 <= p <= 1023]. *)
Definition pow2 (p : Z) : float :=
  SF2Prim (S754_finite false 4503599627370496 (p - 52)).

Section Powers.

Local Open Scope Z_scope.

Lemma digits2_pos_pow52 : Z.pos (digits2_pos 4503599627370496) = 53.
Proof. vm_compute. reflexivity. Qed.

Lemma pos_pow52 : Z.pos 4503599627370496 = 2 ^ 52.
Proof. reflexivity. Qed.

Lemma Prim2SF_pow2 (p : Z) :
  -1022 <= p <= 1023 ->
  Prim2SF (pow2 p) = S754_finite false 4503599627370496 (p - 52).
Proof.
  intros Hp. unfold pow2. apply Prim2SF_SF2Prim.
  cbn [SpecFloat.valid_binary]. unfold SpecFloat.bounded, canonical_mantissa.
  rewrite digits2_pos_pow52, SpeedupFacts.fexp_eq.
  apply andb_true_iff. split; [apply Z.eqb_eq|apply Z.leb_le]; unfold emax, prec; lia.
Qed.

(** The order of two positive finite doubles, on their fields. *)
Lemma SFleb_finite (m m2 : positive) (e e2 : Z) :
  SFleb (S754_finite false m e) (S754_finite false m2 e2) = true <->
  e < e2 \/ (e = e2 /\ Z.pos m <= Z.pos m2).
Proof.
  unfold SFleb, SFcompare.
  change (Pos.compare_cont Eq m m2) with (Pos.compare m m2).
  destruct (Z.compare_spec e e2) as [->|Hl|Hg].
  - destruct (Pos.compare_spec m m2) as [->|Hc|Hc].
    + split; [intros _; right; split; [reflexivity|apply Z.le_refl]|reflexivity].
    + apply Pos2Z.pos_lt_pos in Hc.
      split; [intros _; right; split; [reflexivity|apply Z.lt_le_incl, Hc]
             |reflexivity].
    + apply Pos2Z.pos_lt_pos in Hc. split; [discriminate|].
      intros [H|[_ H]]; [exfalso; apply (Z.lt_irrefl _ H)|].
      exfalso. apply (Z.lt_irrefl (Z.pos m)).
      eapply Z.le_lt_trans; [exact H|exact Hc].
  - split; [intros _; left; exact Hl|reflexivity].
  - split; [discriminate|]. intros [H|[H _]]; exfalso.
    + apply (Z.lt_irrefl e). eapply Z.lt_trans; [exact H|exact Hg].
    + subst e2. apply (Z.lt_irrefl _ Hg).
Qed.

(** A double at or above [2^p] is plus infinity or a normal positive
    double with an exponent to match. *)
Lemma above_pow2 (p : Z) (x : float) :
  -1022 <= p <= 1023 -> (pow2 p <=? x)%float = true ->
  Prim2SF x = S754_infinity false \/
  exists m e, Prim2SF x = S754_finite false m e /\
              2 ^ 52 <= Z.pos m < 2 ^ 53 /\ p - 52 <= e <= 971.
Proof.
  intros Hp. rewrite leb_spec, (Prim2SF_pow2 p Hp).
  destruct (Prim2SF x) as [s|[]| |[] m e] eqn:E;
    try (unfold SFleb, SFcompare; discriminate); [auto|].
  intros H. right. exists m, e. split; [reflexivity|].
  apply SFleb_finite in H. rewrite pos_pow52 in H.
  destruct (bounded_spec m e (Prim2SF_bounded x false m e E)) as (He & Hm & Hn).
  split; [split; [|exact Hm]|split; [|apply He]].
  - destruct H as [H|[_ H]]; [|exact H]. apply Hn. lia.
  - destruct H as [H|[H _]]; lia.
Qed.

Lemma pow2_below (p : Z) (x : float) (m : positive) (e : Z) :
  -1022 <= p <= 1023 ->
  Prim2SF x = S754_finite false m e ->
  p - 52 < e \/ (p - 52 = e /\ 2 ^ 52 <= Z.pos m) ->
  (pow2 p <=? x)%float = true.
Proof.
  intros Hp E H. rewrite leb_spec, (Prim2SF_pow2 p Hp), E.
  apply SFleb_finite. rewrite pos_pow52. exact H.
Qed.

Lemma pow2_below_infinity (p : Z) (x : float) :
  -1022 <= p <= 1023 -> Prim2SF x = S754_infinity false ->
  (pow2 p <=? x)%float = true.
Proof. intros Hp E. rewrite leb_spec, (Prim2SF_pow2 p Hp), E. reflexivity. Qed.

(** What is at or above a power of two is positive. *)
Lemma above_pow2_positive (p : Z) (x : float) :
  -1022 <= p <= 1023 -> (pow2 p <=? x)%float = true -> (0 <? x)%float = true.
Proof.
  intros Hp H. rewrite ltb_spec. change (Prim2SF 0) with (S754_zero false).
  destruct (above_pow2 p x Hp H) as [->|(m & e & -> & _)]; reflexivity.
Qed.

Lemma pow2_mono (p q : Z) (x : float) :
  -1022 <= p -> p <= q -> q <= 1023 ->
  (pow2 q <=? x)%float = true -> (pow2 p <=? x)%float = true.
Proof.
  intros Hp Hpq Hq H.
  destruct (above_pow2 q x ltac:(lia) H) as [E|(m & e & E & Hm & He)].
  - apply pow2_below_infinity; [lia|exact E].
  - apply (pow2_below p x m e ltac:(lia) E).
    destruct (Z.eq_dec (p - 52) e) as [Heq|Hne]; [right; split; [exact Heq|apply Hm]|].
    left. lia.
Qed.

(** ** A product of two doubles above powers of two

    The product of [x >= 2^p] and [f >= 2^q] is at least [2^(p + q)] when
    that is a normal double: rounding the exact product cannot take it
    below a power of two. *)
Lemma mul_above_pow2 (x f : float) (p q : Z) :
  -1022 <= p <= 1023 -> -1022 <= q <= 1023 -> -1022 <= p + q <= 1023 ->
  (pow2 p <=? x)%float = true -> (pow2 q <=? f)%float = true ->
  (pow2 (p + q) <=? x * f)%float = true.
Proof.
  intros Hp Hq Hpq Hx Hf.
  destruct (above_pow2 p x Hp Hx) as [Ex|(m & e & Ex & Hm & He)];
    destruct (above_pow2 q f Hq Hf) as [Ef|(m' & e' & Ef & Hm' & He')].
  - apply pow2_below_infinity; [exact Hpq|]. rewrite mul_spec, Ex, Ef. reflexivity.
  - apply pow2_below_infinity; [exact Hpq|]. rewrite mul_spec, Ex, Ef. reflexivity.
  - apply pow2_below_infinity; [exact Hpq|]. rewrite mul_spec, Ex, Ef. reflexivity.
  - assert (Hprod : Prim2SF (x * f)
                    = binary_round_aux prec emax false (Z.pos m * Z.pos m')
                        (e + e') loc_Exact).
    { rewrite mul_spec, Ex, Ef. reflexivity. }
    set (M := Z.pos m * Z.pos m') in *.
    assert (HM : 2 ^ 104 <= M < 2 ^ 106).
    { change (2 ^ 104) with (2 ^ 52 * 2 ^ 52).
      change (2 ^ 106) with (2 ^ 53 * 2 ^ 53). unfold M. nia. }
    pose proof (Zdigits2_upper M ltac:(lia)) as HDu.
    pose proof (Zdigits2_lower M ltac:(lia)) as HDl.
    set (D := Zdigits2 M) in *.
    assert (HD : 105 <= D <= 106).
    { split.
      - destruct (Z_le_gt_dec 105 D) as [|Hgt]; [assumption|exfalso].
        assert (2 ^ D <= 2 ^ 104) by (apply Z.pow_le_mono_r; lia). lia.
      - destruct (Z_le_gt_dec D 106) as [|Hgt]; [assumption|exfalso].
        assert (2 ^ 106 <= 2 ^ (D - 1)) by (apply Z.pow_le_mono_r; lia). lia. }
    destruct (binary_round_aux_shape false M (e + e') loc_Exact ltac:(lia))
      as (K & M' & HK & HM' & _ & Hcase & Hround).
    fold D in HK, Hcase. rewrite SpeedupFacts.fexp_eq in HK, Hcase.
    replace (Z.max 0 (Z.max (D + (e + e') - 53) (-1074) - (e + e')))
      with (D - 53) in HK, Hcase by lia.
    assert (HpK : 0 < 2 ^ K) by (apply Z.pow_pos_nonneg; lia).
    assert (Hq52 : 2 ^ 52 <= M').
    { destruct Hcase as [-> | ->]; [|apply Z.le_refl].
      assert (2 ^ 52 <= M / 2 ^ (D - 53)); [|lia].
      apply Z.div_le_lower_bound; [lia|].
      rewrite <- Z.pow_add_r by lia.
      replace (D - 53 + 52) with (D - 1) by lia. exact HDl. }
    rewrite Hround in Hprod.
    destruct (Z.eqb_spec M' 0) as [H0|_]; [lia|].
    destruct (Z.leb_spec (e + e' + K) (emax - prec)) as [_|_].
    + apply (pow2_below (p + q) _ (Z.to_pos M') (e + e' + K) Hpq Hprod).
      rewrite Z2Pos.id by lia.
      destruct (Z.eq_dec (p + q - 52) (e + e' + K)) as [Heq|Hne];
        [right; split; [exact Heq|exact Hq52]|left; lia].
    + apply (pow2_below_infinity (p + q) _ Hpq Hprod).
Qed.

End Powers.

End PowerFacts.

(* ================================================================== *)
(** * Generated prices in doubles *)
(* ================================================================== *)

Module PathFacts.

Import JS Generator GeneratorFacts PowerFacts.

(** ** Prices that stay above a power of two *)

Section Doubles.

Variables (exp log cos : float -> float).
Variable random : nat -> float.
Variables (mu sigma : float).

(** Every growth factor [Math.exp(drift + vol * z)], for a sample [z] that
    [gaussRandom] can form from the random source, is at least [2^(-b)]. *)
Definition factors_above (b : Z) : Prop :=
  forall j z j',
    sample (Float64 exp log cos) random j z j' ->
    (pow2 (- b)
     <=? exp (drift (Float64 exp log cos) mu sigma
              + vol (Float64 exp log cos) sigma * z))%float = true.

(** From a price at or above [2^p], [n] steps of factors at or above
    [2^(-b)] stay at or above [2^(p - b n)], as long as that is a normal
    double. *)
Lemma chain_above (b : Z) (k : nat) (prev : float) (rest : list float) (k' : nat) :
  chain (Float64 exp log cos) random mu sigma k prev rest k' ->
  (0 <= b <= 1022)%Z -> factors_above b ->
  forall p : Z,
    (p <= 1023)%Z -> (-1022 <= p - b * Z.of_nat (length rest))%Z ->
    (pow2 p <=? prev)%float = true ->
    Forall (fun x => (pow2 (p - b * Z.of_nat (length rest)) <=? x)%float = true) rest.
Proof.
  intros Hch Hb Hf.
  induction Hch as [|k k1 k2 prev z rest Hs Hch IH]; intros p Hp Hlow Hprev;
    [constructor|].
  change (num (Float64 exp log cos)) with float in *.
  cbn [length] in *. rewrite Nat2Z.inj_succ in *.
  set (n := Z.of_nat (Datatypes.length rest)) in *.
  assert (Hx : (pow2 (p + - b)
                <=? next_price (Float64 exp log cos) mu sigma prev z)%float = true).
  { unfold next_price. cbn [mul add Math_exp Float64].
    apply mul_above_pow2; [lia|lia|nia|exact Hprev|].
    apply (Hf _ _ _ Hs). }
  constructor.
  - apply (pow2_mono _ (p + - b)); [lia|nia|lia|exact Hx].
  - assert (E : (p - b * Z.succ n = p + - b - b * n)%Z) by lia.
    rewrite E. apply IH; [lia|lia|exact Hx].
Qed.

End Doubles.

(** ** A run to evaluate *)

(** Stand-ins for [Math.exp], [Math.log] and [Math.cos] that are right
    where the run below evaluates them: the second-order expansion of the
    exponential near 0, the logarithm of 0.5 and the cosine of pi. *)
Definition exp_near_zero (x : float) : float := (1 + x + x * x / 2)%float.
Definition log_of_half (u : float) : float := (-0.6931471805599453)%float.
Definition cos_of_pi (v : float) : float := (-1)%float.

(** On the source that always returns 0.5 every sample is the same. *)
Lemma half_sample (exp log cos : float -> float) (j : nat) (z : float) (j' : nat) :
  sample (Float64 exp log cos) (fun _ => 0.5%float) j z j' ->
  z = box_muller (Float64 exp log cos) 0.5%float 0.5%float.
Proof.
  intros (u & v & k1 & (_ & Hu & _) & (_ & Hv & _) & ->). now subst u v.
Qed.

Lemma half_factors_above :
  factors_above exp_near_zero log_of_half cos_of_pi (fun _ => 0.5%float)
    0.082%float 0.176%float 1.
Proof.
  intros j z j' Hs. rewrite (half_sample _ _ _ _ _ _ Hs).
  vm_compute. reflexivity.
Qed.

End PathFacts.

(* ================================================================== *)
(** * The claim about the path generator *)
(* ================================================================== *)

Module PathClaims.

Import JS Generator GeneratorFacts PowerFacts PathFacts.

(** C8, amended: in doubles, on a random source whose rejection loops
    end, [generatePath(S0, days, mu, sigma)] with [days >= 2] returns a path
    of length [days] whose element 0 is [S0], each later price being the one
    before it times [exp (drift + vol * z)], [z] the Box-Muller transform of
    two draws accepted as the first ones that are not exactly zero; and
    every price is positive, at least [2^(a - b (days - 1))], when [S0] is
    at least [2^a] and every growth factor [exp (drift + vol * z)] that can
    come up is at least [2^(-b)], these powers being normal doubles. *)
Theorem generatePath_gbm (exp log cos : float -> float) (random : nat -> float)
    (mu sigma S0 : float) (days k : nat) :
  fair (Float64 exp log cos) random -> (2 <= days)%nat ->
  exists fuel path k',
    generatePath (Float64 exp log cos) random mu sigma fuel S0 days k
    = Some (path, k') /\
    length path = days /\
    nth_error path 0 = Some S0 /\
    (exists rest,
        path = S0 :: rest /\
        chain (Float64 exp log cos) random mu sigma k S0 rest k') /\
    (forall a b : Z,
        (0 <= b <= 1022)%Z -> (a <= 1023)%Z ->
        (-1022 <= a - b * Z.of_nat (days - 1))%Z ->
        (pow2 a <=? S0)%float = true ->
        factors_above exp log cos random mu sigma b ->
        Forall (fun x => (0 <? x)%float = true /\
                         (pow2 (a - b * Z.of_nat (days - 1)) <=? x)%float = true)
               path).
Proof.
  intros Hfair Hdays.
  destruct (generatePath_returns (Float64 exp log cos) random Hfair mu sigma S0 days k)
    as (fuel & [path k'] & Hrun).
  destruct (generatePath_chain _ _ _ _ _ _ _ _ _ _ Hrun) as [Hlen Hch].
  destruct Hch as (rest & -> & Hch); [lia|].
  exists fuel, (S0 :: rest), k'.
  split; [exact Hrun|]. split; [exact Hlen|]. split; [reflexivity|].
  split; [eauto|]. intros a b Hb Ha Hlow HS0 Hf.
  change (num (Float64 exp log cos)) with float in *.
  assert (Hrest : length rest = (days - 1)%nat) by (cbn [length] in Hlen; lia).
  pose proof (chain_above exp log cos random mu sigma b k S0 rest k' Hch Hb Hf a Ha)
    as Hall.
  rewrite Hrest in Hall. specialize (Hall Hlow HS0).
  assert (Hbn : (0 <= b * Z.of_nat (days - 1))%Z)
    by (apply Z.mul_nonneg_nonneg; lia).
  assert (Hrange : (-1022 <= a - b * Z.of_nat (days - 1) <= 1023)%Z) by lia.
  assert (Hfirst : (pow2 (a - b * Z.of_nat (days - 1)) <=? S0)%float = true).
  { apply (pow2_mono _ a); [lia|lia|lia|exact HS0]. }
  apply Forall_forall. intros x [<-|Hx].
  - split; [|exact Hfirst]. apply (above_pow2_positive _ _ Hrange Hfirst).
  - pose proof (proj1 (Forall_forall _ _) Hall x Hx) as Hxa. cbv beta in Hxa.
    split; [|exact Hxa]. apply (above_pow2_positive _ _ Hrange Hxa).
Qed.

(** The SPY configuration on the source that always returns 0.5: the
    start price 190.17 is above [2^7], each growth factor above [2^(-1)],
    and the three prices are positive. *)
Lemma generatePath_gbm_witness :
  exists fuel path k',
    generatePath (Float64 exp_near_zero log_of_half cos_of_pi) (fun _ => 0.5%float)
      0.082%float 0.176%float fuel 190.17%float 3 0
    = Some (path, k') /\
    length path = 3%nat /\
    Forall (fun x => (0 <? x)%float = true) path.
Proof.
  destruct (generatePath_gbm exp_near_zero log_of_half cos_of_pi (fun _ => 0.5%float)
              0.082%float 0.176%float 190.17%float 3 0)
    as (fuel & path & k' & Hrun & Hlen & _ & _ & Hpos).
  - intros k. exists 0%nat. reflexivity.
  - lia.
  - exists fuel, path, k'. split; [exact Hrun|]. split; [exact Hlen|].
    specialize (Hpos 7%Z 1%Z ltac:(lia) ltac:(lia) ltac:(cbn; lia)
                  ltac:(vm_compute; reflexivity) half_factors_above).
    eapply Forall_impl; [|exact Hpos]. intros x [Hx _]. exact Hx.
Defined.

End PathClaims.
